(** * Command and option parse (src/config/parse.c)

    A shallow embedding of pgBackRest's configuration parser: the staging
    table of parsed options, the five phases of [configParse], the config
    file loader [cfgFileLoad] and the size parser [convertToByte], with the
    properties the specification states about them. *)

From Stdlib Require Import ZArith Floats Ascii String DecimalString.
From stdpp Require Import base option list strings gmap sorting.

Local Open Scope string_scope.
Local Open Scope list_scope.
Local Open Scope nat_scope.

(** ** Errors

    [THROW] and [THROW_FMT] unwind to the caller with an error type and a
    message.  Dereferencing a null pointer and reading or writing an array out
    of its bounds are undefined behaviour in C; they are kept apart from the
    thrown errors as [NullDeref] and [OutOfBounds]. *)

Inductive ErrorType :=
  | AssertError
  | CommandInvalidError
  | CommandRequiredError
  | FileMissingError
  | FormatError
  | OptionInvalidError
  | OptionInvalidValueError
  | OptionRequiredError
  | ParamInvalidError
  | PathMissingError.

Inductive Result (A : Type) : Type :=
  | Ok (a : A)
  | Throw (e : ErrorType) (msg : string)
  | NullDeref
  | OutOfBounds.

Arguments Ok {A} a.
Arguments Throw {A} e msg.
Arguments NullDeref {A}.
Arguments OutOfBounds {A}.

Global Instance Result_bind : MBind Result := fun A B k r =>
  match r with
  | Ok a => k a
  | Throw e msg => Throw e msg
  | NullDeref => NullDeref
  | OutOfBounds => OutOfBounds
  end.

Global Instance Result_ret : MRet Result := fun A a => Ok a.

(** [ASSERT(cond)] of common/debug.h, as compiled in a debug build. *)
Definition ASSERT (cond : bool) : Result unit :=
  if cond then Ok tt else Throw AssertError "assertion failed".

Global Instance ErrorType_eq_dec : EqDecision ErrorType.
Proof. solve_decision. Defined.

(** ** Parse option flags *)

Definition PARSE_OPTION_FLAG : Z := Z.shiftl 1 30.
Definition PARSE_NEGATE_FLAG : Z := Z.shiftl 1 29.
Definition PARSE_RESET_FLAG : Z := Z.shiftl 1 28.
Definition PARSE_DEPRECATE_FLAG : Z := Z.shiftl 1 27.
Definition PARSE_OPTION_MASK : Z := 0xFF.
Definition PARSE_INDEX_SHIFT : Z := 8.
Definition PARSE_INDEX_MASK : Z := 0xFF.

(** A C integer used as a condition: true when it is not zero. *)
Definition flagSet (code flag : Z) : bool := negb (Z.land code flag =? 0)%Z.

Definition parseOptionId (code : Z) : nat := Z.to_nat (Z.land code PARSE_OPTION_MASK).
Definition parseOptionIdx (code : Z) : nat :=
  Z.to_nat (Z.land (Z.shiftr code PARSE_INDEX_SHIFT) PARSE_INDEX_MASK).

(** ** Struct to hold options parsed from the command line *)

(** [ConfigSource] of config/config.h; the zero value is [cfgSourceDefault]. *)
Inductive ConfigSource := cfgSourceDefault | cfgSourceParam | cfgSourceConfig.

Global Instance ConfigSource_eq_dec : EqDecision ConfigSource.
Proof. solve_decision. Defined.

Record ParseOptionValue := mkParseOptionValue {
  found : bool;                       (* Was the option found? *)
  negate : bool;                      (* Was the option negated? *)
  reset : bool;                       (* Was the option reset? *)
  source : ConfigSource;              (* Where was the option found? *)
  valueList : option (list string);   (* List of values found, [None] for NULL *)
}.

Record ParseOption := mkParseOption {
  indexListAlloc : nat;               (* Allocated size of index list *)
  indexListTotal : nat;               (* Total options in indexed list *)
  indexList : list ParseOptionValue;  (* List of indexed option values, [[]] for NULL *)
}.

(** The value of a zero-initialised struct, as in
    [ParseOption parseOptionList[CFG_OPTION_TOTAL] = {0}]. *)
Definition parseOptionValueZero : ParseOptionValue :=
  mkParseOptionValue false false false cfgSourceDefault None.
Definition parseOptionZero : ParseOption := mkParseOption 0 0 [].

(** ** Get the indexed value

    The function returns a pointer into the index list, or NULL.  The pointer
    is modelled by the record it points to; a write through it is
    [parseOptionIdxSet]. *)
Definition parseOptionIdxValue (parseOption : ParseOption) (optionIdx : nat)
    : option ParseOptionValue :=
  if optionIdx <? indexListTotal parseOption
  then indexList parseOption !! optionIdx
  else None.

Definition parseOptionIdxSet (parseOption : ParseOption) (optionIdx : nat)
    (value : ParseOptionValue) : ParseOption :=
  mkParseOption (indexListAlloc parseOption) (indexListTotal parseOption)
    (<[optionIdx := value]> (indexList parseOption)).

(** The staging table is an array of [ParseOption] indexed by option id. *)
Abbreviation ParseOptionList := (list ParseOption).

Definition parseOptionListInit (total : nat) : ParseOptionList :=
  replicate total parseOptionZero.

(** Lookup of [(optionId, optionIdx)] in the table: the record behind the
    pointer [parseOptionIdxValue(&parseOptionList[optionId], optionIdx)]. *)
Definition tableValue (table : ParseOptionList) (optionId optionIdx : nat)
    : option ParseOptionValue :=
  match table !! optionId with
  | Some po => parseOptionIdxValue po optionIdx
  | None => None
  end.

Definition tableSet (table : ParseOptionList) (optionId optionIdx : nat)
    (value : ParseOptionValue) : ParseOptionList :=
  match table !! optionId with
  | Some po => <[optionId := parseOptionIdxSet po optionIdx value]> table
  | None => table
  end.

(** ** String helpers

    common/type/string.c and common/type/stringList.c are outside the parser;
    the functions it calls are given by their usual meaning. *)

Definition chrLower (c : ascii) : ascii :=
  let n := nat_of_ascii c in
  if (65 <=? n) && (n <=? 90) then ascii_of_nat (n + 32) else c.

Fixpoint strLower (s : string) : string :=
  match s with
  | EmptyString => EmptyString
  | String c s' => String (chrLower c) (strLower s')
  end.

Fixpoint strReplaceChr (s : string) (find replace : ascii) : string :=
  match s with
  | EmptyString => EmptyString
  | String c s' =>
      String (if Ascii.eqb c find then replace else c) (strReplaceChr s' find replace)
  end.

(** [strLstNewSplitZ] for a one character delimiter: the parts between the
    delimiters, so that a string without delimiter gives one part. *)
Fixpoint strLstNewSplitChr (s : string) (delimiter : ascii) : list string :=
  match s with
  | EmptyString => [EmptyString]
  | String c s' =>
      if Ascii.eqb c delimiter then EmptyString :: strLstNewSplitChr s' delimiter
      else match strLstNewSplitChr s' delimiter with
           | part :: parts => String c part :: parts
           | [] => [String c EmptyString]
           end
  end.

Definition strBeginsWithZ (s prefix : string) : bool := String.prefix prefix s.

Definition strEndsWithZ (s suffix : string) : bool :=
  let n := String.length s in
  let m := String.length suffix in
  (m <=? n) && String.eqb (String.substring (n - m) m s) suffix.

(** [strstr(s, find) != NULL] *)
Fixpoint strContainsZ (s find : string) : bool :=
  String.prefix find s ||
  match s with
  | EmptyString => false
  | String _ s' => strContainsZ s' find
  end.

Definition strTrunc (s : string) (idx : nat) : string := String.substring 0 idx s.

(** [strLstJoin] *)
Fixpoint strLstJoin (l : list string) (separator : string) : string :=
  match l with
  | [] => ""
  | [s] => s
  | s :: l' => s +:+ separator +:+ strLstJoin l' separator
  end.

(** ** Option and command definitions

    The generated tables (config/define.auto.c, config/config.auto.c and
    config/parse.auto.c) and the functions that read them are not part of the
    parser; the parser is stated over any such tables. *)

Inductive ConfigDefineOptionType :=
  | cfgDefOptTypeBoolean
  | cfgDefOptTypeFloat
  | cfgDefOptTypeHash
  | cfgDefOptTypeInteger
  | cfgDefOptTypeList
  | cfgDefOptTypePath
  | cfgDefOptTypeSize
  | cfgDefOptTypeString.

Inductive ConfigDefSection :=
  | cfgDefSectionCommandLine
  | cfgDefSectionGlobal
  | cfgDefSectionStanza.

(** The commands the parser tells apart, and the others by their id. *)
Inductive ConfigCommand :=
  | cfgCmdHelp
  | cfgCmdVersion
  | cfgCmdNone
  | cfgCmd (id : nat).

Inductive ConfigCommandRole :=
  | cfgCmdRoleDefault
  | cfgCmdRoleAsync
  | cfgCmdRoleLocal
  | cfgCmdRoleRemote.

Global Instance ConfigDefineOptionType_eq_dec : EqDecision ConfigDefineOptionType.
Proof. solve_decision. Defined.
Global Instance ConfigDefSection_eq_dec : EqDecision ConfigDefSection.
Proof. solve_decision. Defined.
Global Instance ConfigCommand_eq_dec : EqDecision ConfigCommand.
Proof. solve_decision. Defined.
Global Instance ConfigCommandRole_eq_dec : EqDecision ConfigCommandRole.
Proof. solve_decision. Defined.

(** [struct option] of getopt.h ([flag] is always NULL in the generated list). *)
Inductive HasArg := no_argument | required_argument.

Global Instance HasArg_eq_dec : EqDecision HasArg.
Proof. solve_decision. Defined.

Record struct_option := mkOption {
  name : string;
  has_arg : HasArg;
  val : Z;
}.

(** The variants the parser commits (common/type/variant.h). *)
Inductive Variant :=
  | VarBool (b : bool)
  | VarStr (s : string)
  | VarKv (kv : list (string * string))
  | VarLst (l : list string).

Record Define := mkDefine {
  CFG_OPTION_TOTAL : nat;
  CFG_OPTION_GROUP_TOTAL : nat;
  CFG_OPTION_INDEX_MAX : nat;
  (* parse.auto.c: the entries before the terminating {NULL} entry *)
  optionList : list struct_option;
  optionResolveOrder : list nat;
  (* config/config.auto.h *)
  cfgOptConfig : nat;
  cfgOptConfigIncludePath : nat;
  cfgOptConfigPath : nat;
  cfgOptStanza : nat;
  (* config/config.c *)
  cfgCommandId : string -> ConfigCommand;
  cfgCommandName : ConfigCommand -> string;
  cfgCommandRoleEnum : string -> Result ConfigCommandRole;
  cfgParameterAllowed : ConfigCommand -> bool;
  cfgOptionName : nat -> string;
  cfgOptionIdxName : nat -> nat -> string;
  cfgOptionGroup : nat -> bool;
  cfgOptionGroupId : nat -> nat;
  (* the variant cfgOptionSet() stores for a value, by the type of the option *)
  cfgOptionSetValue : nat -> Variant -> Result Variant;
  (* config/define.c *)
  cfgDefOptionSecure : nat -> bool;
  cfgDefOptionMulti : nat -> bool;
  cfgDefOptionType : nat -> ConfigDefineOptionType;
  cfgDefOptionSection : nat -> ConfigDefSection;
  cfgDefOptionValid : ConfigCommand -> nat -> bool;
  cfgDefOptionDefault : ConfigCommand -> nat -> option string;
  cfgDefOptionRequired : ConfigCommand -> nat -> bool;
  cfgDefOptionDepend : ConfigCommand -> nat -> bool;
  cfgDefOptionDependOption : ConfigCommand -> nat -> nat;
  cfgDefOptionDependValueTotal : ConfigCommand -> nat -> nat;
  cfgDefOptionDependValue : ConfigCommand -> nat -> nat -> string;
  cfgDefOptionDependValueValid : ConfigCommand -> nat -> string -> bool;
  cfgDefOptionAllowRange : ConfigCommand -> nat -> bool;
  cfgDefOptionAllowRangeMin : ConfigCommand -> nat -> float;
  cfgDefOptionAllowRangeMax : ConfigCommand -> nat -> float;
  cfgDefOptionAllowList : ConfigCommand -> nat -> bool;
  cfgDefOptionAllowListValueValid : ConfigCommand -> nat -> string -> bool;
}.

(** ** The configuration being built (config/config.c, config/config.intern.h) *)

Record ConfigOptionValue := mkConfigOptionValue {
  cfgNegate : bool;
  cfgReset : bool;
}.

Record ConfigOption := mkConfigOption {
  valid : bool;                              (* Is the option valid for the command? *)
  index : gmap nat ConfigOptionValue;        (* Flags of each option index *)
  optionSource : ConfigSource;               (* Source set by cfgOptionSet *)
  optionValue : option Variant;              (* Value set by cfgOptionSet, [None] for NULL *)
}.

Record ConfigOptionGroup := mkConfigOptionGroup {
  indexTotal : nat;                          (* Total indexes in the group *)
  groupIndex : list nat;                     (* index[]: raw index of each external index *)
}.

Global Instance ConfigOptionGroup_eq_dec : EqDecision ConfigOptionGroup.
Proof. solve_decision. Defined.

Record Config := mkConfig {
  command : ConfigCommand;
  commandRole : ConfigCommandRole;
  help : bool;
  exe : string;
  paramList : option (list string);
  option_ : list ConfigOption;
  optionGroup : list ConfigOptionGroup;
}.

Definition configOptionZero : ConfigOption :=
  mkConfigOption false ∅ cfgSourceDefault None.

Definition configGroupZero (def : Define) : ConfigOptionGroup :=
  mkConfigOptionGroup 0 (replicate (CFG_OPTION_INDEX_MAX def) 0).

(** [cfgInit()] followed by [cfgExeSet()] *)
Definition cfgInit (def : Define) (exePath : string) : Config :=
  mkConfig cfgCmdNone cfgCmdRoleDefault false exePath None
    (replicate (CFG_OPTION_TOTAL def) configOptionZero)
    (replicate (CFG_OPTION_GROUP_TOTAL def) (configGroupZero def)).

Definition cfgCommandSet (cfg : Config) (commandId : ConfigCommand)
    (commandRoleId : ConfigCommandRole) : Config :=
  mkConfig commandId commandRoleId (help cfg) (exe cfg) (paramList cfg)
    (option_ cfg) (optionGroup cfg).

Definition cfgCommandHelpSet (cfg : Config) (helpParam : bool) : Config :=
  mkConfig (command cfg) (commandRole cfg) helpParam (exe cfg) (paramList cfg)
    (option_ cfg) (optionGroup cfg).

Definition cfgCommandParamSet (cfg : Config) (param : list string) : Config :=
  mkConfig (command cfg) (commandRole cfg) (help cfg) (exe cfg) (Some param)
    (option_ cfg) (optionGroup cfg).

Definition cfgOptionsSet (cfg : Config) (options : list ConfigOption) : Config :=
  mkConfig (command cfg) (commandRole cfg) (help cfg) (exe cfg) (paramList cfg)
    options (optionGroup cfg).

Definition cfgGroupsSet (cfg : Config) (groups : list ConfigOptionGroup) : Config :=
  mkConfig (command cfg) (commandRole cfg) (help cfg) (exe cfg) (paramList cfg)
    (option_ cfg) groups.

(** ** Phase 1: parse command line parameters

    [getopt_long] is libc's; one call of it in the loop of [configParse]
    returns one of the following.  [arg] is [argList[optind - 1]]. *)
Inductive GetoptResult :=
  | GetoptArg (arg : string)                     (* 1: not an option *)
  | GetoptUnknown (arg : string)                 (* '?' *)
  | GetoptMissing (arg : string)                 (* ':' *)
  | GetoptOption (optionListIdx : nat) (optarg : string).

(** The local variables of [configParse] that Phase 1 updates. *)
Record ParseState := mkParseState {
  config : Config;
  parseOptionList : ParseOptionList;
  commandSet : bool;
  commandParamList : option (list string);
  argFound : bool;
}.

Definition parseStateInit (def : Define) (exePath : string) : ParseState :=
  mkParseState (cfgInit def exePath) (parseOptionListInit (CFG_OPTION_TOTAL def))
    false None false.

Definition parseStateTable (st : ParseState) (table : ParseOptionList) : ParseState :=
  mkParseState (config st) table (commandSet st) (commandParamList st) (argFound st).

Section Phase1.
Context (def : Define).

(** [case 1]: commands and parameters passed to commands *)
Definition parseArg (st : ParseState) (arg : string) : Result ParseState :=
  if negb (commandSet st) then
    let commandId := cfgCommandId def arg in
    '(commandId, commandRoleId) ←
      (if decide (commandId = cfgCmdNone) then
         match strLstNewSplitChr arg ":" with
         | [part0; part1] =>
             let commandId := cfgCommandId def part0 in
             if decide (commandId = cfgCmdNone) then Ok (commandId, cfgCmdRoleDefault)
             else role ← cfgCommandRoleEnum def part1; Ok (commandId, role)
         | _ => Ok (commandId, cfgCmdRoleDefault)
         end
       else Ok (commandId, cfgCmdRoleDefault));
    if decide (commandId = cfgCmdNone) then
      Throw CommandInvalidError ("invalid command '" +:+ arg +:+ "'")
    else
      let cfg := cfgCommandSet (config st) commandId commandRoleId in
      if decide (command cfg = cfgCmdHelp) then
        Ok (mkParseState (cfgCommandHelpSet cfg true) (parseOptionList st)
              (commandSet st) (commandParamList st) (argFound st))
      else
        Ok (mkParseState cfg (parseOptionList st) true (commandParamList st)
              (argFound st))
  else
    let params := default [] (commandParamList st) in
    Ok (mkParseState (config st) (parseOptionList st) (commandSet st)
          (Some (params ++ [arg])) (argFound st)).

(** The [else] branch of [if (!optionValue->found)]: the option was found
    before. *)
Definition parseOptionAgain (optionValue : ParseOptionValue)
    (optionId optionIdx : nat) (negateFlag resetFlag : bool)
    (hasArg : HasArg) (optarg : string) : Result ParseOptionValue :=
  let optName := cfgOptionIdxName def optionId optionIdx in
  if negate optionValue && negateFlag then
    Throw OptionInvalidError ("option '" +:+ optName +:+ "' is negated multiple times")
  else if reset optionValue && resetFlag then
    Throw OptionInvalidError ("option '" +:+ optName +:+ "' is reset multiple times")
  else if (reset optionValue && negateFlag) || (negate optionValue && resetFlag) then
    Throw OptionInvalidError ("option '" +:+ optName +:+ "' cannot be negated and reset")
  else if negb (eqb (negate optionValue) negateFlag) then
    Throw OptionInvalidError ("option '" +:+ optName +:+ "' cannot be set and negated")
  else if negb (eqb (reset optionValue) resetFlag) then
    Throw OptionInvalidError ("option '" +:+ optName +:+ "' cannot be set and reset")
  else if bool_decide (hasArg = required_argument) && cfgDefOptionMulti def optionId then
    match valueList optionValue with
    | Some values =>
        Ok (mkParseOptionValue (found optionValue) (negate optionValue)
              (reset optionValue) (source optionValue) (Some (values ++ [optarg])))
    | None => NullDeref
    end
  else
    Throw OptionInvalidError ("option '" +:+ optName +:+ "' cannot be set multiple times").

(** [default]: parse valid option *)
Definition parseOption (st : ParseState) (optionListIdx : nat) (optarg : string)
    : Result ParseState :=
  match optionList def !! optionListIdx with
  | None => NullDeref
  | Some entry =>
      let option := val entry in
      let optionId := parseOptionId option in
      let optionIdx := parseOptionIdx option in
      let negateFlag := flagSet option PARSE_NEGATE_FLAG in
      let resetFlag := flagSet option PARSE_RESET_FLAG in
      _ ← ASSERT (optionId <? CFG_OPTION_TOTAL def);
      if cfgDefOptionSecure def optionId then
        Throw OptionInvalidError
          ("option '" +:+ cfgOptionIdxName def optionId optionIdx +:+
           "' is not allowed on the command-line" +:+ String "010" "" +:+
           "HINT: this option could expose secrets in the process list." +:+
           String "010" "" +:+
           "HINT: specify the option in a configuration file or an environment variable instead.")
      else
        match tableValue (parseOptionList st) optionId optionIdx with
        | None => NullDeref
        | Some optionValue =>
            if negb (found optionValue) then
              let value :=
                mkParseOptionValue true negateFlag resetFlag cfgSourceParam
                  (if decide (has_arg entry = required_argument)
                   then Some [optarg] else None) in
              Ok (parseStateTable st
                    (tableSet (parseOptionList st) optionId optionIdx value))
            else
              value ← parseOptionAgain optionValue optionId optionIdx negateFlag
                        resetFlag (has_arg entry) optarg;
              Ok (parseStateTable st
                    (tableSet (parseOptionList st) optionId optionIdx value))
        end
  end.

(** One iteration of the [while] loop over [getopt_long]. *)
Definition parseStep (st : ParseState) (r : GetoptResult) : Result ParseState :=
  st' ← match r with
        | GetoptArg arg => parseArg st arg
        | GetoptUnknown arg =>
            Throw OptionInvalidError ("invalid option '" +:+ arg +:+ "'")
        | GetoptMissing arg =>
            Throw OptionInvalidError ("option '" +:+ arg +:+ "' requires argument")
        | GetoptOption optionListIdx optarg => parseOption st optionListIdx optarg
        end;
  Ok (mkParseState (config st') (parseOptionList st') (commandSet st')
        (commandParamList st') true).

Fixpoint parseLoop (st : ParseState) (rs : list GetoptResult) : Result ParseState :=
  match rs with
  | [] => Ok st
  | r :: rs' => st' ← parseStep st r; parseLoop st' rs'
  end.

(** After the loop: command not found, and command parameters. *)
Definition parseEnd (st : ParseState) : Result Config :=
  cfg ← (if negb (commandSet st) && negb (help (config st)) then
           if argFound st then Throw CommandRequiredError "no command found"
           else Ok (cfgCommandHelpSet (config st) true)
         else Ok (config st));
  match commandParamList st with
  | Some params =>
      if negb (help cfg) && negb (cfgParameterAllowed def (command cfg)) then
        Throw ParamInvalidError "command does not allow parameters"
      else Ok (cfgCommandParamSet cfg params)
  | None => Ok cfg
  end.
End Phase1.

(** ** Effects outside the parser

    The logger, the storage and the process environment are used through the
    calls below; each call is recorded in the order it is made. *)

Inductive Event :=
  | EvLogInit
  | EvLogWarn (msg : string)
  | EvEnviron (environIdx : nat)
  | EvStorageGet (file : string) (ignoreMissing : bool)
  | EvStorageList (path : string) (errorOnMissing : bool).

Global Instance Event_eq_dec : EqDecision Event.
Proof. solve_decision. Defined.

(** The INI reader (common/ini.c) is used through four queries. *)
Record Ini := mkIni {
  iniSectionKeyList : string -> list string;
  iniSectionKeyIsList : string -> string -> bool;
  iniGet : string -> string -> string;
  iniGetList : string -> string -> list string;
}.

Record System := mkSystem {
  environ : list string;                        (* char **environ *)
  storageFile : string -> option string;        (* content of a file, if it exists *)
  storagePath : string -> option (list string); (* entries of a path, if it exists *)
  iniParse : string -> Result Ini;              (* iniNew() and iniParse() *)
}.

Definition M (A : Type) : Type := list Event -> Result A * list Event.

Global Instance M_bind : MBind M := fun A B k m log =>
  match m log with
  | (Ok a, log') => k a log'
  | (Throw e msg, log') => (Throw e msg, log')
  | (NullDeref, log') => (NullDeref, log')
  | (OutOfBounds, log') => (OutOfBounds, log')
  end.

Global Instance M_ret : MRet M := fun A a log => (Ok a, log).

Definition liftR {A} (r : Result A) : M A := fun log => (r, log).
Definition tell (ev : Event) : M unit := fun log => (Ok tt, log ++ [ev]).
Definition LOG_WARN (msg : string) : M unit := tell (EvLogWarn msg).

(** The events a computation adds, and its result, from an empty log. *)
Definition runM {A} (m : M A) : Result A * list Event := m [].

Section Storage.
Context (sys : System).

(** [storageGetP(storageNewReadP(storageLocal(), file, .ignoreMissing))] *)
Definition storageGetP (file : string) (ignoreMissing : bool) : M (option string) :=
  _ ← tell (EvStorageGet file ignoreMissing);
  match storageFile sys file with
  | Some content => mret (Some content)
  | None =>
      if ignoreMissing then mret None
      else liftR (Throw FileMissingError
                    ("unable to open missing file '" +:+ file +:+ "' for read"))
  end.

(** [storageListP()] with [.expression = ".+\\.conf$"], [.errorOnMissing]
    and [.nullOnMissing = !errorOnMissing]: the entries that have at least
    one character before a final ".conf". *)
Definition confExpression (entry : string) : bool :=
  strEndsWithZ entry ".conf" && (5 <? String.length entry).

Definition storageListP (path : string) (errorOnMissing : bool)
    : M (option (list string)) :=
  _ ← tell (EvStorageList path errorOnMissing);
  match storagePath sys path with
  | Some entries => mret (Some (filter (fun e => Is_true (confExpression e)) entries))
  | None =>
      if errorOnMissing then
        liftR (Throw PathMissingError
                 ("unable to list file info for missing path '" +:+ path +:+ "'"))
      else mret None
  end.
End Storage.

(** ** Load the configuration file(s) *)

Definition PGBACKREST_CONFIG_ORIG_PATH_FILE : string := "/etc/pgbackrest.conf".
Definition PGBACKREST_CONFIG_INCLUDE_PATH : string := "conf.d".
Definition LF_STR : string := String "010" "".

(** [strBaseZ]: the part of a path after the last '/'. *)
Definition strBaseZ (path : string) : string :=
  default "" (last (strLstNewSplitChr path "/")).

(** [strLstSort(list, sortOrderAsc)] *)
Definition strLstSort (l : list string) : list string :=
  merge_sort (fun a b => Is_true (String.leb a b)) l.

(** [optionList[id].indexList != NULL && optionList[id].indexList[0].found] and
    the same test on [negate]: the index list is read without
    [parseOptionIdxValue]. *)
Definition indexList0 (table : ParseOptionList) (optionId : nat)
    : option ParseOptionValue :=
  po ← table !! optionId; indexList po !! 0.

Definition indexList0Found (table : ParseOptionList) (optionId : nat) : bool :=
  from_option found false (indexList0 table optionId).

Definition indexList0Negate (table : ParseOptionList) (optionId : nat) : bool :=
  from_option negate false (indexList0 table optionId).

(** [strLstGet(optionList[id].indexList[0].valueList, 0)] *)
Definition indexList0Value (table : ParseOptionList) (optionId : nat) : Result string :=
  match indexList0 table optionId with
  | Some value =>
      match valueList value with
      | Some (v :: _) => Ok v
      | Some [] => Throw AssertError "cannot get index 0 from list with 0 value(s)"
      | None => NullDeref
      end
  | None => NullDeref
  end.

Section FileLoad.
Context (def : Define) (sys : System).

Definition cfgFileLoadPart (config : option string) (configPart : option string)
    : M (option string) :=
  match configPart with
  | Some configPartStr =>
      if 0 <? String.length configPartStr then
        _ ← liftR (iniParse sys configPartStr);
        (* The [else] takes the statement that adds the LF *)
        let config' :=
          match config with
          | None => ""
          | Some c => c +:+ LF_STR
          end in
        mret (Some (config' +:+ configPartStr))
      else mret config
  | None => mret config
  end.

(** The flags and names [cfgFileLoad] computes before it reads a file. *)
Record FileLoadPlan := mkFileLoadPlan {
  loadConfig : bool;
  loadConfigInclude : bool;
  configRequired : bool;
  configIncludeRequired : bool;
  optConfigDefaultCurrent : string;
  optConfigDefaultNew : string;
  optConfigIncludePathDefaultNew : string;
}.

Definition cfgFileLoadPlan (optionList : ParseOptionList)
    (optConfigDefault optConfigIncludePathDefault : string) : Result FileLoadPlan :=
  let configRequired := indexList0Found optionList (cfgOptConfig def) in
  let configPathRequired := indexList0Found optionList (cfgOptConfigPath def) in
  let configIncludeRequired :=
    indexList0Found optionList (cfgOptConfigIncludePath def) in
  let optConfigDefaultCurrent := optConfigDefault in
  '(optConfigDefault, optConfigIncludePathDefault) ←
    (if configPathRequired then
       configPath ← indexList0Value optionList (cfgOptConfigPath def);
       Ok (configPath +:+ "/" +:+ strBaseZ optConfigDefault,
           configPath +:+ "/" +:+ PGBACKREST_CONFIG_INCLUDE_PATH)
     else Ok (optConfigDefault, optConfigIncludePathDefault));
  let noConfig := indexList0Negate optionList (cfgOptConfig def) in
  let loadConfig := negb noConfig in
  let configRequired := if noConfig then false else configRequired in
  let noInclude :=
    configRequired && negb (configPathRequired || configIncludeRequired) in
  Ok (mkFileLoadPlan loadConfig (negb noInclude) configRequired
        (if noInclude then false else configIncludeRequired)
        optConfigDefaultCurrent optConfigDefault optConfigIncludePathDefault).

(** Load the main config file *)
Definition cfgFileLoadMain (optionList : ParseOptionList) (plan : FileLoadPlan)
    (origConfigDefault : string) : M (option string) :=
  if loadConfig plan then
    configFileName ←
      (if configRequired plan
       then liftR (indexList0Value optionList (cfgOptConfig def))
       else mret (optConfigDefaultNew plan));
    buffer ← storageGetP sys configFileName (negb (configRequired plan));
    match buffer with
    | Some content => mret (Some content)
    | None =>
        if String.eqb configFileName (optConfigDefaultCurrent plan) then
          storageGetP sys origConfigDefault (negb (configRequired plan))
        else mret None
    end
  else mret None.

Fixpoint cfgFileLoadParts (result : option string) (configIncludePath : string)
    (list : list string) : M (option string) :=
  match list with
  | [] => mret result
  | entry :: list' =>
      part ← storageGetP sys (configIncludePath +:+ "/" +:+ entry) true;
      result' ← cfgFileLoadPart result part;
      cfgFileLoadParts result' configIncludePath list'
  end.

(** Load *.conf files from the include directory *)
Definition cfgFileLoadInclude (optionList : ParseOptionList) (plan : FileLoadPlan)
    (result : option string) : M (option string) :=
  if loadConfigInclude plan then
    _ ← match result with
        | Some content => _ ← liftR (iniParse sys content); mret tt
        | None => mret tt
        end;
    configIncludePath ←
      (if configIncludeRequired plan
       then liftR (indexList0Value optionList (cfgOptConfigIncludePath def))
       else mret (optConfigIncludePathDefaultNew plan));
    list ← storageListP sys configIncludePath (configIncludeRequired plan);
    match list with
    | Some (entry :: entries) =>
        cfgFileLoadParts result configIncludePath (strLstSort (entry :: entries))
    | _ => mret result
    end
  else mret result.

Definition cfgFileLoad (optionList : ParseOptionList)
    (optConfigDefault optConfigIncludePathDefault origConfigDefault : string)
    : M (option string) :=
  plan ← liftR (cfgFileLoadPlan optionList optConfigDefault optConfigIncludePathDefault);
  result ← cfgFileLoadMain optionList plan origConfigDefault;
  cfgFileLoadInclude optionList plan result.
End FileLoad.

(** A [for] or [while] loop over a list that updates local variables. *)
Fixpoint forEach {A S} (body : S -> A -> M S) (s : S) (l : list A) : M S :=
  match l with
  | [] => mret s
  | a :: l' => s' ← body s a; forEach body s' l'
  end.

(** ** Find an option by name in the option list *)
Fixpoint optionFindFrom (list : list struct_option) (option : string) (findIdx : nat)
    : nat :=
  match list with
  | [] => findIdx
  | entry :: list' =>
      if String.eqb option (name entry) then findIdx
      else optionFindFrom list' option (S findIdx)
  end.

Definition optionFind (def : Define) (option : string) : nat :=
  optionFindFrom (optionList def) option 0.

Definition PGBACKREST_ENV : string := "PGBACKREST_".
Definition PGBACKREST_ENV_SIZE : nat := String.length PGBACKREST_ENV.
Definition CFGDEF_SECTION_GLOBAL : string := "global".

(** Writes through the pointer [optionValue]. *)
Definition setFound (v : ParseOptionValue) (b : bool) : ParseOptionValue :=
  mkParseOptionValue b (negate v) (reset v) (source v) (valueList v).
Definition setNegate (v : ParseOptionValue) (b : bool) : ParseOptionValue :=
  mkParseOptionValue (found v) b (reset v) (source v) (valueList v).
Definition setSource (v : ParseOptionValue) (s : ConfigSource) : ParseOptionValue :=
  mkParseOptionValue (found v) (negate v) (reset v) s (valueList v).
Definition setValueList (v : ParseOptionValue) (l : list string) : ParseOptionValue :=
  mkParseOptionValue (found v) (negate v) (reset v) (source v) (Some l).

Section Phase2.
Context (def : Define).

(** ** Phase 2: parse environment variables

    The body of the loop for one entry of [environ]. *)
Definition parseEnv (commandId : ConfigCommand) (table : ParseOptionList)
    (keyValue : string) : M ParseOptionList :=
  if String.prefix PGBACKREST_ENV keyValue then
    match String.index 0 "=" keyValue with
    | None => liftR (Throw AssertError "assertion 'equalPtr != NULL' failed")
    | Some equalPos =>
        let key :=
          strReplaceChr
            (strLower (String.substring PGBACKREST_ENV_SIZE
                         (equalPos - PGBACKREST_ENV_SIZE) keyValue)) "_" "-" in
        let value :=
          String.substring (S equalPos) (String.length keyValue - S equalPos)
            keyValue in
        let findIdx := optionFind def key in
        match optionList def !! findIdx with
        | None =>
            _ ← LOG_WARN ("environment contains invalid option '" +:+ key +:+ "'");
            mret table
        | Some entry =>
            if flagSet (val entry) PARSE_NEGATE_FLAG then
              _ ← LOG_WARN
                    ("environment contains invalid negate option '" +:+ key +:+ "'");
              mret table
            else if flagSet (val entry) PARSE_RESET_FLAG then
              _ ← LOG_WARN
                    ("environment contains invalid reset option '" +:+ key +:+ "'");
              mret table
            else
              let optionId := parseOptionId (val entry) in
              let optionIdx := parseOptionIdx (val entry) in
              if negb (cfgDefOptionValid def commandId optionId) then mret table
              else if String.length value =? 0 then
                liftR (Throw OptionInvalidValueError
                         ("environment variable '" +:+ key +:+ "' must have a value"))
              else
                match tableValue table optionId optionIdx with
                | None => liftR NullDeref
                | Some optionValue =>
                    if found optionValue then mret table
                    else
                      let optionValue :=
                        setSource (setFound optionValue true) cfgSourceConfig in
                      optionValue ←
                        (if decide (cfgDefOptionType def optionId = cfgDefOptTypeBoolean)
                         then
                           if String.eqb value "n" then
                             mret (setNegate optionValue true)
                           else if negb (String.eqb value "y") then
                             liftR (Throw OptionInvalidValueError
                                      ("environment boolean option '" +:+ key +:+
                                       "' must be 'y' or 'n'"))
                           else mret optionValue
                         else if cfgDefOptionMulti def optionId then
                           mret (setValueList optionValue (strLstNewSplitChr value ":"))
                         else mret (setValueList optionValue [value]));
                      mret (tableSet table optionId optionIdx optionValue)
                end
        end
    end
  else mret table.

(** The loop [while (environ[environIdx] != NULL)]: each read of
    [environ] is recorded, the last one finds NULL. *)
Fixpoint parseEnvLoop (commandId : ConfigCommand) (table : ParseOptionList)
    (environIdx : nat) (env : list string) : M ParseOptionList :=
  match env with
  | [] => _ ← tell (EvEnviron environIdx); mret table
  | keyValue :: env' =>
      _ ← tell (EvEnviron environIdx);
      table' ← parseEnv commandId table keyValue;
      parseEnvLoop commandId table' (S environIdx) env'
  end.
End Phase2.

Section Phase3.
Context (def : Define).

(** ** Phase 3: parse config file

    The body of the loop over the keys of a section.  [optionFound] maps
    the option ids found in the section to the key they were found with. *)
Definition parseKey (commandId : ConfigCommand) (config : Ini) (sectionIdx : nat)
    (section : string) (st : ParseOptionList * gmap nat string) (key : string)
    : M (ParseOptionList * gmap nat string) :=
  let '(table, optionFound) := st in
  let findIdx := optionFind def key in
  match optionList def !! findIdx with
  | None =>
      _ ← LOG_WARN ("configuration file contains invalid option '" +:+ key +:+ "'");
      mret st
  | Some entry =>
      if flagSet (val entry) PARSE_NEGATE_FLAG then
        _ ← LOG_WARN ("configuration file contains negate option '" +:+ key +:+ "'");
        mret st
      else if flagSet (val entry) PARSE_RESET_FLAG then
        _ ← LOG_WARN ("configuration file contains reset option '" +:+ key +:+ "'");
        mret st
      else
        let optionId := parseOptionId (val entry) in
        let optionIdx := parseOptionIdx (val entry) in
        if decide (cfgDefOptionSection def optionId = cfgDefSectionCommandLine) then
          _ ← LOG_WARN
                ("configuration file contains command-line only option '" +:+ key +:+ "'");
          mret st
        else
          match optionFound !! optionId with
          | Some optionFoundName =>
              liftR (Throw OptionInvalidError
                       ("configuration file contains duplicate options ('" +:+ key +:+
                        "', '" +:+ optionFoundName +:+ "') in section '[" +:+ section +:+
                        "]'"))
          | None =>
              let optionFound := <[optionId := key]> optionFound in
              if negb (cfgDefOptionValid def commandId optionId) then
                if sectionIdx mod 2 =? 0 then
                  _ ← LOG_WARN
                        ("configuration file contains option '" +:+ key +:+
                         "' invalid for section '" +:+ section +:+ "'");
                  mret (table, optionFound)
                else mret (table, optionFound)
              else if bool_decide (cfgDefOptionSection def optionId = cfgDefSectionStanza)
                      && strBeginsWithZ section CFGDEF_SECTION_GLOBAL then
                _ ← LOG_WARN
                      ("configuration file contains stanza-only option '" +:+ key +:+
                       "' in global section '" +:+ section +:+ "'");
                mret (table, optionFound)
              else
                match tableValue table optionId optionIdx with
                | None => liftR NullDeref
                | Some optionValue =>
                    if found optionValue then mret (table, optionFound)
                    else
                      let optionValue :=
                        setSource (setFound optionValue true) cfgSourceConfig in
                      optionValue ←
                        (if iniSectionKeyIsList config section key then
                           if negb (cfgDefOptionMulti def optionId) then
                             liftR (Throw OptionInvalidError
                                      ("option '" +:+
                                       cfgOptionIdxName def optionId optionIdx +:+
                                       "' cannot be set multiple times"))
                           else
                             mret (setValueList optionValue
                                     (iniGetList config section key))
                         else
                           let value := iniGet config section key in
                           if String.length value =? 0 then
                             liftR (Throw OptionInvalidValueError
                                      ("section '" +:+ section +:+ "', key '" +:+ key +:+
                                       "' must have a value"))
                           else if decide (cfgDefOptionType def optionId
                                           = cfgDefOptTypeBoolean) then
                             if String.eqb value "n" then
                               mret (setNegate optionValue true)
                             else if negb (String.eqb value "y") then
                               liftR (Throw OptionInvalidValueError
                                        ("boolean option '" +:+ key +:+
                                         "' must be 'y' or 'n'"))
                             else mret optionValue
                           else mret (setValueList optionValue [value]));
                      mret (tableSet table optionId optionIdx optionValue, optionFound)
                end
          end
  end.

(** The body of the loop over the sections. *)
Definition parseSection (commandId : ConfigCommand) (config : Ini)
    (st : ParseOptionList * nat) (section : string) : M (ParseOptionList * nat) :=
  let '(table, sectionIdx) := st in
  let keyList := iniSectionKeyList config section in
  '(table', _) ←
    forEach (parseKey commandId config sectionIdx section) (table, ∅) keyList;
  mret (table', S sectionIdx).

(** Build list of sections to search for options *)
Definition sectionList (commandId : ConfigCommand) (table : ParseOptionList)
    : Result (list string) :=
  stanza ←
    (if indexList0Found table (cfgOptStanza def)
     then stanza ← indexList0Value table (cfgOptStanza def); Ok (Some stanza)
     else Ok None);
  Ok (match stanza with
      | Some stanza => [stanza +:+ ":" +:+ cfgCommandName def commandId; stanza]
      | None => []
      end ++
      [CFGDEF_SECTION_GLOBAL +:+ ":" +:+ cfgCommandName def commandId;
       CFGDEF_SECTION_GLOBAL]).

Definition parseSections (commandId : ConfigCommand) (config : Ini)
    (table : ParseOptionList) (sections : list string) : M ParseOptionList :=
  '(table', _) ← forEach (parseSection commandId config) (table, 0) sections;
  mret table'.
End Phase3.

(** A loop over a list that updates local variables and may throw. *)
Fixpoint forEachR {A S} (body : S -> A -> Result S) (s : S) (l : list A) : Result S :=
  match l with
  | [] => Ok s
  | a :: l' => s' ← body s a; forEachR body s' l'
  end.

(** Read of an array element. *)
Definition arrayGet {A} (l : list A) (i : nat) : Result A :=
  match l !! i with
  | Some a => Ok a
  | None => OutOfBounds
  end.

(** Write of an array element. *)
Definition arraySet {A} (l : list A) (i : nat) (a : A) : Result (list A) :=
  if i <? length l then Ok (<[i := a]> l) else OutOfBounds.

Section Phase4.
Context (def : Define).

(** ** Phase 4: resolve indexed options for each group *)

(** The local variables of the first loop: [config->option],
    [config->optionGroup] and [groupIdxMap]. *)
Record GroupState := mkGroupState {
  gsOption : list ConfigOption;
  gsGroup : list ConfigOptionGroup;
  gsMap : list (list bool);
}.

Definition groupIdxMapInit : list (list bool) :=
  replicate (CFG_OPTION_GROUP_TOTAL def) (replicate (CFG_OPTION_INDEX_MAX def) false).

(** The body of the loop over [optionIdx < indexListTotal] of a grouped
    option. *)
Definition groupMark (parseOption : ParseOption) (groupId : nat)
    (st : list ConfigOptionGroup * list (list bool)) (optionIdx : nat)
    : Result (list ConfigOptionGroup * list (list bool)) :=
  let '(groups, map) := st in
  value ← arrayGet (indexList parseOption) optionIdx;
  if found value then
    row ← arrayGet map groupId;
    marked ← arrayGet row optionIdx;
    if negb marked then
      group ← arrayGet groups groupId;
      groups' ← arraySet groups groupId
                  (mkConfigOptionGroup (S (indexTotal group)) (groupIndex group));
      row' ← arraySet row optionIdx true;
      map' ← arraySet map groupId row';
      Ok (groups', map')
    else Ok st
  else Ok st.

(** The body of the loop over [optionId < CFG_OPTION_TOTAL]. *)
Definition groupOption (commandId : ConfigCommand) (table : ParseOptionList)
    (st : GroupState) (optionId : nat) : Result GroupState :=
  parseOption ← arrayGet table optionId;
  if cfgDefOptionValid def commandId optionId then
    configOption ← arrayGet (gsOption st) optionId;
    options ← arraySet (gsOption st) optionId
                (mkConfigOption true (index configOption)
                   (optionSource configOption) (optionValue configOption));
    if cfgOptionGroup def optionId then
      let groupId := cfgOptionGroupId def optionId in
      '(groups, map) ←
        forEachR (groupMark parseOption groupId) (gsGroup st, gsMap st)
          (seq 0 (indexListTotal parseOption));
      Ok (mkGroupState options groups map)
    else Ok (mkGroupState options (gsGroup st) (gsMap st))
  else if 0 <? indexListTotal parseOption then
    Throw OptionInvalidError
      ("option '" +:+ cfgOptionName def optionId +:+ "' not valid for command '" +:+
       cfgCommandName def commandId +:+ "'")
  else Ok st.

(** Write the indexes into the group in order: the body of the loop over
    [optionIdx < CFG_OPTION_INDEX_MAX], with [optionIdxMax]. *)
Definition groupWrite (row : list bool) (st : list nat * nat) (optionIdx : nat)
    : Result (list nat * nat) :=
  let '(indexes, optionIdxMax) := st in
  marked ← arrayGet row optionIdx;
  if (marked : bool) then
    indexes' ← arraySet indexes optionIdxMax optionIdx;
    Ok (indexes', S optionIdxMax)
  else Ok st.

Definition groupIndexes (map : list (list bool)) (groups : list ConfigOptionGroup)
    (groupId : nat) : Result (list ConfigOptionGroup) :=
  row ← arrayGet map groupId;
  group ← arrayGet groups groupId;
  '(indexes, _) ←
    forEachR (groupWrite row) (groupIndex group, 0) (seq 0 (CFG_OPTION_INDEX_MAX def));
  arraySet groups groupId (mkConfigOptionGroup (indexTotal group) indexes).

Definition parseGroups (commandId : ConfigCommand) (table : ParseOptionList)
    (cfg : Config) : Result Config :=
  st ← forEachR (groupOption commandId table)
         (mkGroupState (option_ cfg) (optionGroup cfg) groupIdxMapInit)
         (seq 0 (CFG_OPTION_TOTAL def));
  groups ← forEachR (groupIndexes (gsMap st)) (gsGroup st)
             (seq 0 (CFG_OPTION_GROUP_TOTAL def));
  Ok (cfgGroupsSet (cfgOptionsSet cfg (gsOption st)) groups).
End Phase4.

(** ** Regular expressions

    [regExpMatchOne] (common/regExp.c) matches a POSIX extended expression.
    The expressions of the parser are anchored with ^ and $; they are given
    by their syntax tree and matched against the whole string. *)

Inductive RegExp :=
  | ReNone                                  (* matches no string *)
  | ReEps                                   (* matches the empty string *)
  | ReChr (c : ascii)                       (* a literal character *)
  | ReRange (lo hi : ascii)                 (* a bracket range such as [0-9] *)
  | ReSeq (r1 r2 : RegExp)
  | ReAlt (r1 r2 : RegExp)
  | ReStar (r : RegExp).

Definition RePlus (r : RegExp) : RegExp := ReSeq r (ReStar r).

Definition chrInRange (lo hi c : ascii) : bool :=
  (nat_of_ascii lo <=? nat_of_ascii c) && (nat_of_ascii c <=? nat_of_ascii hi).

Fixpoint reNullable (r : RegExp) : bool :=
  match r with
  | ReNone => false
  | ReEps => true
  | ReChr _ => false
  | ReRange _ _ => false
  | ReSeq r1 r2 => reNullable r1 && reNullable r2
  | ReAlt r1 r2 => reNullable r1 || reNullable r2
  | ReStar _ => true
  end.

(** The expression that matches what is left after the character [c]. *)
Fixpoint reDerive (c : ascii) (r : RegExp) : RegExp :=
  match r with
  | ReNone => ReNone
  | ReEps => ReNone
  | ReChr c' => if Ascii.eqb c c' then ReEps else ReNone
  | ReRange lo hi => if chrInRange lo hi c then ReEps else ReNone
  | ReSeq r1 r2 =>
      if reNullable r1 then ReAlt (ReSeq (reDerive c r1) r2) (reDerive c r2)
      else ReSeq (reDerive c r1) r2
  | ReAlt r1 r2 => ReAlt (reDerive c r1) (reDerive c r2)
  | ReStar r' => ReSeq (reDerive c r') (ReStar r')
  end.

Fixpoint regExpMatchOne (expression : RegExp) (s : string) : bool :=
  match s with
  | EmptyString => reNullable expression
  | String c s' => regExpMatchOne (reDerive c expression) s'
  end.

Fixpoint reLiteral (s : string) : RegExp :=
  match s with
  | EmptyString => ReEps
  | String c s' => ReSeq (ReChr c) (reLiteral s')
  end.

(** "^[0-9]+(kb|k|mb|m|gb|g|tb|t|pb|p|b)*$" *)
Definition sizeQualifierRegExp : RegExp :=
  ReAlt (reLiteral "kb") (ReAlt (reLiteral "k") (ReAlt (reLiteral "mb")
  (ReAlt (reLiteral "m") (ReAlt (reLiteral "gb") (ReAlt (reLiteral "g")
  (ReAlt (reLiteral "tb") (ReAlt (reLiteral "t") (ReAlt (reLiteral "pb")
  (ReAlt (reLiteral "p") (reLiteral "b")))))))))).

Definition sizeRegExp : RegExp :=
  ReSeq (RePlus (ReRange "0" "9")) (ReStar sizeQualifierRegExp).

(** ** Numbers

    A C [double] is a binary64 float.  The conversion of an integer to
    [double], [(double)n], rounds to the nearest float. *)
Definition double := float.

Definition Z2double (n : Z) : double := SF2Prim (binary_normalize prec emax n 0 false).

(** The integer that a [double] holds, when it holds one. *)
Definition doubleInteger (d : double) : option Z :=
  match Prim2SF d with
  | S754_zero _ => Some 0%Z
  | S754_finite s m e =>
      let sign := fun z : Z => if s then (- z)%Z else z in
      if (0 <=? e)%Z then Some (sign (Z.pos m * 2 ^ e)%Z)
      else if (Z.pos m mod 2 ^ (- e) =? 0)%Z then Some (sign (Z.pos m / 2 ^ (- e))%Z)
      else None
  | _ => None
  end.

(** The conversions of common/type/variant.c and common/type/convert.c that
    the parser calls are outside it; the parser is stated over any such
    conversions. *)
Record Convert := mkConvert {
  varInt64Force : string -> Result Z;     (* varInt64Force(VARSTR(value)) *)
  varDblForce : string -> Result double;  (* varDblForce(VARSTR(value)) *)
  varStrForce : double -> string;         (* varStrForce(VARDBL(value)) *)
}.

(** *** The conversions, from the specification *)

Definition isDigit (c : ascii) : bool := chrInRange "0" "9" c.

Fixpoint allDigits (s : string) : bool :=
  match s with
  | EmptyString => true
  | String c s' => isDigit c && allDigits s'
  end.

(** The leading decimal digits of a string. *)
Fixpoint numericPart (s : string) : string :=
  match s with
  | EmptyString => EmptyString
  | String c s' => if isDigit c then String c (numericPart s') else EmptyString
  end.

(** The number that decimal digits write, after the digits [acc]. *)
Fixpoint decimalZ (s : string) (acc : Z) : Z :=
  match s with
  | EmptyString => acc
  | String c s' => decimalZ s' (10 * acc + Z.of_nat (nat_of_ascii c - 48))%Z
  end.

(** Modelled from the spec: the conversion of a string to a double
    (varDblForce of common/type/variant.c) is missing; the size parser is to
    "parse the numeric part as a double", so the conversion reads the leading
    decimal digits and rounds them to the nearest double, and a string that
    does not begin with a digit is an error. *)
Definition specDblForce (s : string) : Result double :=
  let numeric := numericPart s in
  if String.length numeric =? 0 then
    Throw FormatError ("unable to convert string '" +:+ s +:+ "' to double")
  else Ok (Z2double (decimalZ numeric 0)).

(** Modelled from the spec: the conversion of a string to an integer
    (varInt64Force of common/type/variant.c) is missing; an Integer is parsed
    "via 64-bit signed", so the conversion reads an optional sign and decimal
    digits, and a number outside the signed 64-bit range is an error. *)
Definition specInt64Force (s : string) : Result Z :=
  let notValid :=
    Throw FormatError ("unable to convert base 10 string '" +:+ s +:+ "' to int64") in
  let '(negative, digits) :=
    match s with
    | String "-" s' => (true, s')
    | _ => (false, s)
    end in
  if allDigits digits && negb (String.length digits =? 0) then
    let n := (if negative then - decimalZ digits 0 else decimalZ digits 0)%Z in
    if (- 2 ^ 63 <=? n)%Z && (n <? 2 ^ 63)%Z then Ok n else notValid
  else notValid.

(** Modelled from the spec: the conversion of a double to a string
    (varStrForce of common/type/variant.c) is missing; the size 2GB is to
    commit the value 2147483648, so a double that holds an integer is written
    with its decimal digits. *)
Definition specStrForce (d : double) : string :=
  let decimal := fun z : Z => NilZero.string_of_uint (N.to_uint (Z.to_N z)) in
  match Prim2SF d with
  | S754_zero _ => "0"
  | S754_infinity s => if s then "-inf" else "inf"
  | S754_nan => "nan"
  | S754_finite s m e =>
      (if s then "-" else "") +:+
      decimal (if (0 <=? e)%Z then Z.pos m * 2 ^ e else Z.pos m / 2 ^ (- e))%Z
  end.

Definition specConvert : Convert := mkConvert specInt64Force specDblForce specStrForce.

(** [varBool] and [varStr] assert the type of the variant. *)
Definition varBool (v : Variant) : Result bool :=
  match v with
  | VarBool b => Ok b
  | _ => Throw AssertError "assertion 'varType(this) == varTypeBool' failed"
  end.

Definition varStr (v : Variant) : Result string :=
  match v with
  | VarStr s => Ok s
  | _ => Throw AssertError "assertion 'varType(this) == varTypeString' failed"
  end.

(** ** Convert the value passed into bytes *)

Definition sizeQualifierToMultiplier (qualifier : ascii) : Result double :=
  if Ascii.eqb qualifier "b" then Ok (Z2double 1)
  else if Ascii.eqb qualifier "k" then Ok (Z2double 1024)
  else if Ascii.eqb qualifier "m" then Ok (Z2double (1024 * 1024))
  else if Ascii.eqb qualifier "g" then Ok (Z2double (1024 * 1024 * 1024))
  else if Ascii.eqb qualifier "t" then Ok (Z2double (1024 * 1024 * 1024 * 1024))
  else if Ascii.eqb qualifier "p" then
    Ok (Z2double (1024 * 1024 * 1024 * 1024 * 1024))
  else
    Throw AssertError ("'" +:+ String qualifier "' is not a valid size qualifier").

(** [strArray[size - back]]: the terminating NUL can be read, an index
    before the array (when [size < back]) cannot. *)
Definition strArrayBack (strArray : string) (size back : nat) : Result ascii :=
  if back <=? size then Ok (default "000"%char (String.get (size - back) strArray))
  else OutOfBounds.

(** [c <= '9'] *)
Definition chrLeNine (c : ascii) : bool := nat_of_ascii c <=? nat_of_ascii "9".

(** The position of the qualifier, [None] for [chrPos == -1]. *)
Definition sizeQualifierPos (strArray : string) : Result (option nat) :=
  let size := String.length strArray in
  last ← strArrayBack strArray size 1;
  if Ascii.eqb last "b" then
    previous ← strArrayBack strArray size 2;
    if chrLeNine previous then Ok (Some (size - 1)) else Ok (Some (size - 2))
  else if negb (chrLeNine last) then Ok (Some (size - 1))
  else Ok None.

Section ConvertToByte.
Context (cv : Convert).

(** The new [*value] and [*valueDbl]. *)
Definition convertToByte (value : string) : Result (string * double) :=
  let result := strLower value in
  if regExpMatchOne sizeRegExp result then
    chrPos ← sizeQualifierPos result;
    '(multiplier, result) ←
      match chrPos with
      | Some chrPos =>
          multiplier ←
            sizeQualifierToMultiplier (default "000"%char (String.get chrPos result));
          Ok (multiplier, strTrunc result chrPos)
      | None => Ok (Z2double 1, result)
      end;
    valueDbl ← varDblForce cv result;
    let newDbl := (valueDbl * multiplier)%float in
    Ok (varStrForce cv newDbl, newDbl)
  else
    Throw FormatError ("value '" +:+ value +:+ "' is not valid").
End ConvertToByte.

(** ** Reading and committing options (config/config.c) *)

(** [cfgOption(optionId)] *)
Definition cfgOption (cfg : Config) (optionId : nat) : option Variant :=
  configOption ← option_ cfg !! optionId; optionValue configOption.

Definition OPTION_VALUE_0 : string := "0".
Definition OPTION_VALUE_1 : string := "1".

(** [kvPut]: the value of an existing key is replaced. *)
Fixpoint kvPut (kv : list (string * string)) (key value : string)
    : list (string * string) :=
  match kv with
  | [] => [(key, value)]
  | (k, v) :: kv' =>
      if String.eqb k key then (k, value) :: kv' else (k, v) :: kvPut kv' key value
  end.

Section Phase5.
Context (def : Define) (cv : Convert).

(** [cfgOptionSet(optionId, source, value)] *)
Definition cfgOptionSet (cfg : Config) (optionId : nat) (source : ConfigSource)
    (value : option Variant) : Result Config :=
  configOption ← arrayGet (option_ cfg) optionId;
  stored ← match value with
           | Some v => v' ← cfgOptionSetValue def optionId v; Ok (Some v')
           | None => Ok None
           end;
  options ← arraySet (option_ cfg) optionId
              (mkConfigOption (valid configOption) (index configOption) source stored);
  Ok (cfgOptionsSet cfg options).

(** [configOptionValue->negate = ...; configOptionValue->reset = ...] *)
Definition cfgOptionFlagsSet (cfg : Config) (optionId optionIdx : nat)
    (negateFlag resetFlag : bool) : Result Config :=
  configOption ← arrayGet (option_ cfg) optionId;
  options ← arraySet (option_ cfg) optionId
              (mkConfigOption (valid configOption)
                 (<[optionIdx := mkConfigOptionValue negateFlag resetFlag]>
                    (index configOption))
                 (optionSource configOption) (optionValue configOption));
  Ok (cfgOptionsSet cfg options).

(** ** Phase 5: validate option definitions and load into configuration *)

(** Build the list of possible depend values: the body of the loop over
    [listIdx < cfgDefOptionDependValueTotal()], with [dependOptionName] and
    [dependValueList]. *)
Definition dependValueItem (commandId : ConfigCommand) (optionId dependOptionId : nat)
    (st : string * list string) (listIdx : nat) : Result (string * list string) :=
  let '(dependOptionName, dependValueList) := st in
  let dependValue := cfgDefOptionDependValue def commandId optionId listIdx in
  let dependOptionDefType := cfgDefOptionType def dependOptionId in
  if decide (dependOptionDefType = cfgDefOptTypeBoolean) then
    if String.eqb dependValue "0"
    then Ok ("no-" +:+ cfgOptionName def dependOptionId, dependValueList)
    else Ok st
  else
    _ ← ASSERT (bool_decide (dependOptionDefType = cfgDefOptTypePath)
                || bool_decide (dependOptionDefType = cfgDefOptTypeString));
    Ok (dependOptionName, dependValueList ++ ["'" +:+ dependValue +:+ "'"]).

(** The message thrown when the depend value is not in the depend list. *)
Definition dependError (commandId : ConfigCommand) (optionId dependOptionId : nat)
    : Result string :=
  '(dependOptionName, dependValueList) ←
    forEachR (dependValueItem commandId optionId dependOptionId)
      (cfgOptionName def dependOptionId, [])
      (seq 0 (cfgDefOptionDependValueTotal def commandId optionId));
  let errorValue :=
    match dependValueList with
    | [] => ""
    | [v] => " = " +:+ v
    | _ => " in (" +:+ strLstJoin dependValueList ", " +:+ ")"
    end in
  Ok ("option '" +:+ cfgOptionName def optionId +:+ "' not valid without option '" +:+
      dependOptionName +:+ "'" +:+ errorValue).

(** Check option dependencies: the value of [dependResolved]. *)
Definition dependCheck (commandId : ConfigCommand) (cfg : Config) (optionId : nat)
    (optionSet : bool) (parseOptionValue : ParseOptionValue) : Result bool :=
  if cfgDefOptionDepend def commandId optionId then
    let dependOptionId := cfgDefOptionDependOption def commandId optionId in
    let dependOptionDefType := cfgDefOptionType def dependOptionId in
    dependValue ←
      match cfgOption cfg dependOptionId with
      | Some v =>
          if decide (dependOptionDefType = cfgDefOptTypeBoolean) then
            b ← varBool v;
            Ok (Some (VarStr (if b : bool then OPTION_VALUE_1 else OPTION_VALUE_0)))
          else Ok (Some v)
      | None => Ok None
      end;
    match dependValue with
    | None =>
        if optionSet && bool_decide (source parseOptionValue = cfgSourceParam) then
          Throw OptionInvalidError
            ("option '" +:+ cfgOptionName def optionId +:+
             "' not valid without option '" +:+ cfgOptionName def dependOptionId +:+ "'")
        else Ok false
    | Some dependValue =>
        if 0 <? cfgDefOptionDependValueTotal def commandId optionId then
          dependStr ← varStr dependValue;
          let dependResolved :=
            cfgDefOptionDependValueValid def commandId optionId dependStr in
          if negb dependResolved && optionSet
             && bool_decide (source parseOptionValue = cfgSourceParam) then
            msg ← dependError commandId optionId dependOptionId;
            Throw OptionInvalidError msg
          else Ok dependResolved
        else Ok true
    end
  else Ok true.

(** The key/value pairs of a hash option. *)
Definition hashPair (optionId : nat) (kv : list (string * string)) (pair : string)
    : Result (list (string * string)) :=
  match String.index 0 "=" pair with
  | None =>
      Throw OptionInvalidError
        ("key/value '" +:+ pair +:+ "' not valid for '" +:+ cfgOptionName def optionId +:+
         "' option")
  | Some equal =>
      Ok (kvPut kv (String.substring 0 equal pair)
            (String.substring (S equal) (String.length pair - S equal) pair))
  end.

(** Check that the value can be converted: the body of [TRY_BEGIN()], with
    the new [value] and [valueDbl]. *)
Definition numericValue (optionDefType : ConfigDefineOptionType) (value : string)
    : Result (string * double) :=
  if decide (optionDefType = cfgDefOptTypeInteger) then
    n ← varInt64Force cv value; Ok (value, Z2double n)
  else if decide (optionDefType = cfgDefOptTypeSize) then convertToByte cv value
  else valueDbl ← varDblForce cv value; Ok (value, valueDbl).

(** Check value range *)
Definition outOfRange (commandId : ConfigCommand) (optionId : nat) (valueDbl : double)
    : bool :=
  cfgDefOptionAllowRange def commandId optionId
  && ((valueDbl <? cfgDefOptionAllowRangeMin def commandId optionId)%float
      || (cfgDefOptionAllowRangeMax def commandId optionId <? valueDbl)%float).

(** If a numeric type check that the value is valid: the new [value]. *)
Definition checkNumeric (commandId : ConfigCommand) (optionId : nat)
    (optionDefType : ConfigDefineOptionType) (value : string) : Result string :=
  match numericValue optionDefType value with
  | Throw _ _ =>
      (* CATCH_ANY() *)
      Throw OptionInvalidValueError
        ("'" +:+ value +:+ "' is not valid for '" +:+ cfgOptionName def optionId +:+
         "' option")
  | NullDeref => NullDeref
  | OutOfBounds => OutOfBounds
  | Ok (value, valueDbl) =>
      if outOfRange commandId optionId valueDbl then
        Throw OptionInvalidValueError
          ("'" +:+ value +:+ "' is out of range for '" +:+
           cfgOptionName def optionId +:+ "' option")
      else Ok value
  end.

(** Else if path make sure it is valid: the new [value]. *)
Definition checkPath (optionId : nat) (value : string) : Result string :=
  if String.length value =? 0 then
    Throw OptionInvalidValueError
      ("'" +:+ value +:+ "' must be >= 1 character for '" +:+
       cfgOptionName def optionId +:+ "' option")
  else if negb (strBeginsWithZ value "/") then
    Throw OptionInvalidValueError
      ("'" +:+ value +:+ "' must begin with / for '" +:+ cfgOptionName def optionId +:+
       "' option")
  else if strContainsZ value "//" then
    Throw OptionInvalidValueError
      ("'" +:+ value +:+ "' cannot contain // for '" +:+ cfgOptionName def optionId +:+
       "' option")
  else if strEndsWithZ value "/" && negb (String.length value =? 1) then
    Ok (strTrunc value (String.length value - 1))
  else Ok value.

(** The last branch of the option types: Integer, Float, Size, Path and
    String. *)
Definition resolveScalar (commandId : ConfigCommand) (cfg : Config) (optionId : nat)
    (optionDefType : ConfigDefineOptionType) (parseOptionValue : ParseOptionValue)
    : Result Config :=
  values ← match valueList parseOptionValue with
           | Some values => Ok values
           | None => NullDeref
           end;
  value ← match values with
          | v :: _ => Ok v
          | [] => Throw AssertError "cannot get index 0 from list with 0 value(s)"
          end;
  value ←
    (if bool_decide (optionDefType = cfgDefOptTypeInteger)
        || bool_decide (optionDefType = cfgDefOptTypeFloat)
        || bool_decide (optionDefType = cfgDefOptTypeSize)
     then checkNumeric commandId optionId optionDefType value
     else if decide (optionDefType = cfgDefOptTypePath) then checkPath optionId value
     else Ok value);
  if cfgDefOptionAllowList def commandId optionId
     && negb (cfgDefOptionAllowListValueValid def commandId optionId value) then
    Throw OptionInvalidValueError
      ("'" +:+ value +:+ "' is not allowed for '" +:+ cfgOptionName def optionId +:+
       "' option")
  else cfgOptionSet cfg optionId (source parseOptionValue) (Some (VarStr value)).

(** Is the option set? *)
Definition resolveSet (commandId : ConfigCommand) (cfg : Config) (optionId : nat)
    (optionDefType : ConfigDefineOptionType) (parseOptionValue : ParseOptionValue)
    : Result Config :=
  if decide (optionDefType = cfgDefOptTypeBoolean) then
    cfgOptionSet cfg optionId (source parseOptionValue)
      (Some (VarBool (negb (negate parseOptionValue))))
  else if decide (optionDefType = cfgDefOptTypeHash) then
    values ← match valueList parseOptionValue with
             | Some values => Ok values
             | None => NullDeref
             end;
    kv ← forEachR (hashPair optionId) [] values;
    cfgOptionSet cfg optionId (source parseOptionValue) (Some (VarKv kv))
  else if decide (optionDefType = cfgDefOptTypeList) then
    values ← match valueList parseOptionValue with
             | Some values => Ok values
             | None => NullDeref
             end;
    cfgOptionSet cfg optionId (source parseOptionValue) (Some (VarLst values))
  else resolveScalar commandId cfg optionId optionDefType parseOptionValue.

(** The option is resolved but not set. *)
Definition resolveUnset (commandId : ConfigCommand) (cfg : Config) (optionId : nat)
    (parseOptionValue : ParseOptionValue) : Result Config :=
  if negate parseOptionValue then
    cfgOptionSet cfg optionId (source parseOptionValue) None
  else
    match cfgDefOptionDefault def commandId optionId with
    | Some value => cfgOptionSet cfg optionId cfgSourceDefault (Some (VarStr value))
    | None =>
        if cfgDefOptionRequired def commandId optionId && negb (help cfg) then
          let hint :=
            if decide (cfgDefOptionSection def optionId = cfgDefSectionStanza)
            then String "010" "HINT: does this stanza exist?" else "" in
          Throw OptionRequiredError
            (cfgCommandName def (command cfg) +:+ " command requires option: " +:+
             cfgOptionName def optionId +:+ hint)
        else Ok cfg
    end.

(** The body of the loop over [optionIdx < optionIndexTotal]. *)
Definition resolveIndex (commandId : ConfigCommand) (table : ParseOptionList)
    (optionId : nat) (cfg : Config) (optionIdx : nat) : Result Config :=
  let optionGroup_ := cfgOptionGroup def optionId in
  parseOption ← arrayGet table optionId;
  let optionDefType := cfgDefOptionType def optionId in
  rawIdx ←
    (if optionGroup_ then
       group ← arrayGet (optionGroup cfg) (cfgOptionGroupId def optionId);
       arrayGet (groupIndex group) optionIdx
     else Ok 0);
  match parseOptionIdxValue parseOption rawIdx with
  | None => NullDeref
  | Some parseOptionValue =>
      let optionSet :=
        found parseOptionValue
        && (bool_decide (optionDefType = cfgDefOptTypeBoolean)
            || negb (negate parseOptionValue))
        && negb (reset parseOptionValue) in
      cfg ← cfgOptionFlagsSet cfg optionId optionIdx (negate parseOptionValue)
              (reset parseOptionValue);
      dependResolved ← dependCheck commandId cfg optionId optionSet parseOptionValue;
      if dependResolved : bool then
        if optionSet then resolveSet commandId cfg optionId optionDefType parseOptionValue
        else resolveUnset commandId cfg optionId parseOptionValue
      else Ok cfg
  end.

(** The body of the loop over [optionOrderIdx < CFG_OPTION_TOTAL]. *)
Definition resolveOption (commandId : ConfigCommand) (table : ParseOptionList)
    (cfg : Config) (optionOrderIdx : nat) : Result Config :=
  optionId ← arrayGet (optionResolveOrder def) optionOrderIdx;
  configOption ← arrayGet (option_ cfg) optionId;
  if negb (valid configOption) then Ok cfg
  else
    optionIndexTotal ←
      (if cfgOptionGroup def optionId then
         group ← arrayGet (optionGroup cfg) (cfgOptionGroupId def optionId);
         Ok (indexTotal group)
       else Ok 1);
    forEachR (resolveIndex commandId table optionId) cfg (seq 0 optionIndexTotal).

Definition resolveOptions (commandId : ConfigCommand) (table : ParseOptionList)
    (cfg : Config) : Result Config :=
  forEachR (resolveOption commandId table) cfg (seq 0 (CFG_OPTION_TOTAL def)).
End Phase5.

(** The raw index of an external index of an option. *)
Definition optionRawIdx (def : Define) (cfg : Config) (optionId optionIdx : nat)
    : Result nat :=
  if cfgOptionGroup def optionId then
    group ← arrayGet (optionGroup cfg) (cfgOptionGroupId def optionId);
    arrayGet (groupIndex group) optionIdx
  else Ok 0.

(** Is the value set for this option? *)
Definition optionIsSet (def : Define) (optionId : nat) (value : ParseOptionValue) : bool :=
  found value
  && (bool_decide (cfgDefOptionType def optionId = cfgDefOptTypeBoolean)
      || negb (negate value))
  && negb (reset value).

(** The depend values in quotes, as the error lists them. *)
Definition dependValuesQuoted (def : Define) (commandId : ConfigCommand)
    (optionId : nat) (listIdxs : list nat) : list string :=
  map (fun listIdx => "'" +:+ cfgDefOptionDependValue def commandId optionId listIdx +:+ "'")
    listIdxs.

(** *** The size parser, from the specification *)

Definition isQualifier (c : ascii) : bool :=
  existsb (Ascii.eqb c) ["k"; "m"; "g"; "t"; "p"; "b"]%char.

(** Multipliers: b=1, k=2^10, m=2^20, g=2^30, t=2^40, p=2^50. *)
Definition sizeMultiplier (unit : ascii) : option Z :=
  if Ascii.eqb unit "b" then Some 1%Z
  else if Ascii.eqb unit "k" then Some (2 ^ 10)%Z
  else if Ascii.eqb unit "m" then Some (2 ^ 20)%Z
  else if Ascii.eqb unit "g" then Some (2 ^ 30)%Z
  else if Ascii.eqb unit "t" then Some (2 ^ 40)%Z
  else if Ascii.eqb unit "p" then Some (2 ^ 50)%Z
  else None.

(** Choose the qualifier character, with its position: if the last character
    is b and the preceding character is a digit the unit is b; if the last
    character is b and the preceding is a letter the unit is that letter; if
    the last character is a non-digit the unit is that character. *)
Definition specSizeQualifier (s : string) : option (nat * ascii) :=
  let size := String.length s in
  match String.get (size - 1) s with
  | Some last =>
      if Ascii.eqb last "b" then
        match String.get (size - 2) s with
        | Some preceding =>
            if isDigit preceding then Some (size - 1, last)
            else Some (size - 2, preceding)
        | None => None
        end
      else if isDigit last then None
      else Some (size - 1, last)
  | None => None
  end.

(** The size parser as the specification words it: accept the values that
    match the expression, truncate the unit suffix, parse the numeric part as
    a double and multiply; any other value is a FormatError. *)
Definition specSize (cv : Convert) (value : string) : Result double :=
  let notValid := Throw FormatError ("value '" +:+ value +:+ "' is not valid") in
  let s := strLower value in
  if regExpMatchOne sizeRegExp s then
    match specSizeQualifier s with
    | Some (position, unit) =>
        match sizeMultiplier unit with
        | Some multiplier =>
            numeric ← varDblForce cv (strTrunc s position);
            Ok (numeric * Z2double multiplier)%float
        | None => notValid
        end
    | None => varDblForce cv s
    end
  else notValid.

(** Every character of a string passes a test. *)
Fixpoint allChars (test : ascii -> bool) (s : string) : bool :=
  match s with
  | EmptyString => true
  | String c s' => test c && allChars test s'
  end.

(** The characters of a size: digits and qualifiers. *)
Definition sizeChar (c : ascii) : bool := isDigit c || isQualifier c.

(** *** The indexes of a group *)

(** Was the option found at a raw index? *)
Definition foundAt (table : ParseOptionList) (optionId optionIdx : nat) : bool :=
  from_option found false (tableValue table optionId optionIdx).

(** Is the option a member of the group that is valid for the command and
    was found at the raw index? *)
Definition groupMember (def : Define) (commandId : ConfigCommand)
    (table : ParseOptionList) (groupId optionIdx optionId : nat) : bool :=
  cfgDefOptionValid def commandId optionId && cfgOptionGroup def optionId
  && (cfgOptionGroupId def optionId =? groupId) && foundAt table optionId optionIdx.

(** Was a member among the first [n] options found at the raw index? *)
Definition groupMarked (def : Define) (commandId : ConfigCommand)
    (table : ParseOptionList) (n groupId optionIdx : nat) : bool :=
  existsb (groupMember def commandId table groupId optionIdx) (seq 0 n).

(** The raw indexes of a group at which a member was found, ascending. *)
Definition groupRaw (def : Define) (commandId : ConfigCommand)
    (table : ParseOptionList) (groupId : nat) : list nat :=
  List.filter (groupMarked def commandId table (CFG_OPTION_TOTAL def) groupId)
    (seq 0 (CFG_OPTION_INDEX_MAX def)).

(** The arrays of Phase 4 have the sizes of their declarations: the table
    has CFG_OPTION_TOTAL entries whose index lists hold at least
    [indexListTotal] and at most CFG_OPTION_INDEX_MAX values, the group of an
    option is below CFG_OPTION_GROUP_TOTAL, and the configuration is the one
    of [cfgInit]. *)
Definition groupsWf (def : Define) (table : ParseOptionList) (cfg : Config) : bool :=
  (length table =? CFG_OPTION_TOTAL def)
  && forallb (fun parseOption =>
                (indexListTotal parseOption <=? length (indexList parseOption))
                && (indexListTotal parseOption <=? CFG_OPTION_INDEX_MAX def)) table
  && forallb (fun optionId =>
                implb (cfgOptionGroup def optionId)
                  (cfgOptionGroupId def optionId <? CFG_OPTION_GROUP_TOTAL def))
       (seq 0 (CFG_OPTION_TOTAL def))
  && (length (option_ cfg) =? CFG_OPTION_TOTAL def)
  && bool_decide (optionGroup cfg
                  = replicate (CFG_OPTION_GROUP_TOTAL def) (configGroupZero def)).

(** Is the option not valid for the command while its index list holds a
    value? *)
Definition invalidSet (def : Define) (commandId : ConfigCommand)
    (table : ParseOptionList) (optionId : nat) : bool :=
  negb (cfgDefOptionValid def commandId optionId)
  && (0 <? from_option indexListTotal 0 (table !! optionId)).

(** The number of marked entries of a row of [groupIdxMap]. *)
Fixpoint countTrue (row : list bool) : nat :=
  match row with
  | [] => 0
  | b :: row' => (if b then 1 else 0) + countTrue row'
  end.

(** The check of a record that Phases 1 to 3 keep true: a modifier is only
    on a record that was found, a record is not both negated and reset, and an
    option that is not a boolean is only negated on the command line. *)
Definition valueOk (def : Define) (optionId : nat) (value : ParseOptionValue) : bool :=
  implb (negate value || reset value) (found value)
  && negb (negate value && reset value)
  && implb (negate value
            && negb (bool_decide (cfgDefOptionType def optionId = cfgDefOptTypeBoolean)))
       (bool_decide (source value = cfgSourceParam)).

(** ** configParse *)

Section ConfigParse.
Context (def : Define) (cv : Convert) (sys : System).

(** [STR(cfgDefOptionDefault(commandId, optionId))] *)
Definition optionDefaultStr (commandId : ConfigCommand) (optionId : nat)
    : Result string :=
  match cfgDefOptionDefault def commandId optionId with
  | Some value => Ok value
  | None => NullDeref
  end.

(** Phase 3, after the files were loaded. *)
Definition parseConfigString (commandId : ConfigCommand) (table : ParseOptionList)
    (configString : option string) : M ParseOptionList :=
  match configString with
  | Some content =>
      config ← liftR (iniParse sys content);
      sections ← liftR (sectionList def commandId table);
      parseSections def commandId config table sections
  | None => mret table
  end.

(** Phases 2 to 5, for the command found in Phase 1. *)
Definition parseCommand (table : ParseOptionList) (cfg : Config) : M Config :=
  let commandId := command cfg in
  table ← parseEnvLoop def commandId table 0 (environ sys);
  optConfigDefault ← liftR (optionDefaultStr commandId (cfgOptConfig def));
  optConfigIncludePathDefault ←
    liftR (optionDefaultStr commandId (cfgOptConfigIncludePath def));
  configString ←
    cfgFileLoad def sys table optConfigDefault optConfigIncludePathDefault
      PGBACKREST_CONFIG_ORIG_PATH_FILE;
  table ← parseConfigString commandId table configString;
  cfg ← liftR (parseGroups def commandId table cfg);
  liftR (resolveOptions def cv commandId table cfg).

(** Only continue if command options need to be validated. *)
Definition commandNeedsOptions (commandId : ConfigCommand) : bool :=
  bool_decide (commandId ≠ cfgCmdNone) && bool_decide (commandId ≠ cfgCmdVersion)
  && bool_decide (commandId ≠ cfgCmdHelp).

(** [argList[0]] is [exePath]; [args] are the results of [getopt_long] on
    the rest of [argList]. *)
Definition configParse (exePath : string) (args : list GetoptResult)
    (resetLogLevel : bool) : M Config :=
  st ← liftR (parseLoop def (parseStateInit def exePath) args);
  cfg ← liftR (parseEnd def st);
  _ ← (if bool_decide (commandRole cfg ≠ cfgCmdRoleLocal)
          && bool_decide (commandRole cfg ≠ cfgCmdRoleRemote) && resetLogLevel
       then tell EvLogInit else mret tt);
  if commandNeedsOptions (command cfg) then parseCommand (parseOptionList st) cfg
  else mret cfg.
End ConfigParse.

(** * Predicates of the statements *)

(** How an option is used by a token or by its record: the flags exclude
    each other, so it is set, negated or reset. *)
Inductive OptionUse := UseSet | UseNegate | UseReset.

Definition optionUse (negateFlag resetFlag : bool) : OptionUse :=
  if negateFlag then UseNegate else if resetFlag then UseReset else UseSet.

(** Every record that was found in [table] is the same in [table']. *)
Definition tableKeeps (table table' : ParseOptionList) : Prop :=
  forall optionId optionIdx value,
    tableValue table optionId optionIdx = Some value ->
    found value = true ->
    tableValue table' optionId optionIdx = Some value.

(** What Phases 1 to 3 keep true of each record: a modifier is only on a
    record that was found, a record is not both negated and reset, and an
    option that is not a boolean is only negated on the command line. *)
Definition valueInv (def : Define) (optionId : nat) (value : ParseOptionValue) : Prop :=
  (negate value || reset value = true -> found value = true)
  /\ negate value && reset value = false
  /\ (negate value = true -> cfgDefOptionType def optionId <> cfgDefOptTypeBoolean ->
      source value = cfgSourceParam).

Definition tableInv (def : Define) (table : ParseOptionList) : Prop :=
  forall optionId optionIdx value,
    tableValue table optionId optionIdx = Some value -> valueInv def optionId value.

(** No name of the option list is both a negate and a reset name. *)
Definition optionListFlags (def : Define) : Prop :=
  forall optionListIdx entry,
    optionList def !! optionListIdx = Some entry ->
    flagSet (val entry) PARSE_NEGATE_FLAG && flagSet (val entry) PARSE_RESET_FLAG = false.

(** Phase 1 commits no option: it sets the command, the role, the help flag
    and the command parameters. *)
Definition sameOptions (cfg cfg' : Config) : Prop :=
  option_ cfg' = option_ cfg /\ optionGroup cfg' = optionGroup cfg.

Section GroupInvariants.
Context (def : Define).

(** [config->optionGroup] and [groupIdxMap] while the options are searched:
    each row holds [F], and the total of a group counts the marks of its
    row. *)
Definition groupsInv (F : nat -> nat -> bool)
    (st : list ConfigOptionGroup * list (list bool)) : Prop :=
  length st.1 = CFG_OPTION_GROUP_TOTAL def
  /\ length st.2 = CFG_OPTION_GROUP_TOTAL def
  /\ forall groupId, groupId < CFG_OPTION_GROUP_TOTAL def ->
       exists group row,
         st.1 !! groupId = Some group /\ st.2 !! groupId = Some row
         /\ length row = CFG_OPTION_INDEX_MAX def
         /\ length (groupIndex group) = CFG_OPTION_INDEX_MAX def
         /\ indexTotal group = countTrue row
         /\ forall optionIdx, optionIdx < CFG_OPTION_INDEX_MAX def ->
              row !! optionIdx = Some (F groupId optionIdx).

(** The first loop of Phase 4 after [n] options. *)
Definition groupStateInv (commandId : ConfigCommand) (table : ParseOptionList)
    (n : nat) (st : GroupState) : Prop :=
  length (gsOption st) = CFG_OPTION_TOTAL def
  /\ groupsInv (groupMarked def commandId table n) (gsGroup st, gsMap st).

End GroupInvariants.

(** The strings of an expression. *)
Inductive reMatches : RegExp -> string -> Prop :=
  | reMatchesEps : reMatches ReEps ""
  | reMatchesChr c : reMatches (ReChr c) (String c "")
  | reMatchesRange lo hi c :
      chrInRange lo hi c = true -> reMatches (ReRange lo hi) (String c "")
  | reMatchesSeq r1 r2 s1 s2 :
      reMatches r1 s1 -> reMatches r2 s2 -> reMatches (ReSeq r1 r2) (s1 +:+ s2)
  | reMatchesAltL r1 r2 s : reMatches r1 s -> reMatches (ReAlt r1 r2) s
  | reMatchesAltR r1 r2 s : reMatches r2 s -> reMatches (ReAlt r1 r2) s
  | reMatchesStarNil r : reMatches (ReStar r) ""
  | reMatchesStarApp r s1 s2 :
      reMatches r s1 -> reMatches (ReStar r) s2 -> reMatches (ReStar r) (s1 +:+ s2).

(** ** Predicates of the statements about the phases *)

(** What Phase 2 or Phase 3 writes to a record that was not found. *)
Definition staged (def : Define) (optionId : nat) (value value' : ParseOptionValue)
    : Prop :=
  found value' = true
  /\ source value' = cfgSourceConfig
  /\ reset value' = reset value
  /\ (negate value' = negate value
      \/ (cfgDefOptionType def optionId = cfgDefOptTypeBoolean /\ negate value' = true)).

(** Every record of [table] is a record of [table']: the same one, or one
    that was not found and was written by Phase 2 or Phase 3. *)
Definition tableStages (def : Define) (table table' : ParseOptionList) : Prop :=
  forall optionId optionIdx value,
    tableValue table optionId optionIdx = Some value ->
    exists value',
      tableValue table' optionId optionIdx = Some value'
      /\ (value' = value \/ (found value = false /\ staged def optionId value value')).

(** The sizes of the index lists of a table. *)
Definition tableShape (table : ParseOptionList) : list (nat * nat * nat) :=
  map (fun parseOption =>
         (indexListAlloc parseOption, indexListTotal parseOption,
          length (indexList parseOption)))
    table.

(** The fields of the configuration that Phase 5 does not write. *)
Definition sameCommand (cfg cfg' : Config) : Prop :=
  command cfg' = command cfg /\ help cfg' = help cfg
  /\ optionGroup cfg' = optionGroup cfg.
(** ** A small option table and system

    A table in the shape of the generated ones, with a few of pgBackRest's
    options and commands, on which the definitions can be run. *)

Module Sample.
Definition cmdBackup : ConfigCommand := cfgCmd 0.
Definition cmdArchivePush : ConfigCommand := cfgCmd 1.

Definition optConfig := 0.
Definition optConfigIncludePath := 1.
Definition optConfigPath := 2.
Definition optStanza := 3.
Definition optCompress := 4.
Definition optPgPath := 5.
Definition optDbInclude := 6.
Definition optArchiveAsync := 7.
Definition optSpoolPath := 8.
Definition optProcessMax := 9.
Definition optBufferSize := 10.
Definition optRepoCipherPass := 11.
Definition optRepoType := 12.
Definition optRepoS3Bucket := 13.
Definition optRecoveryOption := 14.

(** The code of an option name: flag, modifiers, index and option id. *)
Definition optVal (optionId optionIdx : nat) (negateFlag resetFlag : bool) : Z :=
  Z.lor PARSE_OPTION_FLAG
    (Z.lor (if negateFlag then PARSE_NEGATE_FLAG else 0%Z)
       (Z.lor (if resetFlag then PARSE_RESET_FLAG else 0%Z)
          (Z.lor (Z.shiftl (Z.of_nat optionIdx) PARSE_INDEX_SHIFT)
             (Z.of_nat optionId)))).

Definition options : list struct_option :=
  [ mkOption "config" required_argument (optVal optConfig 0 false false);
    mkOption "no-config" no_argument (optVal optConfig 0 true false);
    mkOption "config-include-path" required_argument
      (optVal optConfigIncludePath 0 false false);
    mkOption "config-path" required_argument (optVal optConfigPath 0 false false);
    mkOption "stanza" required_argument (optVal optStanza 0 false false);
    mkOption "compress" no_argument (optVal optCompress 0 false false);
    mkOption "no-compress" no_argument (optVal optCompress 0 true false);
    mkOption "reset-compress" no_argument (optVal optCompress 0 false true);
    mkOption "pg1-path" required_argument (optVal optPgPath 1 false false);
    mkOption "pg2-path" required_argument (optVal optPgPath 2 false false);
    mkOption "pg3-path" required_argument (optVal optPgPath 3 false false);
    mkOption "db-include" required_argument (optVal optDbInclude 0 false false);
    mkOption "archive-async" no_argument (optVal optArchiveAsync 0 false false);
    mkOption "no-archive-async" no_argument (optVal optArchiveAsync 0 true false);
    mkOption "spool-path" required_argument (optVal optSpoolPath 0 false false);
    mkOption "process-max" required_argument (optVal optProcessMax 0 false false);
    mkOption "buffer-size" required_argument (optVal optBufferSize 0 false false);
    mkOption "repo-cipher-pass" required_argument
      (optVal optRepoCipherPass 0 false false);
    mkOption "repo-type" required_argument (optVal optRepoType 0 false false);
    mkOption "repo-s3-bucket" required_argument (optVal optRepoS3Bucket 0 false false);
    mkOption "recovery-option" required_argument
      (optVal optRecoveryOption 0 false false) ].

Definition optionName (optionId : nat) : string :=
  nth optionId
    ["config"; "config-include-path"; "config-path"; "stanza"; "compress"; "pg-path";
     "db-include"; "archive-async"; "spool-path"; "process-max"; "buffer-size";
     "repo-cipher-pass"; "repo-type"; "repo-s3-bucket"; "recovery-option"] "".

Definition optionIdxName (optionId optionIdx : nat) : string :=
  if optionId =? optPgPath then
    nth optionIdx [""; "pg1-path"; "pg2-path"; "pg3-path"] "pg-path"
  else optionName optionId.

Definition optionType (optionId : nat) : ConfigDefineOptionType :=
  nth optionId
    [cfgDefOptTypeString; cfgDefOptTypePath; cfgDefOptTypePath; cfgDefOptTypeString;
     cfgDefOptTypeBoolean; cfgDefOptTypePath; cfgDefOptTypeList; cfgDefOptTypeBoolean;
     cfgDefOptTypePath; cfgDefOptTypeInteger; cfgDefOptTypeSize; cfgDefOptTypeString;
     cfgDefOptTypeString; cfgDefOptTypeString; cfgDefOptTypeHash] cfgDefOptTypeString.

Definition optionSection (optionId : nat) : ConfigDefSection :=
  if optionId <? 4 then cfgDefSectionCommandLine
  else if optionId =? optPgPath then cfgDefSectionStanza
  else cfgDefSectionGlobal.

Definition optionValid (commandId : ConfigCommand) (optionId : nat) : bool :=
  if decide (commandId = cmdArchivePush) then
    negb (optionId =? optDbInclude) && negb (optionId =? optRecoveryOption)
  else if decide (commandId = cmdBackup) then
    negb (optionId =? optArchiveAsync) && negb (optionId =? optSpoolPath)
    && negb (optionId =? optRecoveryOption)
  else false.

Definition optionDefault (commandId : ConfigCommand) (optionId : nat) : option string :=
  nth optionId
    [Some "/etc/pgbackrest/pgbackrest.conf"; Some "/etc/pgbackrest/conf.d"; None; None;
     Some "1"; None; None; Some "0"; Some "/var/spool/pgbackrest"; Some "1";
     Some "4194304"; None; Some "posix"; None; None] None.

Definition optionRequired (commandId : ConfigCommand) (optionId : nat) : bool :=
  (optionId =? optStanza) || (optionId =? optPgPath) || (optionId =? optRepoS3Bucket).

Definition optionDepend (commandId : ConfigCommand) (optionId : nat) : bool :=
  (optionId =? optSpoolPath) || (optionId =? optRepoS3Bucket).

Definition optionDependOption (commandId : ConfigCommand) (optionId : nat) : nat :=
  if optionId =? optSpoolPath then optArchiveAsync else optRepoType.

Definition optionDependValues (optionId : nat) : list string :=
  if optionId =? optSpoolPath then ["1"]
  else if optionId =? optRepoS3Bucket then ["s3"]
  else [].

Definition optionAllowList (optionId : nat) : list string :=
  if optionId =? optRepoType then ["cifs"; "posix"; "s3"]
  else if optionId =? optBufferSize then ["16384"; "1048576"; "4194304"]
  else [].

Definition strIn (s : string) (l : list string) : bool :=
  existsb (String.eqb s) l.

Definition commandId (commandName : string) : ConfigCommand :=
  if String.eqb commandName "backup" then cmdBackup
  else if String.eqb commandName "archive-push" then cmdArchivePush
  else if String.eqb commandName "help" then cfgCmdHelp
  else if String.eqb commandName "version" then cfgCmdVersion
  else cfgCmdNone.

Definition commandName (commandId : ConfigCommand) : string :=
  match commandId with
  | cfgCmdHelp => "help"
  | cfgCmdVersion => "version"
  | cfgCmdNone => ""
  | cfgCmd 0 => "backup"
  | cfgCmd _ => "archive-push"
  end.

Definition commandRoleEnum (role : string) : Result ConfigCommandRole :=
  if String.eqb role "async" then Ok cfgCmdRoleAsync
  else if String.eqb role "local" then Ok cfgCmdRoleLocal
  else if String.eqb role "remote" then Ok cfgCmdRoleRemote
  else Throw CommandInvalidError ("invalid command role '" +:+ role +:+ "'").

(** A boolean option is stored as a boolean, the others as they are set. *)
Definition optionSetValue (optionId : nat) (value : Variant) : Result Variant :=
  match optionType optionId, value with
  | cfgDefOptTypeBoolean, VarStr s => Ok (VarBool (String.eqb s "1"))
  | _, _ => Ok value
  end.

Definition define : Define :=
  {| CFG_OPTION_TOTAL := 15;
     CFG_OPTION_GROUP_TOTAL := 1;
     CFG_OPTION_INDEX_MAX := 8;
     optionList := options;
     optionResolveOrder := [0; 1; 2; 3; 4; 5; 6; 7; 9; 10; 11; 12; 14; 8; 13];
     cfgOptConfig := optConfig;
     cfgOptConfigIncludePath := optConfigIncludePath;
     cfgOptConfigPath := optConfigPath;
     cfgOptStanza := optStanza;
     cfgCommandId := commandId;
     cfgCommandName := commandName;
     cfgCommandRoleEnum := commandRoleEnum;
     cfgParameterAllowed := fun c => bool_decide (c = cmdArchivePush);
     cfgOptionName := optionName;
     cfgOptionIdxName := optionIdxName;
     cfgOptionGroup := fun optionId => optionId =? optPgPath;
     cfgOptionGroupId := fun _ => 0;
     cfgOptionSetValue := optionSetValue;
     cfgDefOptionSecure := fun optionId => optionId =? optRepoCipherPass;
     cfgDefOptionMulti := fun optionId =>
       (optionId =? optDbInclude) || (optionId =? optRecoveryOption);
     cfgDefOptionType := optionType;
     cfgDefOptionSection := optionSection;
     cfgDefOptionValid := optionValid;
     cfgDefOptionDefault := optionDefault;
     cfgDefOptionRequired := optionRequired;
     cfgDefOptionDepend := optionDepend;
     cfgDefOptionDependOption := optionDependOption;
     cfgDefOptionDependValueTotal := fun _ optionId =>
       length (optionDependValues optionId);
     cfgDefOptionDependValue := fun _ optionId listIdx =>
       nth listIdx (optionDependValues optionId) "";
     cfgDefOptionDependValueValid := fun _ optionId value =>
       strIn value (optionDependValues optionId);
     cfgDefOptionAllowRange := fun _ optionId => optionId =? optProcessMax;
     cfgDefOptionAllowRangeMin := fun _ _ => Z2double 1;
     cfgDefOptionAllowRangeMax := fun _ _ => Z2double 999;
     cfgDefOptionAllowList := fun _ optionId =>
       negb (length (optionAllowList optionId) =? 0);
     cfgDefOptionAllowListValueValid := fun _ optionId value =>
       strIn value (optionAllowList optionId) |}.

(** Staging tables with records.  A record that was found holds its source
    and its values. *)
Definition valueFound (source : ConfigSource) (values : list string)
    : ParseOptionValue :=
  mkParseOptionValue true false false source (Some values).

Definition tableOf (entries : list (nat * list ParseOptionValue)) : ParseOptionList :=
  foldr (fun '(optionId, values) table =>
           <[optionId := mkParseOption (length values) (length values) values]> table)
    (parseOptionListInit (CFG_OPTION_TOTAL define)) entries.

Definition stateOf (commandId : ConfigCommand) (table : ParseOptionList) : ParseState :=
  mkParseState (cfgCommandSet (cfgInit define "pgbackrest") commandId cfgCmdRoleDefault)
    table true None true.

(** --db-include=db1 was found on the command line. *)
Definition tableDbInclude : ParseOptionList :=
  tableOf [(optDbInclude, [valueFound cfgSourceParam ["db1"]])].

(** An INI file that was read, by its sections, keys and values. *)
Fixpoint assocGet {V} (l : list (string * V)) (key : string) : option V :=
  match l with
  | [] => None
  | (k, v) :: l' => if String.eqb k key then Some v else assocGet l' key
  end.

Definition iniLookup (data : list (string * list (string * list string)))
    (section key : string) : list string :=
  match assocGet data section with
  | Some keys => default [] (assocGet keys key)
  | None => []
  end.

Definition iniOf (data : list (string * list (string * list string))) : Ini :=
  {| iniSectionKeyList := fun section =>
       match assocGet data section with
       | Some keys => map fst keys
       | None => []
       end;
     iniSectionKeyIsList := fun section key => 1 <? length (iniLookup data section key);
     iniGet := fun section key => default "" (head (iniLookup data section key));
     iniGetList := iniLookup data |}.

Definition configMain : string :=
  "[global]" +:+ LF_STR +:+ "compress=y" +:+ LF_STR +:+ "pg1-path=/file" +:+ LF_STR
  +:+ "process-max=4" +:+ LF_STR.

Definition configMainIni : Ini :=
  iniOf [("global", [("compress", ["y"]); ("pg1-path", ["/file"]);
                     ("process-max", ["4"])])].

(** The legacy file /etc/pgbackrest.conf exists, the default file does not. *)
Definition system : System :=
  {| environ := ["HOME=/root"; "PGBACKREST_COMPRESS=n"; "PGBACKREST_PG1_PATH=/env"];
     storageFile := fun file =>
       if String.eqb file "/etc/pgbackrest.conf" then Some configMain else None;
     storagePath := fun _ => None;
     iniParse := fun content =>
       if String.eqb content configMain then Ok configMainIni
       else Throw FormatError "invalid ini" |}.

(** --pg1-path=/p1 was found on the command line; the index lists of
    compress and process-max hold a record that was not found. *)
Definition tableParam : ParseOptionList :=
  tableOf [(optPgPath, [parseOptionValueZero; valueFound cfgSourceParam ["/p1"]]);
           (optCompress, [parseOptionValueZero]);
           (optProcessMax, [parseOptionValueZero])].

Definition envRun : Result ParseOptionList * list Event :=
  parseEnvLoop define cmdBackup tableParam 0 (environ system) [].

Definition tableEnv : ParseOptionList :=
  match envRun.1 with
  | Ok table => table
  | _ => []
  end.

Definition fileRun : Result ParseOptionList * list Event :=
  parseConfigString define system cmdBackup tableEnv (Some configMain) envRun.2.

Definition tableFile : ParseOptionList :=
  match fileRun.1 with
  | Ok table => table
  | _ => []
  end.

(** The configuration after Phase 4 for a command, no index of a group
    found. *)
Definition configFor (commandId : ConfigCommand) : Config :=
  let cfg := cfgCommandSet (cfgInit define "pgbackrest") commandId cfgCmdRoleDefault in
  cfgOptionsSet cfg
    (imap (fun optionId configOption =>
             mkConfigOption (optionValid commandId optionId) (index configOption)
               (optionSource configOption) (optionValue configOption))
       (option_ cfg)).

Definition configBackup : Config := configFor cmdBackup.

(** The conversions are not called for the options of the examples that
    follow. *)
Definition convertNone : Convert :=
  mkConvert (fun _ => Ok 0%Z) (fun _ => Ok 0%float) (fun _ => "").

(** --spool-path=/x was found on the command line, archive-async was not
    found. *)
Definition tableSpoolPath : ParseOptionList :=
  tableOf [(optSpoolPath, [valueFound cfgSourceParam ["/x"]]);
           (optArchiveAsync, [parseOptionValueZero])].

(** --buffer-size=2MB was found on the command line. *)
Definition tableBufferSize : ParseOptionList :=
  tableOf [(optBufferSize, [valueFound cfgSourceParam ["2MB"]])].

(** --pg3-path=/p3 --pg1-path=/p1 were found on the command line. *)
Definition tablePg : ParseOptionList :=
  tableOf [(optPgPath, [parseOptionValueZero; valueFound cfgSourceParam ["/p1"];
                        parseOptionValueZero; valueFound cfgSourceParam ["/p3"]])].

(** The configuration after Phase 1 of a command. *)
Definition configCommand (commandId : ConfigCommand) : Config :=
  cfgCommandSet (cfgInit define "pgbackrest") commandId cfgCmdRoleDefault.

(** The plan of the loader when no option was found. *)
Definition planDefault : FileLoadPlan :=
  mkFileLoadPlan true true false false "/etc/pgbackrest/pgbackrest.conf"
    "/etc/pgbackrest/pgbackrest.conf" "/etc/pgbackrest/conf.d".

(** The configuration after the flags of an option index were set. *)
Definition configFlags (cfg : Config) (optionId optionIdx : nat)
    (value : ParseOptionValue) : Config :=
  match cfgOptionFlagsSet cfg optionId optionIdx (negate value) (reset value) with
  | Ok cfg1 => cfg1
  | _ => cfg
  end.

(** The configuration of archive-push after archive-async was committed. *)
Definition configArchiveAsync (value : bool) : Config :=
  match cfgOptionSet define (configFor cmdArchivePush) optArchiveAsync cfgSourceParam
          (Some (VarBool value)) with
  | Ok cfg => cfg
  | _ => configFor cmdArchivePush
  end.

(** The definitions with another depend list for spool-path. *)
Definition defineDepend (spoolPathValues : list string) : Define :=
  let dependValues := fun optionId =>
    if optionId =? optSpoolPath then spoolPathValues else optionDependValues optionId in
  {| CFG_OPTION_TOTAL := CFG_OPTION_TOTAL define;
     CFG_OPTION_GROUP_TOTAL := CFG_OPTION_GROUP_TOTAL define;
     CFG_OPTION_INDEX_MAX := CFG_OPTION_INDEX_MAX define;
     optionList := optionList define;
     optionResolveOrder := optionResolveOrder define;
     cfgOptConfig := cfgOptConfig define;
     cfgOptConfigIncludePath := cfgOptConfigIncludePath define;
     cfgOptConfigPath := cfgOptConfigPath define;
     cfgOptStanza := cfgOptStanza define;
     cfgCommandId := cfgCommandId define;
     cfgCommandName := cfgCommandName define;
     cfgCommandRoleEnum := cfgCommandRoleEnum define;
     cfgParameterAllowed := cfgParameterAllowed define;
     cfgOptionName := cfgOptionName define;
     cfgOptionIdxName := cfgOptionIdxName define;
     cfgOptionGroup := cfgOptionGroup define;
     cfgOptionGroupId := cfgOptionGroupId define;
     cfgOptionSetValue := cfgOptionSetValue define;
     cfgDefOptionSecure := cfgDefOptionSecure define;
     cfgDefOptionMulti := cfgDefOptionMulti define;
     cfgDefOptionType := cfgDefOptionType define;
     cfgDefOptionSection := cfgDefOptionSection define;
     cfgDefOptionValid := cfgDefOptionValid define;
     cfgDefOptionDefault := cfgDefOptionDefault define;
     cfgDefOptionRequired := cfgDefOptionRequired define;
     cfgDefOptionDepend := cfgDefOptionDepend define;
     cfgDefOptionDependOption := cfgDefOptionDependOption define;
     cfgDefOptionDependValueTotal := fun _ optionId => length (dependValues optionId);
     cfgDefOptionDependValue := fun _ optionId listIdx =>
       nth listIdx (dependValues optionId) "";
     cfgDefOptionDependValueValid := fun _ optionId value =>
       strIn value (dependValues optionId);
     cfgDefOptionAllowRange := cfgDefOptionAllowRange define;
     cfgDefOptionAllowRangeMin := cfgDefOptionAllowRangeMin define;
     cfgDefOptionAllowRangeMax := cfgDefOptionAllowRangeMax define;
     cfgDefOptionAllowList := cfgDefOptionAllowList define;
     cfgDefOptionAllowListValueValid := cfgDefOptionAllowListValueValid define |}.

(** Every option that is valid for backup has a record at index 0; pg-path
    has no record.  The stanza was found on the command line, or not. *)
Definition tableBackup (stanzaFound : bool) : ParseOptionList :=
  tableOf [(optConfig, [parseOptionValueZero]);
           (optConfigIncludePath, [parseOptionValueZero]);
           (optConfigPath, [parseOptionValueZero]);
           (optStanza, [if stanzaFound then valueFound cfgSourceParam ["db"]
                        else parseOptionValueZero]);
           (optCompress, [parseOptionValueZero]);
           (optDbInclude, [parseOptionValueZero]);
           (optProcessMax, [parseOptionValueZero]);
           (optBufferSize, [parseOptionValueZero]);
           (optRepoCipherPass, [parseOptionValueZero]);
           (optRepoType, [parseOptionValueZero]);
           (optRepoS3Bucket, [parseOptionValueZero])].

(** The configuration of backup when Phase 5 reaches an option of the
    resolve order. *)
Definition configReached (table : ParseOptionList) (optionOrderIdx : nat) : Config :=
  match forEachR (resolveOption define convertNone cmdBackup table) configBackup
          (seq 0 optionOrderIdx) with
  | Ok cfg => cfg
  | _ => configBackup
  end.

(** --config-path=/etc/pgbackrest was found on the command line. *)
Definition tableConfigPath : ParseOptionList :=
  tableOf [(optConfigPath, [valueFound cfgSourceParam ["/etc/pgbackrest"]])].

(** --config=/etc/pgbackrest/pgbackrest.conf was found on the command line. *)
Definition tableConfig : ParseOptionList :=
  tableOf [(optConfig, [valueFound cfgSourceParam ["/etc/pgbackrest/pgbackrest.conf"]])].
End Sample.
(** * Properties *)

(** ** The staging table lookup *)

Lemma parseOptionIdxValue_Some parseOption optionIdx value :
  parseOptionIdxValue parseOption optionIdx = Some value ->
  optionIdx < indexListTotal parseOption /\ indexList parseOption !! optionIdx = Some value.
Proof.
  unfold parseOptionIdxValue. destruct (Nat.ltb_spec optionIdx (indexListTotal parseOption)).
  - auto.
  - discriminate.
Qed.

Lemma parseOptionIdxValue_beyond_total parseOption optionIdx :
  indexListTotal parseOption <= optionIdx -> parseOptionIdxValue parseOption optionIdx = None.
Proof.
  intros Hle. unfold parseOptionIdxValue.
  destruct (Nat.ltb_spec optionIdx (indexListTotal parseOption)); [lia | reflexivity].
Qed.

Lemma tableValue_init total optionId optionIdx :
  tableValue (parseOptionListInit total) optionId optionIdx = None.
Proof.
  unfold tableValue, parseOptionListInit.
  destruct (replicate total parseOptionZero !! optionId) as [po|] eqn:Hpo; [|reflexivity].
  apply lookup_replicate in Hpo as [-> _].
  apply parseOptionIdxValue_beyond_total. simpl. lia.
Qed.

(** C1, as the code has it: the lookup returns NULL for every index at or
    beyond the index list total and nothing grows the list, so on the table
    that [configParse] starts with the first option of the command line finds
    no record, and the parser dereferences the null pointer. *)
Theorem parseOption_first_lookup_null (def : Define) (exePath : string)
    (optionListIdx : nat) (optarg : string) (entry : struct_option) :
  optionList def !! optionListIdx = Some entry ->
  parseOptionId (val entry) < CFG_OPTION_TOTAL def ->
  cfgDefOptionSecure def (parseOptionId (val entry)) = false ->
  (forall parseOption optionIdx,
     indexListTotal parseOption <= optionIdx ->
     parseOptionIdxValue parseOption optionIdx = None)
  /\ tableValue (parseOptionList (parseStateInit def exePath))
       (parseOptionId (val entry)) (parseOptionIdx (val entry)) = None
  /\ parseOption def (parseStateInit def exePath) optionListIdx optarg = NullDeref.
Proof.
  intros Hentry Hid Hsecure. split; [|split].
  - apply parseOptionIdxValue_beyond_total.
  - apply tableValue_init.
  - unfold parseOption. rewrite Hentry. simpl.
    apply Nat.ltb_lt in Hid. rewrite Hid. simpl.
    rewrite Hsecure. unfold parseStateInit. simpl.
    rewrite tableValue_init. reflexivity.
Qed.

Lemma parseOption_first_lookup_null_witness :
  tableValue (parseOptionList (parseStateInit Sample.define "pgbackrest"))
    Sample.optStanza 0 = None
  /\ parseOption Sample.define (parseStateInit Sample.define "pgbackrest") 4 "db"
     = NullDeref.
Proof.
  apply (parseOption_first_lookup_null Sample.define "pgbackrest" 4 "db"
           (mkOption "stanza" required_argument (Sample.optVal Sample.optStanza 0 false false))).
  - reflexivity.
  - vm_compute. lia.
  - reflexivity.
Defined.

(** ** Phase 1: an option that was found before *)

(** C2: when the record of the option of a token was found before, the six
    rules decide by how the option was used before and how the token uses
    it: negated twice, reset twice, negated and reset, set and negated, set
    and reset (each in either order) and set twice are errors, except that
    the argument of a multi option is appended to the value list. *)
Theorem parseOption_found_rules (def : Define) (st : ParseState)
    (optionListIdx : nat) (optarg : string) (entry : struct_option)
    (optionValue : ParseOptionValue) :
  let optionId := parseOptionId (val entry) in
  let optionIdx := parseOptionIdx (val entry) in
  let negateFlag := flagSet (val entry) PARSE_NEGATE_FLAG in
  let resetFlag := flagSet (val entry) PARSE_RESET_FLAG in
  let optName := cfgOptionIdxName def optionId optionIdx in
  optionList def !! optionListIdx = Some entry ->
  optionId < CFG_OPTION_TOTAL def ->
  cfgDefOptionSecure def optionId = false ->
  tableValue (parseOptionList st) optionId optionIdx = Some optionValue ->
  found optionValue = true ->
  negate optionValue && reset optionValue = false ->
  negateFlag && resetFlag = false ->
  parseOption def st optionListIdx optarg =
    match optionUse (negate optionValue) (reset optionValue),
          optionUse negateFlag resetFlag with
    | UseNegate, UseNegate =>
        Throw OptionInvalidError ("option '" +:+ optName +:+ "' is negated multiple times")
    | UseReset, UseReset =>
        Throw OptionInvalidError ("option '" +:+ optName +:+ "' is reset multiple times")
    | UseNegate, UseReset | UseReset, UseNegate =>
        Throw OptionInvalidError ("option '" +:+ optName +:+ "' cannot be negated and reset")
    | UseSet, UseNegate | UseNegate, UseSet =>
        Throw OptionInvalidError ("option '" +:+ optName +:+ "' cannot be set and negated")
    | UseSet, UseReset | UseReset, UseSet =>
        Throw OptionInvalidError ("option '" +:+ optName +:+ "' cannot be set and reset")
    | UseSet, UseSet =>
        if bool_decide (has_arg entry = required_argument) && cfgDefOptionMulti def optionId
        then
          match valueList optionValue with
          | Some values =>
              Ok (parseStateTable st
                    (tableSet (parseOptionList st) optionId optionIdx
                       (mkParseOptionValue true false false (source optionValue)
                          (Some (values ++ [optarg])))))
          | None => NullDeref
          end
        else
          Throw OptionInvalidError
            ("option '" +:+ optName +:+ "' cannot be set multiple times")
    end.
Proof.
  intros optionId optionIdx negateFlag resetFlag optName
    Hentry Hid Hsecure Hvalue Hfound Hexcl Hflags.
  unfold parseOption. rewrite Hentry. cbv zeta.
  fold optionId optionIdx negateFlag resetFlag.
  apply Nat.ltb_lt in Hid. rewrite Hid. simpl.
  rewrite Hsecure, Hvalue, Hfound. simpl.
  unfold parseOptionAgain, optionUse. fold optName.
  destruct optionValue as [f n r s vl]; simpl in *. subst f.
  destruct n, r, negateFlag, resetFlag; simpl in *; try discriminate; try reflexivity.
  destruct (bool_decide (has_arg entry = required_argument) && cfgDefOptionMulti def optionId);
    [|reflexivity].
  destruct vl; reflexivity.
Qed.

Lemma parseOption_found_rules_witness :
  (st ← parseOption Sample.define (Sample.stateOf Sample.cmdBackup Sample.tableDbInclude)
          11 "db2";
   Ok (tableValue (parseOptionList st) Sample.optDbInclude 0))
  = Ok (Some (Sample.valueFound cfgSourceParam ["db1"; "db2"])).
Proof.
  rewrite (parseOption_found_rules Sample.define
             (Sample.stateOf Sample.cmdBackup Sample.tableDbInclude) 11 "db2"
             (mkOption "db-include" required_argument
                (Sample.optVal Sample.optDbInclude 0 false false))
             (Sample.valueFound cfgSourceParam ["db1"])).
  - reflexivity.
  - reflexivity.
  - vm_compute. lia.
  - reflexivity.
  - reflexivity.
  - reflexivity.
  - reflexivity.
  - reflexivity.
Defined.

(** ** Phases 2 and 3: values found before are kept *)

Lemma tableValue_tableSet_ne table optionId optionIdx value optionId' optionIdx' :
  (optionId', optionIdx') <> (optionId, optionIdx) ->
  tableValue (tableSet table optionId optionIdx value) optionId' optionIdx'
  = tableValue table optionId' optionIdx'.
Proof.
  intros Hne. unfold tableValue, tableSet.
  destruct (table !! optionId) as [po|] eqn:Hpo; [|reflexivity].
  destruct (decide (optionId' = optionId)) as [->|Hid].
  - rewrite list_lookup_insert_eq by (eapply lookup_lt_Some; eauto).
    rewrite Hpo. unfold parseOptionIdxValue, parseOptionIdxSet. simpl.
    rewrite list_lookup_insert_ne by congruence. reflexivity.
  - rewrite list_lookup_insert_ne by congruence. reflexivity.
Qed.

Lemma tableValue_tableSet_eq table optionId optionIdx value old :
  tableValue table optionId optionIdx = Some old ->
  tableValue (tableSet table optionId optionIdx value) optionId optionIdx = Some value.
Proof.
  unfold tableValue, tableSet. intros Hold.
  destruct (table !! optionId) as [po|] eqn:Hpo; [|discriminate].
  apply parseOptionIdxValue_Some in Hold as [Hlt Hold].
  rewrite list_lookup_insert_eq by (eapply lookup_lt_Some; eauto).
  unfold parseOptionIdxValue, parseOptionIdxSet. simpl.
  apply Nat.ltb_lt in Hlt. rewrite Hlt.
  apply list_lookup_insert_eq. eapply lookup_lt_Some; eauto.
Qed.

Lemma tableKeeps_refl table : tableKeeps table table.
Proof. intros ? ? ? ? ?. assumption. Qed.

Lemma tableKeeps_trans table1 table2 table3 :
  tableKeeps table1 table2 -> tableKeeps table2 table3 -> tableKeeps table1 table3.
Proof. intros H12 H23 ? ? ? ? ?. apply H23; [apply H12|]; assumption. Qed.

(** A write to a record that was not found keeps the records found. *)
Lemma tableKeeps_tableSet table optionId optionIdx old value :
  tableValue table optionId optionIdx = Some old ->
  found old = false ->
  tableKeeps table (tableSet table optionId optionIdx value).
Proof.
  intros Hold Hnot optionId' optionIdx' value' Hvalue' Hfound'.
  destruct (decide ((optionId', optionIdx') = (optionId, optionIdx))) as [Heq|Hne].
  - injection Heq as -> ->. congruence.
  - rewrite tableValue_tableSet_ne by assumption. assumption.
Qed.

Ltac unfold_M :=
  unfold mbind, M_bind, mret, M_ret, liftR, LOG_WARN, tell in *.

Lemma forEach_invariant {A S} (R : S -> S -> Prop) (body : S -> A -> M S) :
  (forall s, R s s) ->
  (forall s1 s2 s3, R s1 s2 -> R s2 s3 -> R s1 s3) ->
  (forall s a log s' log', body s a log = (Ok s', log') -> R s s') ->
  forall l s log s' log', forEach body s l log = (Ok s', log') -> R s s'.
Proof.
  intros Hrefl Htrans Hbody l.
  induction l as [|a l IH]; intros s log s' log' Hrun; simpl in Hrun.
  - unfold_M. injection Hrun as <- _. apply Hrefl.
  - unfold mbind, M_bind in Hrun.
    destruct (body s a log) as [[s1| | |] log1] eqn:Hstep; try discriminate.
    eapply Htrans; [eapply Hbody; eassumption | eapply IH; eassumption].
Qed.

Lemma parseEnv_keeps def commandId table keyValue log table' log' :
  parseEnv def commandId table keyValue log = (Ok table', log') ->
  tableKeeps table table'.
Proof.
  unfold parseEnv. intros Hrun. unfold_M.
  repeat case_match; simplify_eq; try apply tableKeeps_refl;
    eapply tableKeeps_tableSet; eassumption.
Qed.

Lemma parseEnvLoop_keeps def commandId env :
  forall table environIdx log table' log',
    parseEnvLoop def commandId table environIdx env log = (Ok table', log') ->
    tableKeeps table table'.
Proof.
  induction env as [|keyValue env IH]; intros table environIdx log table' log' Hrun;
    simpl in Hrun.
  - unfold_M. injection Hrun as <- _. apply tableKeeps_refl.
  - unfold mbind, M_bind, tell in Hrun.
    destruct (parseEnv def commandId table keyValue (log ++ [EvEnviron environIdx]))
      as [[table1| | |] log1] eqn:Hstep; try discriminate.
    eapply tableKeeps_trans; [eapply parseEnv_keeps; eassumption | eapply IH; eassumption].
Qed.

Lemma parseKey_keeps def commandId config sectionIdx section st key log st' log' :
  parseKey def commandId config sectionIdx section st key log = (Ok st', log') ->
  tableKeeps st.1 st'.1.
Proof.
  unfold parseKey. destruct st as [table optionFound]. intros Hrun. unfold_M.
  repeat case_match; simplify_eq; simpl; try apply tableKeeps_refl;
    eapply tableKeeps_tableSet; eassumption.
Qed.

Lemma parseSection_keeps def commandId config st section log st' log' :
  parseSection def commandId config st section log = (Ok st', log') ->
  tableKeeps st.1 st'.1.
Proof.
  unfold parseSection. destruct st as [table sectionIdx]. intros Hrun.
  unfold mbind, M_bind in Hrun.
  destruct (forEach (parseKey def commandId config sectionIdx section) (table, ∅)
              (iniSectionKeyList config section) log) as [[[table1 found1]| | |] log1] eqn:Hkeys;
    try discriminate.
  unfold_M. simplify_eq. simpl.
  apply (forEach_invariant (fun s s' => tableKeeps s.1 s'.1)) in Hkeys; [exact Hkeys|..].
  - intros s. apply tableKeeps_refl.
  - intros s1 s2 s3. apply tableKeeps_trans.
  - intros s a l s' l'. apply parseKey_keeps.
Qed.

Lemma parseSections_from_keeps def commandId config sections st log st' log' :
  forEach (parseSection def commandId config) st sections log = (Ok st', log') ->
  tableKeeps st.1 st'.1.
Proof.
  apply (forEach_invariant (fun s s' => tableKeeps s.1 s'.1)).
  - intros s. apply tableKeeps_refl.
  - intros s1 s2 s3. apply tableKeeps_trans.
  - intros s a l s' l'. apply parseSection_keeps.
Qed.

Lemma parseConfigString_keeps def sys commandId table configString log table' log' :
  parseConfigString def sys commandId table configString log = (Ok table', log') ->
  tableKeeps table table'.
Proof.
  unfold parseConfigString, parseSections. intros Hrun.
  destruct configString as [content|].
  - unfold mbind, M_bind, liftR in Hrun.
    destruct (iniParse sys content) as [config| | |]; try discriminate.
    destruct (sectionList def commandId table) as [sections| | |]; try discriminate.
    destruct (forEach (parseSection def commandId config) (table, 0) sections log)
      as [[[table1 idx1]| | |] log1] eqn:Hsections; try discriminate.
    unfold_M. simplify_eq.
    apply parseSections_from_keeps in Hsections. exact Hsections.
  - unfold_M. simplify_eq. apply tableKeeps_refl.
Qed.

(** C3: first found wins.  A record found in Phase 1 is the same after
    Phase 2, a record found in Phase 1 or Phase 2 is the same after Phase 3,
    and within Phase 3 a record found by the sections searched so far is the
    same after the sections that follow. *)
Theorem first_found_wins (def : Define) (sys : System) (commandId : ConfigCommand)
    (table1 table2 table3 : ParseOptionList) (configString : option string)
    (log1 log2 log2' log3 : list Event) (optionId optionIdx : nat) :
  parseEnvLoop def commandId table1 0 (environ sys) log1 = (Ok table2, log2) ->
  parseConfigString def sys commandId table2 configString log2' = (Ok table3, log3) ->
  (forall value,
     tableValue table1 optionId optionIdx = Some value -> found value = true ->
     tableValue table2 optionId optionIdx = Some value
     /\ tableValue table3 optionId optionIdx = Some value)
  /\ (forall value,
        tableValue table2 optionId optionIdx = Some value -> found value = true ->
        tableValue table3 optionId optionIdx = Some value)
  /\ (forall config sections st log st' log' value,
        forEach (parseSection def commandId config) st sections log = (Ok st', log') ->
        tableValue st.1 optionId optionIdx = Some value -> found value = true ->
        tableValue st'.1 optionId optionIdx = Some value).
Proof.
  intros Henv Hfile.
  apply parseEnvLoop_keeps in Henv. apply parseConfigString_keeps in Hfile.
  split; [|split].
  - intros value Hvalue Hfound. split.
    + apply Henv; assumption.
    + apply Hfile; [apply Henv|]; assumption.
  - intros value Hvalue Hfound. apply Hfile; assumption.
  - intros config sections st log st' log' value Hrun Hvalue Hfound.
    apply parseSections_from_keeps in Hrun. apply Hrun; assumption.
Qed.

Lemma first_found_wins_witness :
  (tableValue Sample.tableEnv Sample.optPgPath 1
   = Some (Sample.valueFound cfgSourceParam ["/p1"])
   /\ tableValue Sample.tableFile Sample.optPgPath 1
      = Some (Sample.valueFound cfgSourceParam ["/p1"]))
  /\ tableValue Sample.tableFile Sample.optCompress 0
     = Some (mkParseOptionValue true true false cfgSourceConfig None)
  /\ tableValue Sample.tableFile Sample.optProcessMax 0
     = Some (Sample.valueFound cfgSourceConfig ["4"]).
Proof.
  destruct (first_found_wins Sample.define Sample.system Sample.cmdBackup
              Sample.tableParam Sample.tableEnv Sample.tableFile (Some Sample.configMain)
              [] Sample.envRun.2 Sample.envRun.2 Sample.fileRun.2 Sample.optPgPath 1)
    as (Hparam & _ & _); [reflexivity | reflexivity |].
  destruct (first_found_wins Sample.define Sample.system Sample.cmdBackup
              Sample.tableParam Sample.tableEnv Sample.tableFile (Some Sample.configMain)
              [] Sample.envRun.2 Sample.envRun.2 Sample.fileRun.2 Sample.optCompress 0)
    as (_ & Henv & _); [reflexivity | reflexivity |].
  split; [|split].
  - apply Hparam; reflexivity.
  - apply Henv; reflexivity.
  - reflexivity.
Defined.

(** ** The records of Phases 1 to 3 *)

Lemma tableInv_init def total : tableInv def (parseOptionListInit total).
Proof. intros optionId optionIdx value. rewrite tableValue_init. discriminate. Qed.

Lemma tableInv_tableSet def table optionId optionIdx old value :
  tableInv def table ->
  tableValue table optionId optionIdx = Some old ->
  valueInv def optionId value ->
  tableInv def (tableSet table optionId optionIdx value).
Proof.
  intros Hinv Hold Hvalue optionId' optionIdx' value' Hvalue'.
  destruct (decide ((optionId', optionIdx') = (optionId, optionIdx))) as [Heq|Hne].
  - injection Heq as -> ->.
    rewrite (tableValue_tableSet_eq _ _ _ _ _ Hold) in Hvalue'. congruence.
  - rewrite tableValue_tableSet_ne in Hvalue' by assumption. eapply Hinv; eassumption.
Qed.

Lemma valueInv_not_found def optionId value :
  valueInv def optionId value -> found value = false ->
  negate value = false /\ reset value = false.
Proof.
  intros (Hfound & _ & _) Hnot.
  destruct (negate value), (reset value); simpl in *; auto;
    specialize (Hfound eq_refl); congruence.
Qed.

Lemma valueInv_param def optionId value :
  found value = true -> negate value && reset value = false ->
  source value = cfgSourceParam -> valueInv def optionId value.
Proof. intros Hfound Hflags Hsource. split; [|split]; auto. Qed.

Lemma parseOptionAgain_inv def optionValue optionId optionIdx negateFlag resetFlag
    hasArg optarg value :
  parseOptionAgain def optionValue optionId optionIdx negateFlag resetFlag hasArg optarg
  = Ok value ->
  valueInv def optionId optionValue -> valueInv def optionId value.
Proof.
  unfold parseOptionAgain. intros Hrun Hinv.
  repeat case_match; simplify_eq. exact Hinv.
Qed.

Lemma parseOption_inv def st optionListIdx optarg st' :
  optionListFlags def ->
  parseOption def st optionListIdx optarg = Ok st' ->
  tableInv def (parseOptionList st) -> tableInv def (parseOptionList st').
Proof.
  intros Hflags Hrun Hinv. unfold parseOption in Hrun.
  destruct (optionList def !! optionListIdx) as [entry|] eqn:Hentry; [|discriminate].
  specialize (Hflags _ _ Hentry). cbv zeta in Hrun.
  unfold ASSERT, mbind, Result_bind in Hrun.
  repeat case_match; simplify_eq; simpl;
    (eapply tableInv_tableSet; [eassumption..|]).
  - apply valueInv_param; auto.
  - apply valueInv_param; auto.
  - eapply parseOptionAgain_inv; [eassumption|]. eapply Hinv; eassumption.
Qed.

Lemma parseStep_inv def st r st' :
  optionListFlags def ->
  parseStep def st r = Ok st' ->
  tableInv def (parseOptionList st) -> tableInv def (parseOptionList st').
Proof.
  intros Hflags Hrun Hinv. unfold parseStep, mbind, Result_bind in Hrun.
  destruct r as [arg|arg|arg|optionListIdx optarg]; try discriminate.
  - unfold parseArg, mbind, Result_bind in Hrun.
    repeat case_match; simplify_eq; simpl; assumption.
  - destruct (parseOption def st optionListIdx optarg) as [st1| | |] eqn:Hopt;
      try discriminate.
    simplify_eq. simpl. eapply parseOption_inv; eassumption.
Qed.

Lemma parseLoop_inv def args :
  optionListFlags def ->
  forall st st', parseLoop def st args = Ok st' ->
    tableInv def (parseOptionList st) -> tableInv def (parseOptionList st').
Proof.
  intros Hflags. induction args as [|r args IH]; intros st st' Hrun Hinv; simpl in Hrun.
  - simplify_eq. assumption.
  - unfold mbind, Result_bind in Hrun.
    destruct (parseStep def st r) as [st1| | |] eqn:Hstep; try discriminate.
    eapply IH; [eassumption|]. eapply parseStep_inv; eassumption.
Qed.

(** The writes of Phases 2 and 3 to a record that was not found. *)
Lemma valueInv_config def optionId value value' :
  valueInv def optionId value -> found value = false ->
  found value' = true -> reset value' = reset value ->
  source value' = cfgSourceConfig ->
  (negate value' = negate value
   \/ cfgDefOptionType def optionId = cfgDefOptTypeBoolean) ->
  valueInv def optionId value'.
Proof.
  intros Hinv Hnot Hfound Hreset Hsource Hnegate.
  destruct (valueInv_not_found _ _ _ Hinv Hnot) as [Hn Hr].
  split; [|split].
  - intros _. assumption.
  - rewrite Hreset, Hr. apply andb_false_r.
  - intros Hn' Htype. destruct Hnegate as [Heq|Hbool]; [congruence | contradiction].
Qed.

Lemma parseEnv_inv def commandId table keyValue log table' log' :
  parseEnv def commandId table keyValue log = (Ok table', log') ->
  tableInv def table -> tableInv def table'.
Proof.
  unfold parseEnv. intros Hrun Hinv. unfold_M.
  repeat case_match; simplify_eq; try assumption;
    (eapply tableInv_tableSet; [eassumption..|];
     eapply valueInv_config; [eapply Hinv; eassumption | eassumption | ..];
     simpl; auto).
Qed.

Lemma parseEnvLoop_inv def commandId env :
  forall table environIdx log table' log',
    parseEnvLoop def commandId table environIdx env log = (Ok table', log') ->
    tableInv def table -> tableInv def table'.
Proof.
  induction env as [|keyValue env IH]; intros table environIdx log table' log' Hrun Hinv;
    simpl in Hrun.
  - unfold_M. simplify_eq. assumption.
  - unfold mbind, M_bind, tell in Hrun.
    destruct (parseEnv def commandId table keyValue (log ++ [EvEnviron environIdx]))
      as [[table1| | |] log1] eqn:Hstep; try discriminate.
    eapply IH; [eassumption|]. eapply parseEnv_inv; eassumption.
Qed.

Lemma parseKey_inv def commandId config sectionIdx section st key log st' log' :
  parseKey def commandId config sectionIdx section st key log = (Ok st', log') ->
  tableInv def st.1 -> tableInv def st'.1.
Proof.
  unfold parseKey. destruct st as [table optionFound]. intros Hrun Hinv. unfold_M.
  simpl in Hinv.
  repeat case_match; simplify_eq; simpl; try assumption;
    (eapply tableInv_tableSet; [eassumption..|];
     eapply valueInv_config; [eapply Hinv; eassumption | eassumption | ..];
     simpl; auto).
Qed.

Lemma forEach_preserves {A S} (P : S -> Prop) (body : S -> A -> M S) :
  (forall s a log s' log', body s a log = (Ok s', log') -> P s -> P s') ->
  forall l s log s' log', forEach body s l log = (Ok s', log') -> P s -> P s'.
Proof.
  intros Hbody l s log s' log' Hrun.
  exact (forEach_invariant (fun s s' => P s -> P s') body
           (fun _ H => H) (fun _ _ _ H12 H23 H => H23 (H12 H)) Hbody l s log s' log' Hrun).
Qed.

Lemma parseSection_inv def commandId config st section log st' log' :
  parseSection def commandId config st section log = (Ok st', log') ->
  tableInv def st.1 -> tableInv def st'.1.
Proof.
  unfold parseSection. destruct st as [table sectionIdx]. intros Hrun.
  unfold mbind, M_bind in Hrun.
  destruct (forEach (parseKey def commandId config sectionIdx section) (table, ∅)
              (iniSectionKeyList config section) log) as [[[table1 found1]| | |] log1] eqn:Hkeys;
    try discriminate.
  unfold_M. simplify_eq. simpl.
  apply (forEach_preserves (fun s => tableInv def s.1) _
           (parseKey_inv def commandId config sectionIdx section) _ _ _ _ _ Hkeys).
Qed.

Lemma parseConfigString_inv def sys commandId table configString log table' log' :
  parseConfigString def sys commandId table configString log = (Ok table', log') ->
  tableInv def table -> tableInv def table'.
Proof.
  unfold parseConfigString, parseSections. intros Hrun Hinv.
  destruct configString as [content|].
  - unfold mbind, M_bind, liftR in Hrun.
    destruct (iniParse sys content) as [config| | |]; try discriminate.
    destruct (sectionList def commandId table) as [sections| | |]; try discriminate.
    destruct (forEach (parseSection def commandId config) (table, 0) sections log)
      as [[[table1 idx1]| | |] log1] eqn:Hsections; try discriminate.
    unfold_M. simplify_eq.
    apply (forEach_preserves (fun s => tableInv def s.1) _
             (parseSection_inv def commandId config) _ _ _ _ _ Hsections Hinv).
  - unfold_M. simplify_eq. assumption.
Qed.

(** ** Phase 5: committing a value *)

Lemma arraySet_Ok {A} (l l' : list A) i a :
  arraySet l i a = Ok l' -> i < length l /\ l' = <[i := a]> l.
Proof.
  unfold arraySet. destruct (Nat.ltb_spec i (length l)); [|discriminate].
  intros [= <-]. auto.
Qed.

Lemma arrayGet_Ok {A} (l : list A) i a : arrayGet l i = Ok a -> l !! i = Some a.
Proof. unfold arrayGet. destruct (l !! i); [|discriminate]. congruence. Qed.

Lemma cfgOptionFlagsSet_fields cfg optionId optionIdx negateFlag resetFlag cfg' :
  cfgOptionFlagsSet cfg optionId optionIdx negateFlag resetFlag = Ok cfg' ->
  command cfg' = command cfg /\ help cfg' = help cfg
  /\ optionGroup cfg' = optionGroup cfg
  /\ (forall optionId', cfgOption cfg' optionId' = cfgOption cfg optionId').
Proof.
  unfold cfgOptionFlagsSet, mbind, Result_bind. intros Hrun.
  destruct (arrayGet (option_ cfg) optionId) as [o| | |] eqn:Hget; try discriminate.
  apply arrayGet_Ok in Hget.
  destruct (arraySet _ _ _) as [options| | |] eqn:Hset; try discriminate.
  apply arraySet_Ok in Hset as [Hlt ->]. simplify_eq. simpl.
  repeat split. intros optionId'. unfold cfgOption. simpl.
  destruct (decide (optionId' = optionId)) as [->|Hne].
  - rewrite list_lookup_insert_eq by assumption. rewrite Hget. reflexivity.
  - rewrite list_lookup_insert_ne by congruence. reflexivity.
Qed.

(** What [cfgOptionSet] commits: the source, and the value as config.c
    stores it, or NULL. *)
Lemma cfgOptionSet_commit def cfg optionId source value cfg' :
  cfgOptionSet def cfg optionId source value = Ok cfg' ->
  exists configOption,
    option_ cfg' !! optionId = Some configOption
    /\ optionSource configOption = source
    /\ match value with
       | Some v => exists v', cfgOptionSetValue def optionId v = Ok v'
                              /\ optionValue configOption = Some v'
       | None => optionValue configOption = None
       end.
Proof.
  unfold cfgOptionSet, mbind, Result_bind. intros Hrun.
  destruct (arrayGet (option_ cfg) optionId) as [o| | |] eqn:Hget; try discriminate.
  destruct value as [v|].
  - destruct (cfgOptionSetValue def optionId v) as [v'| | |] eqn:Hv; try discriminate.
    destruct (arraySet _ _ _) as [options| | |] eqn:Hset; try discriminate.
    apply arraySet_Ok in Hset as [Hlt ->]. simplify_eq. simpl.
    eexists. split; [apply list_lookup_insert_eq; assumption|].
    simpl. split; [reflexivity|]. exists v'. auto.
  - destruct (arraySet _ _ _) as [options| | |] eqn:Hset; try discriminate.
    apply arraySet_Ok in Hset as [Hlt ->]. simplify_eq. simpl.
    eexists. split; [apply list_lookup_insert_eq; assumption|].
    simpl. auto.
Qed.

Lemma resolveIndex_eq def cv commandId table optionId cfg optionIdx rawIdx value :
  optionRawIdx def cfg optionId optionIdx = Ok rawIdx ->
  tableValue table optionId rawIdx = Some value ->
  resolveIndex def cv commandId table optionId cfg optionIdx =
    cfg1 ← cfgOptionFlagsSet cfg optionId optionIdx (negate value) (reset value);
    dependResolved ←
      dependCheck def commandId cfg1 optionId (optionIsSet def optionId value) value;
    if dependResolved : bool then
      if optionIsSet def optionId value
      then resolveSet def cv commandId cfg1 optionId (cfgDefOptionType def optionId) value
      else resolveUnset def commandId cfg1 optionId value
    else Ok cfg1.
Proof.
  unfold optionRawIdx, tableValue, resolveIndex, arrayGet. intros Hraw Hvalue.
  destruct (table !! optionId) as [po|]; [|discriminate]. simpl.
  unfold arrayGet in Hraw. rewrite Hraw. simpl. rewrite Hvalue. reflexivity.
Qed.

Lemma valueOk_valueInv def optionId value :
  valueOk def optionId value = true <-> valueInv def optionId value.
Proof.
  unfold valueOk, valueInv. destruct value as [f n r s vl]. simpl. split.
  - intros H. apply andb_prop in H as [H H3]. apply andb_prop in H as [H1 H2].
    split; [|split].
    + intros Hnr. rewrite Hnr in H1. exact H1.
    + apply negb_true_iff. exact H2.
    + intros -> Htype. rewrite bool_decide_eq_false_2 in H3 by assumption.
      simpl in H3. apply bool_decide_eq_true_1 in H3. exact H3.
  - intros (H1 & H2 & H3).
    apply andb_true_intro. split; [apply andb_true_intro; split|].
    + destruct (n || r); [rewrite H1 by reflexivity|]; reflexivity.
    + rewrite H2. reflexivity.
    + destruct n; [|reflexivity]. simpl.
      destruct (decide (cfgDefOptionType def optionId = cfgDefOptTypeBoolean)) as [Hb|Hb].
      * rewrite bool_decide_eq_true_2 by assumption. reflexivity.
      * rewrite bool_decide_eq_false_2 by assumption. simpl.
        apply bool_decide_eq_true_2. apply H3; auto.
Qed.

(** One index of a valid option whose dependency is resolved and that is not
    set: NULL with the source Param when it was negated, else the default
    with the source Default, else OptionRequiredError when the option is
    required and help was not requested. *)
Lemma resolveIndex_unset_index (def : Define) (cv : Convert) (table : ParseOptionList)
    (optionId optionIdx rawIdx : nat) (cfg cfg1 : Config) (value : ParseOptionValue) :
  let commandId := command cfg in
  valueOk def optionId value = true ->
  optionRawIdx def cfg optionId optionIdx = Ok rawIdx ->
  tableValue table optionId rawIdx = Some value ->
  optionIsSet def optionId value = false ->
  cfgOptionFlagsSet cfg optionId optionIdx (negate value) (reset value) = Ok cfg1 ->
  dependCheck def commandId cfg1 optionId false value = Ok true ->
  resolveIndex def cv commandId table optionId cfg optionIdx =
    (if negate value then cfgOptionSet def cfg1 optionId cfgSourceParam None
     else
       match cfgDefOptionDefault def commandId optionId with
       | Some defaultValue =>
           cfgOptionSet def cfg1 optionId cfgSourceDefault (Some (VarStr defaultValue))
       | None =>
           if cfgDefOptionRequired def commandId optionId && negb (help cfg) then
             Throw OptionRequiredError
               (cfgCommandName def commandId +:+ " command requires option: " +:+
                cfgOptionName def optionId +:+
                (if decide (cfgDefOptionSection def optionId = cfgDefSectionStanza)
                 then LF_STR +:+ "HINT: does this stanza exist?" else ""))
           else Ok cfg1
       end)
  /\ (forall cfg',
        resolveIndex def cv commandId table optionId cfg optionIdx = Ok cfg' ->
        negate value = true ->
        exists configOption,
          option_ cfg' !! optionId = Some configOption
          /\ optionSource configOption = cfgSourceParam
          /\ optionValue configOption = None)
  /\ (forall cfg' defaultValue,
        resolveIndex def cv commandId table optionId cfg optionIdx = Ok cfg' ->
        negate value = false ->
        cfgDefOptionDefault def commandId optionId = Some defaultValue ->
        exists configOption stored,
          option_ cfg' !! optionId = Some configOption
          /\ optionSource configOption = cfgSourceDefault
          /\ cfgOptionSetValue def optionId (VarStr defaultValue) = Ok stored
          /\ optionValue configOption = Some stored).
Proof.
  intros commandId Hinv Hraw Hvalue Hset Hflags Hdepend.
  assert (Hsource : negate value = true -> source value = cfgSourceParam).
  { intros Hn. apply valueOk_valueInv in Hinv as (Hfound & Hexcl & Hparam).
    apply Hparam; [assumption|]. intros Htype.
    unfold optionIsSet in Hset. rewrite Hn in Hfound, Hexcl. simpl in *.
    rewrite (Hfound eq_refl), Hexcl, Htype in Hset.
    rewrite bool_decide_eq_true_2 in Hset by reflexivity. discriminate. }
  assert (Heq : resolveIndex def cv commandId table optionId cfg optionIdx
                = resolveUnset def commandId cfg1 optionId value).
  { rewrite (resolveIndex_eq _ _ _ _ _ _ _ _ _ Hraw Hvalue), Hflags, Hset. simpl.
    rewrite Hdepend. reflexivity. }
  destruct (cfgOptionFlagsSet_fields _ _ _ _ _ _ Hflags) as (Hcmd & Hhelp & _).
  assert (Hunset : resolveUnset def commandId cfg1 optionId value
                   = (if negate value then cfgOptionSet def cfg1 optionId cfgSourceParam None
                      else
                        match cfgDefOptionDefault def commandId optionId with
                        | Some defaultValue =>
                            cfgOptionSet def cfg1 optionId cfgSourceDefault
                              (Some (VarStr defaultValue))
                        | None =>
                            if cfgDefOptionRequired def commandId optionId
                               && negb (help cfg) then
                              Throw OptionRequiredError
                                (cfgCommandName def commandId +:+
                                 " command requires option: " +:+
                                 cfgOptionName def optionId +:+
                                 (if decide (cfgDefOptionSection def optionId
                                             = cfgDefSectionStanza)
                                  then LF_STR +:+ "HINT: does this stanza exist?"
                                  else ""))
                            else Ok cfg1
                        end)).
  { unfold resolveUnset. rewrite Hcmd, Hhelp. fold commandId.
    destruct (negate value) eqn:Hn.
    - rewrite (Hsource eq_refl). reflexivity.
    - destruct (cfgDefOptionDefault def commandId optionId); [reflexivity|].
      destruct (cfgDefOptionRequired def commandId optionId && negb (help cfg));
        [|reflexivity].
      destruct (decide (cfgDefOptionSection def optionId = cfgDefSectionStanza));
        reflexivity. }
  split; [|split].
  - rewrite Heq. exact Hunset.
  - intros cfg' Hrun Hn. rewrite Heq, Hunset, Hn in Hrun.
    apply cfgOptionSet_commit in Hrun as (o & Ho & Hs & Hv). eauto.
  - intros cfg' defaultValue Hrun Hn Hdefault.
    rewrite Heq, Hunset, Hn, Hdefault in Hrun.
    apply cfgOptionSet_commit in Hrun as (o & Ho & Hs & v' & Hv' & Hv). eauto 10.
Qed.

(** ** Phase 5: option dependencies *)

Lemma forEachR_cons {A S} (body : S -> A -> Result S) s a l :
  forEachR body s (a :: l) = (body s a ≫= fun s' => forEachR body s' l).
Proof. reflexivity. Qed.

Lemma Result_bind_Ok {A B} (a : A) (k : A -> Result B) : (Ok a ≫= k) = k a.
Proof. reflexivity. Qed.

Lemma dependValueItem_string def commandId optionId dependOptionId st listIdx :
  cfgDefOptionType def dependOptionId = cfgDefOptTypePath
  \/ cfgDefOptionType def dependOptionId = cfgDefOptTypeString ->
  dependValueItem def commandId optionId dependOptionId st listIdx
  = Ok (st.1, st.2 ++ dependValuesQuoted def commandId optionId [listIdx]).
Proof.
  intros Htype. unfold dependValueItem. destruct st as [dependOptionName dependValueList].
  destruct Htype as [Htype|Htype]; rewrite Htype; reflexivity.
Qed.

Lemma dependValueItem_strings def commandId optionId dependOptionId listIdxs :
  cfgDefOptionType def dependOptionId = cfgDefOptTypePath
  \/ cfgDefOptionType def dependOptionId = cfgDefOptTypeString ->
  forall dependOptionName dependValueList,
    forEachR (dependValueItem def commandId optionId dependOptionId)
      (dependOptionName, dependValueList) listIdxs
    = Ok (dependOptionName,
          dependValueList ++ dependValuesQuoted def commandId optionId listIdxs).
Proof.
  intros Htype. induction listIdxs as [|listIdx listIdxs IH];
    intros dependOptionName dependValueList.
  - simpl. rewrite app_nil_r. reflexivity.
  - rewrite forEachR_cons, (dependValueItem_string _ _ _ _ _ _ Htype), Result_bind_Ok.
    cbn [fst snd]. rewrite IH, <- app_assoc. reflexivity.
Qed.

Lemma dependError_strings def commandId optionId dependOptionId :
  cfgDefOptionType def dependOptionId = cfgDefOptTypePath
  \/ cfgDefOptionType def dependOptionId = cfgDefOptTypeString ->
  dependError def commandId optionId dependOptionId =
    Ok ("option '" +:+ cfgOptionName def optionId +:+ "' not valid without option '" +:+
        cfgOptionName def dependOptionId +:+ "'" +:+
        match dependValuesQuoted def commandId optionId
                (seq 0 (cfgDefOptionDependValueTotal def commandId optionId)) with
        | [] => ""
        | [v] => " = " +:+ v
        | l => " in (" +:+ strLstJoin l ", " +:+ ")"
        end).
Proof.
  intros Htype. unfold dependError.
  rewrite (dependValueItem_strings _ _ _ _ _ Htype), Result_bind_Ok.
  rewrite app_nil_l.
  destruct (dependValuesQuoted def commandId optionId _) as [|v [|v' l]]; reflexivity.
Qed.

Lemma dependValueItem_bool def commandId optionId dependOptionId st listIdx :
  cfgDefOptionType def dependOptionId = cfgDefOptTypeBoolean ->
  dependValueItem def commandId optionId dependOptionId st listIdx
  = Ok (if String.eqb (cfgDefOptionDependValue def commandId optionId listIdx) "0"
        then "no-" +:+ cfgOptionName def dependOptionId else st.1,
        st.2).
Proof.
  intros Htype. unfold dependValueItem. destruct st as [dependOptionName dependValueList].
  rewrite Htype. simpl.
  destruct (String.eqb (cfgDefOptionDependValue def commandId optionId listIdx) "0");
    reflexivity.
Qed.

Lemma dependValueItem_bools def commandId optionId dependOptionId listIdxs :
  cfgDefOptionType def dependOptionId = cfgDefOptTypeBoolean ->
  forall dependOptionName dependValueList,
    forEachR (dependValueItem def commandId optionId dependOptionId)
      (dependOptionName, dependValueList) listIdxs
    = Ok (if existsb
               (fun listIdx =>
                  String.eqb (cfgDefOptionDependValue def commandId optionId listIdx) "0")
               listIdxs
          then "no-" +:+ cfgOptionName def dependOptionId
          else dependOptionName,
          dependValueList).
Proof.
  intros Htype. induction listIdxs as [|listIdx listIdxs IH];
    intros dependOptionName dependValueList; [reflexivity|].
  rewrite forEachR_cons, (dependValueItem_bool _ _ _ _ _ _ Htype), Result_bind_Ok.
  cbn [fst snd]. rewrite IH. simpl existsb.
  destruct (String.eqb (cfgDefOptionDependValue def commandId optionId listIdx) "0");
    [|reflexivity].
  simpl. destruct (existsb _ listIdxs); reflexivity.
Qed.

Lemma dependError_bool def commandId optionId dependOptionId :
  cfgDefOptionType def dependOptionId = cfgDefOptTypeBoolean ->
  dependError def commandId optionId dependOptionId =
    Ok ("option '" +:+ cfgOptionName def optionId +:+ "' not valid without option '" +:+
        (if existsb
              (fun listIdx =>
                 String.eqb (cfgDefOptionDependValue def commandId optionId listIdx) "0")
              (seq 0 (cfgDefOptionDependValueTotal def commandId optionId))
         then "no-" +:+ cfgOptionName def dependOptionId
         else cfgOptionName def dependOptionId) +:+ "'").
Proof.
  intros Htype. unfold dependError.
  rewrite (dependValueItem_bools _ _ _ _ _ Htype), Result_bind_Ok. reflexivity.
Qed.

(** C7: the dependency check of an option that declares a depend.  The
    parser throws OptionInvalidError only for an option that is set with the
    source Param: "not valid without option" names the depend option when its
    value is NULL; when the value is not in the depend list the same message
    ends with = 'v' for one value and with in ('v1', 'v2', ...) for more,
    for a path or string depend; for a boolean depend nothing follows the
    name, which is no-<b> when a value of the depend list is "0", so when
    its only value is "0", and <b> when none is.  Else the option is not
    resolved, nothing is thrown and no value is committed. *)
Theorem dependCheck_errors (def : Define) (cv : Convert) (commandId : ConfigCommand)
    (table : ParseOptionList) (cfg cfg1 : Config) (optionId optionIdx rawIdx : nat)
    (value : ParseOptionValue) :
  let dependOptionId := cfgDefOptionDependOption def commandId optionId in
  let optionSet := optionIsSet def optionId value in
  let fromParam := optionSet && bool_decide (source value = cfgSourceParam) in
  let total := cfgDefOptionDependValueTotal def commandId optionId in
  let without := fun rest =>
    "option '" +:+ cfgOptionName def optionId +:+ "' not valid without option '" +:+
    rest in
  cfgDefOptionDepend def commandId optionId = true ->
  optionRawIdx def cfg optionId optionIdx = Ok rawIdx ->
  tableValue table optionId rawIdx = Some value ->
  cfgOptionFlagsSet cfg optionId optionIdx (negate value) (reset value) = Ok cfg1 ->
  (forall msg,
     dependCheck def commandId cfg1 optionId optionSet value = Throw OptionInvalidError msg ->
     optionSet = true /\ source value = cfgSourceParam)
  /\ (cfgOption cfg dependOptionId = None ->
      dependCheck def commandId cfg1 optionId optionSet value =
        if fromParam
        then Throw OptionInvalidError (without (cfgOptionName def dependOptionId +:+ "'"))
        else Ok false)
  /\ (forall v,
        cfgOption cfg dependOptionId = Some (VarStr v) ->
        cfgDefOptionType def dependOptionId = cfgDefOptTypePath
        \/ cfgDefOptionType def dependOptionId = cfgDefOptTypeString ->
        0 < total ->
        cfgDefOptionDependValueValid def commandId optionId v = false ->
        dependCheck def commandId cfg1 optionId optionSet value =
          if fromParam then
            Throw OptionInvalidError
              (without
                 (cfgOptionName def dependOptionId +:+ "'" +:+
                  (if total =? 1
                   then " = '" +:+ cfgDefOptionDependValue def commandId optionId 0 +:+ "'"
                   else " in (" +:+
                        strLstJoin
                          (dependValuesQuoted def commandId optionId (seq 0 total))
                          ", " +:+ ")")))
          else Ok false)
  /\ (forall b : bool,
        cfgOption cfg dependOptionId = Some (VarBool b) ->
        cfgDefOptionType def dependOptionId = cfgDefOptTypeBoolean ->
        0 < total ->
        cfgDefOptionDependValueValid def commandId optionId (if b then "1" else "0")
        = false ->
        dependCheck def commandId cfg1 optionId optionSet value =
          if fromParam
          then Throw OptionInvalidError
                 (without
                    ((if existsb
                           (fun listIdx =>
                              String.eqb
                                (cfgDefOptionDependValue def commandId optionId listIdx)
                                "0")
                           (seq 0 total)
                      then "no-" +:+ cfgOptionName def dependOptionId
                      else cfgOptionName def dependOptionId) +:+ "'"))
          else Ok false)
  /\ (forall b : bool,
        cfgOption cfg dependOptionId = Some (VarBool b) ->
        cfgDefOptionType def dependOptionId = cfgDefOptTypeBoolean ->
        total = 1 ->
        cfgDefOptionDependValue def commandId optionId 0 <> "0" ->
        cfgDefOptionDependValueValid def commandId optionId (if b then "1" else "0")
        = false ->
        dependCheck def commandId cfg1 optionId optionSet value =
          if fromParam
          then Throw OptionInvalidError (without (cfgOptionName def dependOptionId +:+ "'"))
          else Ok false)
  /\ (forall b : bool,
        cfgOption cfg dependOptionId = Some (VarBool b) ->
        cfgDefOptionType def dependOptionId = cfgDefOptTypeBoolean ->
        total = 1 ->
        cfgDefOptionDependValue def commandId optionId 0 = "0" ->
        cfgDefOptionDependValueValid def commandId optionId (if b then "1" else "0")
        = false ->
        dependCheck def commandId cfg1 optionId optionSet value =
          if fromParam
          then Throw OptionInvalidError
                 (without (("no-" +:+ cfgOptionName def dependOptionId) +:+ "'"))
          else Ok false)
  /\ (dependCheck def commandId cfg1 optionId optionSet value = Ok false ->
      resolveIndex def cv commandId table optionId cfg optionIdx = Ok cfg1
      /\ forall optionId', cfgOption cfg1 optionId' = cfgOption cfg optionId').
Proof.
  intros dependOptionId optionSet fromParam total without Hdepend Hraw Hvalue Hflags.
  destruct (cfgOptionFlagsSet_fields _ _ _ _ _ _ Hflags) as (_ & _ & _ & Hcfg).
  assert (Hbool : forall b : bool,
            cfgOption cfg dependOptionId = Some (VarBool b) ->
            cfgDefOptionType def dependOptionId = cfgDefOptTypeBoolean ->
            0 < total ->
            cfgDefOptionDependValueValid def commandId optionId (if b then "1" else "0")
            = false ->
            dependCheck def commandId cfg1 optionId optionSet value =
              if fromParam
              then Throw OptionInvalidError
                     (without
                        ((if existsb
                               (fun listIdx =>
                                  String.eqb
                                    (cfgDefOptionDependValue def commandId optionId listIdx)
                                    "0")
                               (seq 0 total)
                          then "no-" +:+ cfgOptionName def dependOptionId
                          else cfgOptionName def dependOptionId) +:+ "'"))
              else Ok false).
  { intros b Hb Htype Htotal Hvalid. unfold dependCheck.
    rewrite Hdepend. fold dependOptionId total. rewrite Hcfg, Hb.
    destruct (decide (cfgDefOptionType def dependOptionId = cfgDefOptTypeBoolean));
      [|contradiction].
    unfold varBool. rewrite !Result_bind_Ok.
    apply Nat.ltb_lt in Htotal as Htotalb. rewrite Htotalb.
    unfold varStr. rewrite Result_bind_Ok.
    replace (if b then OPTION_VALUE_1 else OPTION_VALUE_0)
      with (if b then "1" else "0") by (destruct b; reflexivity).
    rewrite Hvalid. simpl negb. rewrite andb_true_l.
    fold fromParam. destruct fromParam; [|reflexivity].
    rewrite (dependError_bool _ _ _ _ Htype). fold total. reflexivity. }
  split; [|split; [|split; [|split; [|split; [|split]]]]].
  - clear fromParam Hbool. clearbody optionSet.
    intros msg. unfold dependCheck. rewrite Hdepend. fold dependOptionId.
    unfold mbind, Result_bind, varBool, varStr.
    intros Hrun. repeat case_match; simplify_eq;
      match goal with
      | H : _ && bool_decide _ = true |- _ =>
          let Hset := fresh "Hset" in
          let Hsrc := fresh "Hsrc" in
          apply andb_prop in H as [Hset Hsrc]; apply bool_decide_eq_true_1 in Hsrc;
          try (apply andb_prop in Hset as [_ Hset]); auto
      end.
  - intros Hnull. unfold dependCheck. rewrite Hdepend. fold dependOptionId.
    rewrite Hcfg, Hnull. reflexivity.
  - intros v Hv Htype Htotal Hvalid. unfold dependCheck.
    rewrite Hdepend. fold dependOptionId total. rewrite Hcfg, Hv.
    assert (Hnotbool : cfgDefOptionType def dependOptionId <> cfgDefOptTypeBoolean)
      by (destruct Htype as [-> | ->]; discriminate).
    destruct (decide (cfgDefOptionType def dependOptionId = cfgDefOptTypeBoolean));
      [contradiction|].
    rewrite Result_bind_Ok. apply Nat.ltb_lt in Htotal as Htotalb. rewrite Htotalb.
    unfold varStr. rewrite Result_bind_Ok, Hvalid. simpl negb. rewrite andb_true_l.
    fold fromParam. destruct fromParam; [|reflexivity].
    rewrite (dependError_strings _ _ _ _ Htype). fold total. rewrite Result_bind_Ok.
    f_equal. unfold without. do 4 f_equal.
    destruct total as [|[|total']]; [lia|reflexivity|].
    reflexivity.
  - exact Hbool.
  - intros b Hb Htype Htotal Hzero Hvalid.
    rewrite (Hbool b Hb Htype ltac:(lia) Hvalid), Htotal. simpl.
    apply String.eqb_neq in Hzero. rewrite Hzero. reflexivity.
  - intros b Hb Htype Htotal Hzero Hvalid. unfold dependCheck.
    rewrite Hdepend. fold dependOptionId total. rewrite Hcfg, Hb, Htype.
    simpl. rewrite Htotal. simpl.
    unfold OPTION_VALUE_1, OPTION_VALUE_0. rewrite Hvalid. simpl.
    fold fromParam. destruct fromParam; [|reflexivity].
    unfold dependError. fold total. rewrite Htotal. simpl.
    unfold dependValueItem. rewrite Htype, Hzero. reflexivity.
  - intros Hrun. split; [|exact Hcfg].
    rewrite (resolveIndex_eq _ _ _ _ _ _ _ _ _ Hraw Hvalue), Hflags.
    rewrite Result_bind_Ok. fold optionSet. rewrite Hrun. reflexivity.
Qed.

Lemma dependCheck_errors_witness :
  let value := Sample.valueFound cfgSourceParam ["/x"] in
  (cfgOption (Sample.configFor Sample.cmdArchivePush) Sample.optArchiveAsync = None
   /\ dependCheck Sample.define Sample.cmdArchivePush
        (Sample.configFlags (Sample.configFor Sample.cmdArchivePush)
           Sample.optSpoolPath 0 value)
        Sample.optSpoolPath true value
      = Throw OptionInvalidError
          "option 'spool-path' not valid without option 'archive-async'")
  /\ (cfgOption (Sample.configArchiveAsync false) Sample.optArchiveAsync
      = Some (VarBool false)
      /\ cfgDefOptionDependValue Sample.define Sample.cmdArchivePush Sample.optSpoolPath 0
         = "1"
      /\ dependCheck Sample.define Sample.cmdArchivePush
           (Sample.configFlags (Sample.configArchiveAsync false) Sample.optSpoolPath 0
              value)
           Sample.optSpoolPath true value
         = Throw OptionInvalidError
             "option 'spool-path' not valid without option 'archive-async'")
  /\ (cfgOption (Sample.configArchiveAsync true) Sample.optArchiveAsync
      = Some (VarBool true)
      /\ cfgDefOptionDependValue (Sample.defineDepend ["0"]) Sample.cmdArchivePush
           Sample.optSpoolPath 0
         = "0"
      /\ dependCheck (Sample.defineDepend ["0"]) Sample.cmdArchivePush
           (Sample.configFlags (Sample.configArchiveAsync true) Sample.optSpoolPath 0
              value)
           Sample.optSpoolPath true value
         = Throw OptionInvalidError
             "option 'spool-path' not valid without option 'no-archive-async'").
Proof.
  cbv zeta. split; [|split].
  - split; [reflexivity|].
    destruct (dependCheck_errors Sample.define Sample.convertNone Sample.cmdArchivePush
                Sample.tableSpoolPath (Sample.configFor Sample.cmdArchivePush)
                (Sample.configFlags (Sample.configFor Sample.cmdArchivePush)
                   Sample.optSpoolPath 0 (Sample.valueFound cfgSourceParam ["/x"]))
                Sample.optSpoolPath 0 0 (Sample.valueFound cfgSourceParam ["/x"]))
      as (_ & Hnull & _); [reflexivity..|].
    apply Hnull. reflexivity.
  - split; [reflexivity|]. split; [reflexivity|].
    destruct (dependCheck_errors Sample.define Sample.convertNone Sample.cmdArchivePush
                Sample.tableSpoolPath (Sample.configArchiveAsync false)
                (Sample.configFlags (Sample.configArchiveAsync false)
                   Sample.optSpoolPath 0 (Sample.valueFound cfgSourceParam ["/x"]))
                Sample.optSpoolPath 0 0 (Sample.valueFound cfgSourceParam ["/x"]))
      as (_ & _ & _ & _ & Hone & _); [reflexivity..|].
    apply (Hone false); [reflexivity | reflexivity | reflexivity | discriminate
                        | reflexivity].
  - split; [reflexivity|]. split; [reflexivity|].
    destruct (dependCheck_errors (Sample.defineDepend ["0"]) Sample.convertNone
                Sample.cmdArchivePush
                Sample.tableSpoolPath (Sample.configArchiveAsync true)
                (Sample.configFlags (Sample.configArchiveAsync true)
                   Sample.optSpoolPath 0 (Sample.valueFound cfgSourceParam ["/x"]))
                Sample.optSpoolPath 0 0 (Sample.valueFound cfgSourceParam ["/x"]))
      as (_ & _ & _ & _ & _ & Hzero & _); [reflexivity..|].
    apply (Hzero true); reflexivity.
Defined.

(** ** Phase 5: the allow list *)

(** C10: the allow list is checked for every type that is not Boolean, Hash
    or List.  For Integer, Float and Size a value that is converted to a
    number in the allowed range, and for Path and String a value that passes
    the check of its type, is not committed when the option has an allow list
    that does not hold the value: the parser throws OptionInvalidValueError
    with the value as it is after the check. *)
Theorem resolveIndex_allow_list (def : Define) (cv : Convert) (commandId : ConfigCommand)
    (table : ParseOptionList) (cfg cfg1 : Config) (optionId optionIdx rawIdx : nat)
    (parseOptionValue : ParseOptionValue) (value value' : string) (values : list string) :
  let optionDefType := cfgDefOptionType def optionId in
  optionRawIdx def cfg optionId optionIdx = Ok rawIdx ->
  tableValue table optionId rawIdx = Some parseOptionValue ->
  optionIsSet def optionId parseOptionValue = true ->
  cfgOptionFlagsSet cfg optionId optionIdx (negate parseOptionValue)
    (reset parseOptionValue) = Ok cfg1 ->
  dependCheck def commandId cfg1 optionId true parseOptionValue = Ok true ->
  valueList parseOptionValue = Some (value :: values) ->
  ((optionDefType = cfgDefOptTypeInteger \/ optionDefType = cfgDefOptTypeFloat
    \/ optionDefType = cfgDefOptTypeSize)
   /\ exists valueDbl,
        numericValue cv optionDefType value = Ok (value', valueDbl)
        /\ outOfRange def commandId optionId valueDbl = false)
  \/ (optionDefType = cfgDefOptTypePath /\ checkPath def optionId value = Ok value')
  \/ (optionDefType = cfgDefOptTypeString /\ value' = value) ->
  cfgDefOptionAllowList def commandId optionId = true ->
  cfgDefOptionAllowListValueValid def commandId optionId value' = false ->
  resolveIndex def cv commandId table optionId cfg optionIdx =
    Throw OptionInvalidValueError
      ("'" +:+ value' +:+ "' is not allowed for '" +:+ cfgOptionName def optionId +:+
       "' option").
Proof.
  intros optionDefType Hraw Hvalue Hset Hflags Hdepend Hlist Hcheck Hallow Hvalid.
  rewrite (resolveIndex_eq _ _ _ _ _ _ _ _ _ Hraw Hvalue), Hflags, Result_bind_Ok.
  rewrite Hset, Hdepend, Result_bind_Ok. fold optionDefType.
  unfold resolveSet, resolveScalar. rewrite Hlist, !Result_bind_Ok.
  destruct Hcheck as [[Htype (valueDbl & Hnum & Hrange)] | [[Htype Hpath] | [Htype ->]]].
  - unfold checkNumeric. rewrite Hnum, Hrange.
    destruct Htype as [-> | [-> | ->]]; simpl; rewrite Hallow, Hvalid; reflexivity.
  - rewrite Htype. simpl. rewrite Hpath. simpl. rewrite Hallow, Hvalid. reflexivity.
  - rewrite Htype. simpl. rewrite Hallow, Hvalid. reflexivity.
Qed.

Lemma resolveIndex_allow_list_witness :
  resolveIndex Sample.define specConvert Sample.cmdBackup Sample.tableBufferSize
    Sample.optBufferSize Sample.configBackup 0
  = Throw OptionInvalidValueError "'2097152' is not allowed for 'buffer-size' option".
Proof.
  apply (resolveIndex_allow_list Sample.define specConvert Sample.cmdBackup
           Sample.tableBufferSize Sample.configBackup
           (Sample.configFlags Sample.configBackup Sample.optBufferSize 0
              (Sample.valueFound cfgSourceParam ["2MB"]))
           Sample.optBufferSize 0 0 (Sample.valueFound cfgSourceParam ["2MB"])
           "2MB" "2097152" []);
    try reflexivity.
  left. split; [right; right; reflexivity|].
  exists 2097152%float. split; reflexivity.
Defined.

(** ** The end of Phase 1 *)

Lemma parseStep_options def st r st' :
  parseStep def st r = Ok st' -> sameOptions (config st) (config st').
Proof.
  unfold parseStep, mbind, Result_bind. intros Hrun.
  destruct r as [arg|arg|arg|optionListIdx optarg]; try discriminate.
  - unfold parseArg, mbind, Result_bind in Hrun.
    repeat case_match; simplify_eq; simpl; split; reflexivity.
  - unfold parseOption, ASSERT, mbind, Result_bind in Hrun.
    repeat case_match; simplify_eq; simpl; split; reflexivity.
Qed.

Lemma parseLoop_options def args :
  forall st st', parseLoop def st args = Ok st' -> sameOptions (config st) (config st').
Proof.
  induction args as [|r args IH]; intros st st' Hrun; simpl in Hrun.
  - simplify_eq. split; reflexivity.
  - unfold mbind, Result_bind in Hrun.
    destruct (parseStep def st r) as [st1| | |] eqn:Hstep; try discriminate.
    apply parseStep_options in Hstep as [Ho Hg]. apply IH in Hrun as [Ho' Hg'].
    split; congruence.
Qed.

Lemma parseEnd_options def st cfg :
  parseEnd def st = Ok cfg -> sameOptions (config st) cfg.
Proof.
  unfold parseEnd, mbind, Result_bind. intros Hrun.
  repeat case_match; simplify_eq; simpl; split; reflexivity.
Qed.

(** C9: when Phase 1 ends with no command, with the help command or with the
    version command, [configParse] returns the configuration of Phase 1.
    The only call outside the parser is the one that enables logging: the
    environment is not read and the storage is not used, whatever they hold,
    and no option is marked valid or given a value. *)
Theorem configParse_no_command (def : Define) (cv : Convert) (sys : System)
    (exePath : string) (args : list GetoptResult) (resetLogLevel : bool)
    (st : ParseState) (cfg : Config) :
  parseLoop def (parseStateInit def exePath) args = Ok st ->
  parseEnd def st = Ok cfg ->
  command cfg = cfgCmdNone \/ command cfg = cfgCmdHelp \/ command cfg = cfgCmdVersion ->
  runM (configParse def cv sys exePath args resetLogLevel)
  = (Ok cfg,
     if bool_decide (commandRole cfg <> cfgCmdRoleLocal)
        && bool_decide (commandRole cfg <> cfgCmdRoleRemote) && resetLogLevel
     then [EvLogInit] else [])
  /\ (forall cv' sys' log,
        configParse def cv' sys' exePath args resetLogLevel log
        = configParse def cv sys exePath args resetLogLevel log)
  /\ option_ cfg = replicate (CFG_OPTION_TOTAL def) configOptionZero
  /\ optionGroup cfg = replicate (CFG_OPTION_GROUP_TOTAL def) (configGroupZero def).
Proof.
  intros Hloop Hend Hcommand.
  assert (Hgate : commandNeedsOptions (command cfg) = false)
    by (destruct Hcommand as [-> | [-> | ->]]; reflexivity).
  assert (Hrun : forall cv' sys' log,
            configParse def cv' sys' exePath args resetLogLevel log
            = (Ok cfg,
               log ++
               if bool_decide (commandRole cfg <> cfgCmdRoleLocal)
                  && bool_decide (commandRole cfg <> cfgCmdRoleRemote) && resetLogLevel
               then [EvLogInit] else [])).
  { intros cv' sys' log. unfold configParse. unfold_M. rewrite Hloop, Hend.
    destruct (bool_decide (commandRole cfg <> cfgCmdRoleLocal)
              && bool_decide (commandRole cfg <> cfgCmdRoleRemote) && resetLogLevel);
      rewrite Hgate; [reflexivity|]. rewrite app_nil_r. reflexivity. }
  split; [|split].
  - unfold runM. rewrite Hrun. reflexivity.
  - intros cv' sys' log. rewrite !Hrun. reflexivity.
  - apply parseLoop_options in Hloop as [Ho Hg].
    apply parseEnd_options in Hend as [Ho' Hg'].
    rewrite Ho', Ho, Hg', Hg. split; reflexivity.
Qed.

Lemma configParse_no_command_witness :
  runM (configParse Sample.define specConvert Sample.system "pgbackrest"
          [GetoptArg "help"] true)
  = (Ok (mkConfig cfgCmdHelp cfgCmdRoleDefault true "pgbackrest" None
           (replicate 15 configOptionZero) [configGroupZero Sample.define]),
     [EvLogInit]).
Proof.
  apply (configParse_no_command Sample.define specConvert Sample.system "pgbackrest"
           [GetoptArg "help"] true
           (mkParseState
              (mkConfig cfgCmdHelp cfgCmdRoleDefault true "pgbackrest" None
                 (replicate 15 configOptionZero) [configGroupZero Sample.define])
              (parseOptionListInit 15) false None true)).
  - reflexivity.
  - reflexivity.
  - right. left. reflexivity.
Defined.

(** ** Phase 4: the indexes of the groups *)

Lemma forEachR_app {A S} (body : S -> A -> Result S) l1 l2 s :
  forEachR body s (l1 ++ l2) = (forEachR body s l1 ≫= fun s' => forEachR body s' l2).
Proof.
  revert s. induction l1 as [|a l1 IH]; intros s; simpl; [reflexivity|].
  destruct (body s a); simpl; auto.
Qed.

(** A loop over a range that keeps an invariant does not fail. *)
Lemma forEachR_seq_inv {St} (P : nat -> St -> Prop) (body : St -> nat -> Result St) n :
  forall k s0,
    P k s0 ->
    (forall i s, k <= i < k + n -> P i s -> exists s', body s i = Ok s' /\ P (S i) s') ->
    exists s', forEachR body s0 (seq k n) = Ok s' /\ P (k + n) s'.
Proof.
  induction n as [|n IH]; intros k s0 HP Hstep; simpl.
  - exists s0. rewrite Nat.add_0_r. auto.
  - destruct (Hstep k s0) as (s1 & Hs1 & HP1); [lia|assumption|].
    rewrite Hs1, Result_bind_Ok.
    destruct (IH (S k) s1 HP1) as (s' & Hs' & HP').
    { intros i s Hi. apply Hstep. lia. }
    exists s'. split; [assumption|]. replace (k + S n) with (S k + n) by lia. assumption.
Qed.

Lemma countTrue_app row1 row2 : countTrue (row1 ++ row2) = countTrue row1 + countTrue row2.
Proof. induction row1 as [|b row1 IH]; simpl; [reflexivity|]. rewrite IH. lia. Qed.

Lemma countTrue_insert row idx :
  row !! idx = Some false -> countTrue (<[idx := true]> row) = S (countTrue row).
Proof.
  intros Hidx. pose proof (lookup_lt_Some _ _ _ Hidx) as Hlt.
  rewrite insert_take_drop by assumption.
  rewrite <- (take_drop_middle _ _ _ Hidx) at 3.
  rewrite !countTrue_app. simpl. lia.
Qed.

Lemma countTrue_filter (F : nat -> bool) l :
  countTrue (map F l) = length (List.filter F l).
Proof.
  induction l as [|a l IH]; simpl; [reflexivity|].
  destruct (F a); simpl; rewrite IH; reflexivity.
Qed.

(** A row of [groupIdxMap] that holds [F] at each index. *)
Lemma row_map (F : nat -> bool) (row : list bool) n :
  length row = n -> (forall idx, idx < n -> row !! idx = Some (F idx)) ->
  row = map F (seq 0 n).
Proof.
  intros Hlen Hrow. apply list_eq. intros idx.
  destruct (decide (idx < n)) as [Hlt|Hge].
  - rewrite Hrow by assumption. rewrite list_lookup_fmap, lookup_seq_lt by assumption.
    reflexivity.
  - rewrite !lookup_ge_None_2; [reflexivity| |].
    + rewrite length_map, length_seq. lia.
    + lia.
Qed.

Section Groups.
Context (def : Define).

Local Abbreviation groupsInv := (groupsInv def).
Local Abbreviation groupStateInv := (groupStateInv def).

Lemma groupsInv_ext F F' st :
  (forall groupId optionIdx,
     groupId < CFG_OPTION_GROUP_TOTAL def -> optionIdx < CFG_OPTION_INDEX_MAX def ->
     F groupId optionIdx = F' groupId optionIdx) ->
  groupsInv F st -> groupsInv F' st.
Proof.
  intros Hext (Hl1 & Hl2 & Hrows). split; [assumption|]. split; [assumption|].
  intros groupId Hg.
  destruct (Hrows groupId Hg) as (group & row & H1 & H2 & H3 & H4 & H5 & H6).
  exists group, row. repeat (split; [assumption|]).
  intros optionIdx Hidx. rewrite H6 by assumption. rewrite Hext by assumption. reflexivity.
Qed.

Lemma groupMark_inv F parseOption groupId st optionIdx value :
  groupsInv F st ->
  groupId < CFG_OPTION_GROUP_TOTAL def ->
  optionIdx < CFG_OPTION_INDEX_MAX def ->
  indexList parseOption !! optionIdx = Some value ->
  exists st',
    groupMark parseOption groupId st optionIdx = Ok st'
    /\ groupsInv (fun g idx => F g idx || ((g =? groupId) && (idx =? optionIdx) && found value))
         st'.
Proof.
  intros Hinv Hg Hidx Hvalue. destruct st as [groups map].
  unfold groupMark, arrayGet. rewrite Hvalue, Result_bind_Ok.
  destruct (found value) eqn:Hfound.
  - destruct Hinv as (Hl1 & Hl2 & Hrows). simpl in Hl1, Hl2.
    destruct (Hrows groupId Hg) as (group & row & H1 & H2 & H3 & H4 & H5 & H6).
    simpl in H1, H2. rewrite H2, Result_bind_Ok, (H6 _ Hidx), Result_bind_Ok.
    destruct (F groupId optionIdx) eqn:HF; simpl negb; cbv iota.
    + exists (groups, map). split; [reflexivity|].
      apply (groupsInv_ext F); [|repeat split; assumption].
      intros g idx _ _.
      destruct (Nat.eqb_spec g groupId) as [->|]; [|rewrite orb_false_r; reflexivity].
      destruct (Nat.eqb_spec idx optionIdx) as [->|]; [|rewrite orb_false_r; reflexivity].
      rewrite HF. reflexivity.
    + rewrite H1, Result_bind_Ok. unfold arraySet.
      assert (Hgl : (groupId <? length groups) = true) by (apply Nat.ltb_lt; lia).
      assert (Hgm : (groupId <? length map) = true) by (apply Nat.ltb_lt; lia).
      assert (Hil : (optionIdx <? length row) = true) by (apply Nat.ltb_lt; lia).
      rewrite Hgl, Result_bind_Ok, Hil, Result_bind_Ok, Hgm, Result_bind_Ok.
      eexists. split; [reflexivity|].
      split; [simpl; rewrite length_insert; assumption|].
      split; [simpl; rewrite length_insert; assumption|].
      intros g Hg'. simpl.
      destruct (decide (g = groupId)) as [->|Hne].
      * rewrite !list_lookup_insert_eq by lia.
        eexists _, _. split; [reflexivity|]. split; [reflexivity|].
        split; [rewrite length_insert; assumption|]. split; [simpl; assumption|].
        split; [simpl; rewrite countTrue_insert by (rewrite (H6 _ Hidx), HF; reflexivity); lia|].
        intros idx Hidx'. rewrite Nat.eqb_refl. simpl andb.
        destruct (Nat.eqb_spec idx optionIdx) as [->|Hne].
        -- rewrite list_lookup_insert_eq by lia. rewrite orb_true_r. reflexivity.
        -- rewrite list_lookup_insert_ne by congruence.
           rewrite orb_false_r. apply H6. assumption.
      * rewrite !list_lookup_insert_ne by congruence.
        destruct (Hrows g Hg') as (group' & row' & G1 & G2 & G3 & G4 & G5 & G6).
        exists group', row'. repeat (split; [assumption|]).
        intros idx Hidx'. rewrite (proj2 (Nat.eqb_neq g groupId)) by assumption.
        rewrite orb_false_r. apply G6. assumption.
  - exists (groups, map). split; [reflexivity|].
    apply (groupsInv_ext F); [|assumption].
    intros g idx _ _. rewrite andb_false_r, orb_false_r. reflexivity.
Qed.

Lemma groupMarks_inv F parseOption groupId st :
  groupsInv F st ->
  groupId < CFG_OPTION_GROUP_TOTAL def ->
  indexListTotal parseOption <= length (indexList parseOption) ->
  indexListTotal parseOption <= CFG_OPTION_INDEX_MAX def ->
  exists st',
    forEachR (groupMark parseOption groupId) st (seq 0 (indexListTotal parseOption)) = Ok st'
    /\ groupsInv
         (fun g idx =>
            F g idx
            || ((g =? groupId) && (idx <? indexListTotal parseOption)
                && from_option found false (indexList parseOption !! idx))) st'.
Proof.
  intros Hinv Hg Hlen Hmax.
  apply (forEachR_seq_inv
           (fun j st =>
              groupsInv
                (fun g idx =>
                   F g idx
                   || ((g =? groupId) && (idx <? j)
                       && from_option found false (indexList parseOption !! idx))) st)).
  - apply (groupsInv_ext F); [|assumption].
    intros g idx _ _. rewrite andb_false_r, orb_false_r. reflexivity.
  - intros j st' Hj Hst'.
    destruct (lookup_lt_is_Some_2 (indexList parseOption) j) as [value Hvalue]; [lia|].
    destruct (groupMark_inv _ parseOption groupId st' j value Hst' Hg) as (st'' & Hrun & Hinv'');
      [lia|assumption|].
    exists st''. split; [assumption|].
    eapply groupsInv_ext; [|exact Hinv''].
    intros g idx _ _. cbv beta.
    destruct (Nat.eqb_spec idx j) as [->|Hne].
    + rewrite Hvalue. simpl from_option.
      destruct (F g j), (g =? groupId), (found value), (Nat.ltb_spec j j),
        (Nat.ltb_spec j (S j)); simpl; try lia; reflexivity.
    + destruct (F g idx), (g =? groupId),
        (from_option found false (indexList parseOption !! idx)),
        (Nat.ltb_spec idx j), (Nat.ltb_spec idx (S j)); simpl; try lia; reflexivity.
Qed.

Lemma groupMarked_S commandId table n groupId optionIdx :
  groupMarked def commandId table (S n) groupId optionIdx
  = groupMarked def commandId table n groupId optionIdx
    || groupMember def commandId table groupId optionIdx n.
Proof.
  unfold groupMarked. rewrite seq_S, existsb_app. simpl. rewrite orb_false_r. reflexivity.
Qed.

Lemma foundAt_lookup table optionId optionIdx parseOption :
  table !! optionId = Some parseOption ->
  foundAt table optionId optionIdx
  = (optionIdx <? indexListTotal parseOption)
    && from_option found false (indexList parseOption !! optionIdx).
Proof.
  intros Hpo. unfold foundAt, tableValue, parseOptionIdxValue. rewrite Hpo.
  destruct (optionIdx <? indexListTotal parseOption); reflexivity.
Qed.

Lemma groupOption_inv commandId table st optionId parseOption :
  table !! optionId = Some parseOption ->
  optionId < CFG_OPTION_TOTAL def ->
  indexListTotal parseOption <= length (indexList parseOption) ->
  indexListTotal parseOption <= CFG_OPTION_INDEX_MAX def ->
  (cfgOptionGroup def optionId = true ->
   cfgOptionGroupId def optionId < CFG_OPTION_GROUP_TOTAL def) ->
  (cfgDefOptionValid def commandId optionId = false -> indexListTotal parseOption = 0) ->
  groupStateInv commandId table optionId st ->
  exists st',
    groupOption def commandId table st optionId = Ok st'
    /\ groupStateInv commandId table (S optionId) st'.
Proof.
  intros Hpo Hid Hlen Hmax Hgroup Hvalid [Hopts Hinv].
  unfold groupOption, arrayGet. rewrite Hpo, Result_bind_Ok.
  destruct (cfgDefOptionValid def commandId optionId) eqn:Hv.
  - destruct (lookup_lt_is_Some_2 (gsOption st) optionId) as [o Ho]; [lia|].
    rewrite Ho, Result_bind_Ok. unfold arraySet.
    rewrite (proj2 (Nat.ltb_lt optionId (length (gsOption st)))) by lia.
    rewrite Result_bind_Ok.
    destruct (cfgOptionGroup def optionId) eqn:Hgrp.
    + destruct (groupMarks_inv _ parseOption (cfgOptionGroupId def optionId) _ Hinv
                  (Hgroup eq_refl) Hlen Hmax) as ([groups map] & Hrun & Hinv').
      rewrite Hrun, Result_bind_Ok. eexists. split; [reflexivity|].
      split; [simpl; rewrite length_insert; assumption|]. simpl.
      eapply groupsInv_ext; [|exact Hinv'].
      intros g idx _ _. cbv beta. rewrite groupMarked_S. f_equal.
      unfold groupMember. rewrite Hv, Hgrp, (foundAt_lookup _ _ _ _ Hpo).
      simpl andb. rewrite (Nat.eqb_sym g). rewrite andb_assoc. reflexivity.
    + eexists. split; [reflexivity|].
      split; [simpl; rewrite length_insert; assumption|]. simpl.
      eapply groupsInv_ext; [|exact Hinv].
      intros g idx _ _. rewrite groupMarked_S. unfold groupMember.
      rewrite Hv, Hgrp. simpl. rewrite orb_false_r. reflexivity.
  - rewrite (Hvalid eq_refl). simpl. exists st. split; [reflexivity|].
    split; [assumption|].
    eapply groupsInv_ext; [|exact Hinv].
    intros g idx _ _. rewrite groupMarked_S. unfold groupMember.
    rewrite Hv. simpl. rewrite orb_false_r. reflexivity.
Qed.

Lemma countTrue_le row : countTrue row <= length row.
Proof. induction row as [|[] row IH]; simpl; lia. Qed.

(** Write the indexes into the group in order. *)
Lemma groupWrite_loop row indexes :
  length row = CFG_OPTION_INDEX_MAX def ->
  length indexes = CFG_OPTION_INDEX_MAX def ->
  exists indexes',
    forEachR (groupWrite row) (indexes, 0) (seq 0 (CFG_OPTION_INDEX_MAX def))
    = Ok (indexes', countTrue row)
    /\ length indexes' = CFG_OPTION_INDEX_MAX def
    /\ take (countTrue row) indexes'
       = List.filter (fun idx => default false (row !! idx))
           (seq 0 (CFG_OPTION_INDEX_MAX def)).
Proof.
  intros Hrow Hindexes.
  destruct (forEachR_seq_inv
              (fun j (st : list nat * nat) =>
                 length st.1 = CFG_OPTION_INDEX_MAX def
                 /\ st.2 = countTrue (take j row)
                 /\ take st.2 st.1
                    = List.filter (fun idx => default false (row !! idx)) (seq 0 j))
              (groupWrite row) (CFG_OPTION_INDEX_MAX def) 0 (indexes, 0))
    as ([indexes' k] & Hrun & Hlen & Hk & Htake).
  - simpl. auto.
  - intros j [ixs k] Hj (Hlen & Hk & Htake). simpl in Hlen, Hk, Htake.
    destruct (lookup_lt_is_Some_2 row j) as [b Hb]; [lia|].
    unfold groupWrite, arrayGet. rewrite Hb, Result_bind_Ok.
    assert (Hkj : k <= j).
    { rewrite Hk. etransitivity; [apply countTrue_le|]. rewrite length_take. lia. }
    rewrite (take_S_r _ _ _ Hb), countTrue_app, seq_S, List.filter_app. simpl.
    rewrite Hb. simpl. destruct b; simpl.
    + unfold arraySet. rewrite (proj2 (Nat.ltb_lt k (length ixs))) by lia.
      rewrite Result_bind_Ok. eexists. split; [reflexivity|]. simpl.
      split; [rewrite length_insert; assumption|]. split; [lia|].
      replace (countTrue (take j row) + 1) with (S k) by lia.
      rewrite (take_S_r _ _ j) by (apply list_lookup_insert_eq; lia).
      rewrite take_insert_ge by lia. rewrite Htake. reflexivity.
    + eexists. split; [reflexivity|]. simpl. split; [assumption|]. split; [lia|].
      rewrite app_nil_r. assumption.
  - simpl in Hlen, Hk, Htake.
    assert (Hall : take (CFG_OPTION_INDEX_MAX def) row = row)
      by (rewrite <- Hrow; apply firstn_all).
    rewrite Hall in Hk. subst k. exists indexes'. auto.
Qed.

Lemma groupIndexes_loop F groups map :
  groupsInv F (groups, map) ->
  exists groups',
    forEachR (groupIndexes def map) groups (seq 0 (CFG_OPTION_GROUP_TOTAL def)) = Ok groups'
    /\ forall groupId, groupId < CFG_OPTION_GROUP_TOTAL def ->
         exists group,
           groups' !! groupId = Some group
           /\ indexTotal group
              = length (List.filter (F groupId) (seq 0 (CFG_OPTION_INDEX_MAX def)))
           /\ take (indexTotal group) (groupIndex group)
              = List.filter (F groupId) (seq 0 (CFG_OPTION_INDEX_MAX def)).
Proof.
  intros (Hl1 & Hl2 & Hrows). simpl in Hl1, Hl2, Hrows.
  destruct (forEachR_seq_inv
              (fun g (groups' : list ConfigOptionGroup) =>
                 length groups' = CFG_OPTION_GROUP_TOTAL def
                 /\ forall groupId, groupId < CFG_OPTION_GROUP_TOTAL def ->
                      exists group row,
                        groups' !! groupId = Some group /\ map !! groupId = Some row
                        /\ length row = CFG_OPTION_INDEX_MAX def
                        /\ length (groupIndex group) = CFG_OPTION_INDEX_MAX def
                        /\ indexTotal group = countTrue row
                        /\ row = List.map (F groupId) (seq 0 (CFG_OPTION_INDEX_MAX def))
                        /\ (groupId < g ->
                            take (indexTotal group) (groupIndex group)
                            = List.filter (F groupId) (seq 0 (CFG_OPTION_INDEX_MAX def))))
              (groupIndexes def map) (CFG_OPTION_GROUP_TOTAL def) 0 groups)
    as (groups' & Hrun & Hlen & Hfinal).
  - split; [assumption|]. intros groupId Hg.
    destruct (Hrows groupId Hg) as (group & row & H1 & H2 & H3 & H4 & H5 & H6).
    exists group, row. repeat (split; [assumption|]).
    split; [apply row_map; assumption | lia].
  - intros g groups1 Hg (Hlen1 & Hinv1).
    destruct (Hinv1 g) as (group & row & H1 & H2 & H3 & H4 & H5 & H6 & _); [lia|].
    unfold groupIndexes, arrayGet. rewrite H2, Result_bind_Ok, H1, Result_bind_Ok.
    destruct (groupWrite_loop row (groupIndex group) H3 H4) as (indexes' & Hw & Hwl & Hwt).
    rewrite Hw, Result_bind_Ok. unfold arraySet.
    rewrite (proj2 (Nat.ltb_lt g (length groups1))) by lia.
    eexists. split; [reflexivity|]. split; [rewrite length_insert; assumption|].
    intros groupId HgroupId. destruct (decide (groupId = g)) as [->|Hne].
    + rewrite list_lookup_insert_eq by lia. eexists _, row.
      split; [reflexivity|]. repeat (split; [assumption|]). intros _. simpl.
      rewrite H5, Hwt. apply List.filter_ext_in. intros idx Hin. apply in_seq in Hin.
      rewrite H6 at 1. rewrite list_lookup_fmap, lookup_seq_lt by lia. reflexivity.
    + rewrite list_lookup_insert_ne by congruence.
      destruct (Hinv1 groupId HgroupId) as (group' & row' & G1 & G2 & G3 & G4 & G5 & G6 & G7).
      exists group', row'. repeat (split; [assumption|]). intros Hlt. apply G7. lia.
  - exists groups'. split; [assumption|]. intros groupId Hg.
    destruct (Hfinal groupId Hg) as (group & row & H1 & H2 & H3 & H4 & H5 & H6 & H7).
    exists group. split; [assumption|]. split; [|apply H7; lia].
    rewrite H5, H6. apply countTrue_filter.
Qed.

Lemma groupsWf_spec table cfg :
  groupsWf def table cfg = true ->
  length table = CFG_OPTION_TOTAL def
  /\ (forall optionId parseOption,
        table !! optionId = Some parseOption ->
        indexListTotal parseOption <= length (indexList parseOption)
        /\ indexListTotal parseOption <= CFG_OPTION_INDEX_MAX def)
  /\ (forall optionId,
        optionId < CFG_OPTION_TOTAL def -> cfgOptionGroup def optionId = true ->
        cfgOptionGroupId def optionId < CFG_OPTION_GROUP_TOTAL def)
  /\ length (option_ cfg) = CFG_OPTION_TOTAL def
  /\ optionGroup cfg = replicate (CFG_OPTION_GROUP_TOTAL def) (configGroupZero def).
Proof.
  unfold groupsWf. intros H.
  apply andb_prop in H as [H H5]. apply andb_prop in H as [H H4].
  apply andb_prop in H as [H H3]. apply andb_prop in H as [H1 H2].
  apply Nat.eqb_eq in H1, H4. apply bool_decide_eq_true_1 in H5.
  rewrite forallb_forall in H2, H3.
  split; [assumption|]. split; [|split; [|split; assumption]].
  - intros optionId parseOption Hpo.
    apply list_elem_of_lookup_2, list_elem_of_In, H2 in Hpo.
    apply andb_prop in Hpo as [Ha Hb]. apply Nat.leb_le in Ha, Hb. auto.
  - intros optionId Hid Hgroup.
    assert (Hin : In optionId (seq 0 (CFG_OPTION_TOTAL def))) by (apply in_seq; lia).
    apply H3 in Hin. rewrite Hgroup in Hin. simpl in Hin. apply Nat.ltb_lt. assumption.
Qed.

Lemma countTrue_replicate n : countTrue (replicate n false) = 0.
Proof. induction n as [|n IH]; simpl; auto. Qed.

Lemma groupsInv_init commandId table :
  groupsInv (groupMarked def commandId table 0)
    (replicate (CFG_OPTION_GROUP_TOTAL def) (configGroupZero def), groupIdxMapInit def).
Proof.
  unfold groupIdxMapInit. split; [apply length_replicate|].
  split; [apply length_replicate|]. intros groupId Hg. simpl.
  exists (configGroupZero def), (replicate (CFG_OPTION_INDEX_MAX def) false).
  split; [apply lookup_replicate_2; assumption|].
  split; [apply lookup_replicate_2; assumption|].
  split; [apply length_replicate|]. split; [apply length_replicate|].
  split; [simpl; rewrite countTrue_replicate; reflexivity|].
  intros optionIdx Hidx. apply lookup_replicate_2. assumption.
Qed.

Lemma groupOptions_loop commandId table cfg n :
  groupsWf def table cfg = true ->
  n <= CFG_OPTION_TOTAL def ->
  (forall optionId, optionId < n -> invalidSet def commandId table optionId = false) ->
  exists st,
    forEachR (groupOption def commandId table)
      (mkGroupState (option_ cfg) (optionGroup cfg) (groupIdxMapInit def)) (seq 0 n) = Ok st
    /\ groupStateInv commandId table n st.
Proof.
  intros Hwf Hn Hvalid.
  destruct (groupsWf_spec _ _ Hwf) as (Htable & Hlists & Hgroups & Hopts & Hinit).
  apply (forEachR_seq_inv (groupStateInv commandId table)).
  - split; [assumption|]. simpl. rewrite Hinit. apply groupsInv_init.
  - intros optionId st Hid Hst.
    destruct (lookup_lt_is_Some_2 table optionId) as [parseOption Hpo]; [lia|].
    destruct (Hlists _ _ Hpo) as [Hlen Hmax].
    apply (groupOption_inv _ _ _ _ parseOption); try assumption; try lia.
    + apply Hgroups. lia.
    + intros Hv. specialize (Hvalid optionId ltac:(lia)).
      unfold invalidSet in Hvalid. rewrite Hv, Hpo in Hvalid. simpl in Hvalid.
      apply Nat.ltb_ge in Hvalid. lia.
Qed.

(** The first number below [n] for which [Q] holds. *)
Lemma first_below (Q : nat -> bool) n :
  (exists j, j < n /\ Q j = true /\ forall i, i < j -> Q i = false)
  \/ (forall i, i < n -> Q i = false).
Proof.
  induction n as [|n [(j & Hj & HQ & Hmin)|Hnone]].
  - right. intros i Hi. lia.
  - left. exists j. split; [lia|]. auto.
  - destruct (Q n) eqn:HQ.
    + left. exists n. split; [lia|]. auto.
    + right. intros i Hi. destruct (decide (i = n)) as [->|]; [assumption|].
      apply Hnone. lia.
Qed.
End Groups.

Lemma groupRaw_sorted def commandId table groupId :
  StronglySorted lt (groupRaw def commandId table groupId).
Proof.
  unfold groupRaw. generalize 0 as k.
  induction (CFG_OPTION_INDEX_MAX def) as [|n IH]; intros k; simpl; [constructor|].
  destruct (groupMarked def commandId table (CFG_OPTION_TOTAL def) groupId k).
  - constructor; [apply IH|]. apply Forall_forall. intros idx Hin.
    apply list_elem_of_In, filter_In in Hin as [Hin _]. apply in_seq in Hin. lia.
  - apply IH.
Qed.

Lemma groupRaw_In def commandId table groupId optionIdx :
  In optionIdx (groupRaw def commandId table groupId) <->
  optionIdx < CFG_OPTION_INDEX_MAX def
  /\ exists optionId value,
       optionId < CFG_OPTION_TOTAL def
       /\ cfgDefOptionValid def commandId optionId = true
       /\ cfgOptionGroup def optionId = true
       /\ cfgOptionGroupId def optionId = groupId
       /\ tableValue table optionId optionIdx = Some value
       /\ found value = true.
Proof.
  unfold groupRaw, groupMarked. rewrite filter_In, in_seq, existsb_exists. split.
  - intros [Hidx (optionId & Hin & Hmember)]. split; [lia|].
    apply in_seq in Hin. unfold groupMember, foundAt in Hmember.
    apply andb_prop in Hmember as [H Hfound]. apply andb_prop in H as [H Hgid].
    apply andb_prop in H as [Hvalid Hgroup]. apply Nat.eqb_eq in Hgid.
    destruct (tableValue table optionId optionIdx) as [value|] eqn:Hvalue; [|discriminate].
    exists optionId, value.
    split; [lia|]. split; [assumption|]. split; [assumption|]. split; [assumption|].
    split; [exact Hvalue | exact Hfound].
  - intros [Hidx (optionId & value & Hid & Hvalid & Hgroup & Hgid & Hvalue & Hfound)].
    split; [lia|]. exists optionId. split; [apply in_seq; lia|].
    unfold groupMember, foundAt. rewrite Hvalid, Hgroup, Hvalue, Hgid, Nat.eqb_refl.
    simpl. assumption.
Qed.

(** C8: Phase 4 on arrays of the declared sizes.  When no option that is
    not valid for the command has a value in its index list, every group gets
    as total the number of raw indexes at which a valid member was found, and
    as external indexes 0 to total - 1 those raw indexes in ascending order.
    Else the parser throws OptionInvalidError with the name of the first such
    option and of the command; an option that is not valid and was found at
    an index is such an option. *)
Theorem parseGroups_indexes (def : Define) (commandId : ConfigCommand)
    (table : ParseOptionList) (cfg : Config) :
  groupsWf def table cfg = true ->
  ((forall optionId,
      optionId < CFG_OPTION_TOTAL def -> invalidSet def commandId table optionId = false) ->
   exists cfg',
     parseGroups def commandId table cfg = Ok cfg'
     /\ forall groupId, groupId < CFG_OPTION_GROUP_TOTAL def ->
          exists group,
            optionGroup cfg' !! groupId = Some group
            /\ indexTotal group = length (groupRaw def commandId table groupId)
            /\ take (indexTotal group) (groupIndex group)
               = groupRaw def commandId table groupId)
  /\ (forall groupId,
        StronglySorted lt (groupRaw def commandId table groupId)
        /\ forall optionIdx,
             In optionIdx (groupRaw def commandId table groupId) <->
             optionIdx < CFG_OPTION_INDEX_MAX def
             /\ exists optionId value,
                  optionId < CFG_OPTION_TOTAL def
                  /\ cfgDefOptionValid def commandId optionId = true
                  /\ cfgOptionGroup def optionId = true
                  /\ cfgOptionGroupId def optionId = groupId
                  /\ tableValue table optionId optionIdx = Some value
                  /\ found value = true)
  /\ (forall optionId,
        optionId < CFG_OPTION_TOTAL def ->
        invalidSet def commandId table optionId = true ->
        (forall optionId', optionId' < optionId ->
                           invalidSet def commandId table optionId' = false) ->
        parseGroups def commandId table cfg =
          Throw OptionInvalidError
            ("option '" +:+ cfgOptionName def optionId +:+ "' not valid for command '" +:+
             cfgCommandName def commandId +:+ "'"))
  /\ (forall optionId optionIdx value,
        cfgDefOptionValid def commandId optionId = false ->
        tableValue table optionId optionIdx = Some value ->
        exists optionId',
          cfgDefOptionValid def commandId optionId' = false
          /\ parseGroups def commandId table cfg =
               Throw OptionInvalidError
                 ("option '" +:+ cfgOptionName def optionId' +:+
                  "' not valid for command '" +:+ cfgCommandName def commandId +:+ "'")).
Proof.
  intros Hwf.
  destruct (groupsWf_spec _ _ _ Hwf) as (Htable & Hlists & Hgroups & Hopts & Hinit).
  assert (Hthrow : forall optionId,
            optionId < CFG_OPTION_TOTAL def ->
            invalidSet def commandId table optionId = true ->
            (forall optionId', optionId' < optionId ->
                               invalidSet def commandId table optionId' = false) ->
            parseGroups def commandId table cfg =
              Throw OptionInvalidError
                ("option '" +:+ cfgOptionName def optionId +:+
                 "' not valid for command '" +:+ cfgCommandName def commandId +:+ "'")).
  { intros optionId Hid Hinvalid Hfirst.
    destruct (groupOptions_loop def commandId table cfg optionId Hwf) as (st & Hrun & _);
      [lia|assumption|].
    unfold parseGroups.
    replace (CFG_OPTION_TOTAL def)
      with (optionId + S (CFG_OPTION_TOTAL def - S optionId)) at 1 by lia.
    rewrite seq_app, forEachR_app, Hrun, Result_bind_Ok. simpl seq.
    rewrite forEachR_cons.
    assert (Hstep : groupOption def commandId table st optionId
                    = Throw OptionInvalidError
                        ("option '" +:+ cfgOptionName def optionId +:+
                         "' not valid for command '" +:+ cfgCommandName def commandId +:+
                         "'")).
    { unfold groupOption, arrayGet.
      destruct (lookup_lt_is_Some_2 table optionId) as [parseOption Hpo]; [lia|].
      unfold invalidSet in Hinvalid. rewrite Hpo in Hinvalid. simpl in Hinvalid.
      apply andb_prop in Hinvalid as [Hv Ht]. apply negb_true_iff in Hv.
      rewrite Hpo, Result_bind_Ok, Hv, Ht. reflexivity. }
    rewrite Hstep. reflexivity. }
  split; [|split; [|split]].
  - intros Hvalid.
    destruct (groupOptions_loop def commandId table cfg (CFG_OPTION_TOTAL def) Hwf)
      as (st & Hrun & _ & Hinv); [lia|assumption|].
    destruct (groupIndexes_loop def _ _ _ Hinv) as (groups & Hgroups' & Hresult).
    unfold parseGroups. rewrite Hrun, Result_bind_Ok, Hgroups', Result_bind_Ok.
    eexists. split; [reflexivity|]. simpl. exact Hresult.
  - intros groupId. split; [apply groupRaw_sorted | apply groupRaw_In].
  - exact Hthrow.
  - intros optionId optionIdx value Hv Hvalue.
    assert (Hinvalid : optionId < CFG_OPTION_TOTAL def
                       /\ invalidSet def commandId table optionId = true).
    { unfold tableValue in Hvalue. unfold invalidSet.
      destruct (table !! optionId) as [parseOption|] eqn:Hpo; [|discriminate].
      apply lookup_lt_Some in Hpo as Hlt. split; [lia|].
      apply parseOptionIdxValue_Some in Hvalue as [Hlt' _].
      rewrite Hv. simpl. apply Nat.ltb_lt. lia. }
    destruct Hinvalid as [Hid Hinvalid].
    destruct (first_below (invalidSet def commandId table) (S optionId))
      as [(j & Hj & HQ & Hmin)|Hnone].
    + exists j. split.
      * unfold invalidSet in HQ. apply andb_prop in HQ as [HQ _].
        apply negb_true_iff in HQ. assumption.
      * apply Hthrow; [lia|assumption|assumption].
    + rewrite Hnone in Hinvalid by lia. discriminate.
Qed.

Lemma parseGroups_indexes_witness :
  match parseGroups Sample.define Sample.cmdBackup Sample.tablePg
          (Sample.configCommand Sample.cmdBackup) with
  | Ok cfg' =>
      (fun group => (indexTotal group, take (indexTotal group) (groupIndex group)))
        <$> optionGroup cfg' !! 0
  | _ => None
  end = Some (2, [1; 3]).
Proof.
  destruct (parseGroups_indexes Sample.define Sample.cmdBackup Sample.tablePg
              (Sample.configCommand Sample.cmdBackup) eq_refl) as (Hok & _).
  destruct Hok as (cfg' & Hrun & Hgroups).
  - intros optionId Hid.
    do 15 (destruct optionId as [|optionId]; [reflexivity|]). simpl in Hid. lia.
  - rewrite Hrun. destruct (Hgroups 0) as (group & Hgroup & Htotal & Htake).
    + simpl. lia.
    + rewrite Hgroup. simpl. rewrite Htake, Htotal. reflexivity.
Defined.

(** ** Numbers: multiplying by one *)

Lemma SFmul_one (x : spec_float) :
  valid_binary x = true ->
  SF64mul x (S754_finite false 4503599627370496 (-52)) = x.
Proof.
  destruct x as [s|s| |s m e]; intros Hvalid; simpl.
  - rewrite xorb_false_r. reflexivity.
  - rewrite xorb_false_r. reflexivity.
  - reflexivity.
  - unfold valid_binary, SpecFloat.valid_binary, bounded in Hvalid.
    apply andb_prop in Hvalid as [Hcanon Hbound].
    unfold canonical_mantissa in Hcanon. apply Z.eqb_eq in Hcanon.
    rewrite xorb_false_r. rewrite Pos.mul_comm.
    unfold binary_round_aux, shr_fexp.
    assert (Hdigits : (Zdigits2 (Z.pos (4503599627370496 * m)) + (e + -52)
                       = Z.pos (digits2_pos m) + e)%Z).
    { simpl. rewrite !Pos2Z.inj_succ, Pos.mul_1_l. lia. }
    rewrite Hdigits, Hcanon.
    replace (e - (e + -52))%Z with 52%Z by lia.
    simpl.
    replace (e + -52 + 52)%Z with e by lia.
    rewrite !Pos.mul_1_l, Hcanon, Z.sub_diag. simpl. rewrite Hbound. reflexivity.
Qed.

Lemma double_mul_one (x : double) : (x * Z2double 1)%float = x.
Proof.
  apply Prim2SF_inj. rewrite mul_spec.
  change (Prim2SF (Z2double 1)) with (S754_finite false 4503599627370496 (-52)).
  apply SFmul_one, Prim2SF_valid.
Qed.

(** ** The integers that a double holds *)

Lemma digits2_pos_iter (p k : positive) :
  digits2_pos (Pos.iter xO p k) = (digits2_pos p + k)%positive.
Proof.
  induction k as [|k IH] using Pos.peano_ind.
  - simpl. lia.
  - rewrite Pos.iter_succ. simpl. rewrite IH. lia.
Qed.

Lemma Zpos_iter (p k : positive) :
  Z.pos (Pos.iter xO p k) = (Z.pos p * 2 ^ Z.pos k)%Z.
Proof.
  induction k as [|k IH] using Pos.peano_ind.
  - simpl. lia.
  - rewrite Pos.iter_succ, Pos2Z.inj_xO, IH, Pos2Z.inj_succ, Z.pow_succ_r by lia. lia.
Qed.

Lemma binary_round_aligned (m : positive) (e : Z) :
  Z.pos (digits2_pos m) = 53%Z -> (-52 <= e <= 0)%Z ->
  binary_round_aux prec emax false (Z.pos m) e loc_Exact = S754_finite false m e.
Proof.
  intros Hd He. unfold binary_round_aux, shr_fexp.
  cbn [Zdigits2 shr_record_of_loc]. rewrite Hd.
  assert (Hfexp : (fexp prec emax (53 + e) - e = 0)%Z).
  { unfold fexp, emin, prec, emax. lia. }
  rewrite Hfexp. cbn [shr shr_m loc_of_shr_record shr_r shr_s round_nearest_even Zdigits2 shr_record_of_loc].
  rewrite Hd, Hfexp. cbn [shr shr_m].
  replace (e <=? emax - prec)%Z with true; [reflexivity|].
  symmetry. apply Z.leb_le. unfold emax, prec. lia.
Qed.

Lemma binary_normalize_small (p : positive) :
  (Z.pos (digits2_pos p) <= 53)%Z ->
  exists m e,
    binary_normalize prec emax (Z.pos p) 0 false = S754_finite false m e
    /\ Z.pos (digits2_pos m) = 53%Z /\ (-52 <= e <= 0)%Z
    /\ Z.pos m = (Z.pos p * 2 ^ (- e))%Z.
Proof.
  intros Hd. unfold binary_normalize, binary_round, shl_align.
  assert (Hfexp : (fexp prec emax (Z.pos (digits2_pos p) + 0) - 0
                   = Z.pos (digits2_pos p) - 53)%Z).
  { unfold fexp, emin, prec, emax. lia. }
  rewrite Hfexp. rewrite Z.sub_0_r in Hfexp. rewrite Hfexp.
  destruct (Z.pos (digits2_pos p) - 53)%Z as [|k|k] eqn:Hk; [|lia|].
  - exists p, 0%Z. rewrite binary_round_aligned by lia.
    split; [reflexivity|]. split; [lia|]. split; [lia|]. simpl. lia.
  - exists (Pos.iter xO p k), (Z.neg k).
    assert (Hdigits : Z.pos (digits2_pos (Pos.iter xO p k)) = 53%Z)
      by (rewrite digits2_pos_iter; lia).
    rewrite binary_round_aligned by lia.
    split; [reflexivity|]. split; [assumption|]. split; [lia|].
    rewrite Zpos_iter. reflexivity.
Qed.

Lemma digits2_pos_bound (p : positive) (n : nat) :
  (Z.pos p < 2 ^ Z.of_nat n)%Z -> (Z.pos (digits2_pos p) <= Z.of_nat n)%Z.
Proof.
  revert p. induction n as [|n IH]; intros p Hp.
  - simpl in Hp. lia.
  - rewrite Nat2Z.inj_succ, Z.pow_succ_r in Hp by lia.
    destruct p as [p|p|]; simpl; [| |lia].
    + specialize (IH p). lia.
    + specialize (IH p). lia.
Qed.

(** An integer up to 2^53 is converted to the [double] that holds it. *)
Lemma Z2double_exact (n : Z) :
  (0 <= n <= 2 ^ 53)%Z -> doubleInteger (Z2double n) = Some n.
Proof.
  intros Hn.
  destruct (Z.eq_dec n (2 ^ 53)%Z) as [->|Hne]; [reflexivity|].
  destruct n as [|p|p]; [reflexivity| |lia].
  destruct (binary_normalize_small p) as (m & e & Hnorm & Hd & He & Hm).
  { apply (digits2_pos_bound p 53). change (Z.of_nat 53) with 53%Z. lia. }
  unfold doubleInteger, Z2double. rewrite Hnorm, Prim2SF_SF2Prim.
  - destruct (Z.leb_spec 0 e) as [H0|H0].
    + assert (e = 0%Z) as -> by lia. simpl in Hm. f_equal. simpl. lia.
    + rewrite Hm, Z.mod_mul, Z.div_mul by lia. reflexivity.
  - unfold valid_binary, bounded, canonical_mantissa. rewrite Hd.
    apply andb_true_intro. split.
    + apply Z.eqb_eq. unfold fexp, emin, prec, emax. lia.
    + apply Z.leb_le. unfold emax, prec. lia.
Qed.

(** ** Regular expressions: what the matcher accepts *)

Lemma append_nil s1 s2 : s1 +:+ s2 = "" -> s1 = "" /\ s2 = "".
Proof. destruct s1; simpl; [auto | discriminate]. Qed.

Lemma append_cons s1 s2 c s :
  s1 +:+ s2 = String c s ->
  (s1 = "" /\ s2 = String c s) \/ exists s1', s1 = String c s1' /\ s = s1' +:+ s2.
Proof.
  destruct s1 as [|c1 s1]; simpl; intros Heq.
  - left. auto.
  - right. injection Heq as -> <-. eauto.
Qed.

Lemma reNullable_spec r : reNullable r = true <-> reMatches r "".
Proof.
  split.
  - induction r; simpl; intros H; try discriminate.
    + constructor.
    + apply andb_prop in H as [H1 H2].
      apply (reMatchesSeq _ _ "" ""); auto.
    + apply orb_prop in H as [H|H]; [apply reMatchesAltL | apply reMatchesAltR]; auto.
    + constructor.
  - intros H. remember "" as s eqn:Hs. induction H; simpl; try discriminate; auto.
    + apply append_nil in Hs as [-> ->]. rewrite IHreMatches1, IHreMatches2; auto.
    + rewrite IHreMatches; auto.
    + rewrite IHreMatches, orb_true_r; auto.
Qed.

(** A string of a star that begins with [c] begins with a string of the
    expression that begins with [c]. *)
Lemma reMatches_star_cons r c s :
  reMatches (ReStar r) (String c s) ->
  exists s1 s2, s = s1 +:+ s2 /\ reMatches r (String c s1) /\ reMatches (ReStar r) s2.
Proof.
  intros H. remember (ReStar r) as r' eqn:Hr. remember (String c s) as x eqn:Hx.
  revert s Hx. induction H; intros s' Hx; try discriminate.
  injection Hr as ->.
  apply append_cons in Hx as [[-> ->] | (s1' & -> & ->)].
  - apply IHreMatches2; reflexivity.
  - exists s1', s2. auto.
Qed.

Lemma reDerive_sound c r : forall s, reMatches (reDerive c r) s -> reMatches r (String c s).
Proof.
  induction r; simpl; intros s H.
  - inversion H.
  - inversion H.
  - destruct (Ascii.eqb_spec c c0) as [->|]; inversion H. constructor.
  - destruct (chrInRange lo hi c) eqn:Hc; inversion H. constructor. assumption.
  - destruct (reNullable r1) eqn:Hnull.
    + inversion H as [| | | | ? ? ? H1 | ? ? ? H2 | |]; subst.
      * inversion H1; subst.
        apply (reMatchesSeq r1 r2 (String c s1) s2); auto.
      * apply (reMatchesSeq r1 r2 "" (String c s)); [apply reNullable_spec|]; auto.
    + inversion H; subst. apply (reMatchesSeq r1 r2 (String c s1) s2); auto.
  - inversion H; subst; [apply reMatchesAltL | apply reMatchesAltR]; auto.
  - inversion H; subst. apply (reMatchesStarApp r (String c s1) s2); auto.
Qed.

Lemma reDerive_complete c r : forall s, reMatches r (String c s) -> reMatches (reDerive c r) s.
Proof.
  induction r; simpl; intros s H.
  - inversion H.
  - inversion H.
  - inversion H; subst. rewrite Ascii.eqb_refl. constructor.
  - inversion H as [| |? ? ? Hc| | | | |]; subst. rewrite Hc. constructor.
  - inversion H as [| | | ? ? s1 s2 H1 H2 Hr Hs | | | |]; subst.
    apply append_cons in Hs as [[-> ->] | (s1' & -> & ->)].
    + apply reNullable_spec in H1 as Hnull. rewrite Hnull.
      apply reMatchesAltR. auto.
    + destruct (reNullable r1); [apply reMatchesAltL|]; constructor; auto.
  - inversion H; subst; [apply reMatchesAltL | apply reMatchesAltR]; auto.
  - apply reMatches_star_cons in H as (s1 & s2 & -> & H1 & H2).
    constructor; auto.
Qed.

Lemma regExpMatchOne_spec s : forall r, regExpMatchOne r s = true <-> reMatches r s.
Proof.
  induction s as [|c s IH]; intros r; simpl.
  - apply reNullable_spec.
  - rewrite IH. split; [apply reDerive_sound | apply reDerive_complete].
Qed.

(** ** The size parser *)

Lemma allChars_append test s1 s2 :
  allChars test (s1 +:+ s2) = allChars test s1 && allChars test s2.
Proof.
  induction s1 as [|c s1 IH]; simpl; [reflexivity|].
  rewrite IH, andb_assoc. reflexivity.
Qed.

Lemma allChars_weaken (test test' : ascii -> bool) s :
  (forall c, test c = true -> test' c = true) ->
  allChars test s = true -> allChars test' s = true.
Proof.
  intros Himp. induction s as [|c s IH]; simpl; [reflexivity|].
  intros H. apply andb_prop in H as [Hc Hs]. rewrite (Himp _ Hc), IH; auto.
Qed.

Lemma allDigits_allChars s : allDigits s = allChars isDigit s.
Proof. induction s as [|c s IH]; simpl; [reflexivity|]. rewrite IH. reflexivity. Qed.

Lemma reMatches_star_chars test r :
  (forall w, reMatches r w -> allChars test w = true) ->
  forall w, reMatches (ReStar r) w -> allChars test w = true.
Proof.
  intros Hr w H. remember (ReStar r) as r' eqn:Heq.
  induction H; try discriminate; [reflexivity|].
  injection Heq as ->. rewrite allChars_append, (Hr _ H), IHreMatches2; auto.
Qed.

Lemma reMatches_range lo hi w :
  reMatches (ReRange lo hi) w -> exists c, w = String c "" /\ chrInRange lo hi c = true.
Proof. intros H. inversion H; subst. eauto. Qed.

Lemma reMatches_literal lit : forall w, reMatches (reLiteral lit) w -> w = lit.
Proof.
  induction lit as [|c lit IH]; simpl; intros w H.
  - inversion H. reflexivity.
  - inversion H as [| | | ? ? s1 s2 H1 H2 | | | |]; subst.
    inversion H1; subst. simpl. f_equal. apply IH. assumption.
Qed.

Lemma reMatches_alt r1 r2 w :
  reMatches (ReAlt r1 r2) w -> reMatches r1 w \/ reMatches r2 w.
Proof. intros H. inversion H; subst; auto. Qed.

Lemma sizeQualifierRegExp_chars w :
  reMatches sizeQualifierRegExp w -> allChars isQualifier w = true.
Proof.
  unfold sizeQualifierRegExp. intros H.
  repeat (apply reMatches_alt in H as [H|H];
          [apply reMatches_literal in H; subst; reflexivity|]).
  apply reMatches_literal in H. subst. reflexivity.
Qed.

(** A string that matches the expression of a size begins with a digit and
    holds digits and qualifiers. *)
Lemma sizeRegExp_chars s :
  regExpMatchOne sizeRegExp s = true ->
  exists c s', s = String c s' /\ isDigit c = true /\ allChars sizeChar s' = true.
Proof.
  intros H. apply regExpMatchOne_spec in H. unfold sizeRegExp, RePlus in H.
  inversion H as [| | | ? ? s1 s2 H1 H2 | | | |]; subst.
  inversion H1 as [| | | ? ? d ds Hd Hds | | | |]; subst.
  apply reMatches_range in Hd as (c & -> & Hc).
  exists c, (ds +:+ s2). split; [reflexivity|]. split; [exact Hc|].
  rewrite allChars_append. apply andb_true_intro. split.
  - apply (reMatches_star_chars sizeChar (ReRange "0" "9")); [|assumption].
    intros w Hw. apply reMatches_range in Hw as (c' & -> & Hc').
    simpl. unfold sizeChar, isDigit. rewrite Hc'. reflexivity.
  - apply (allChars_weaken isQualifier).
    + intros q Hq. unfold sizeChar. rewrite Hq. apply orb_true_r.
    + apply (reMatches_star_chars isQualifier sizeQualifierRegExp); [|assumption].
      apply sizeQualifierRegExp_chars.
Qed.

Lemma append_empty_r s : s +:+ "" = s.
Proof.
  induction s as [|c s IH]; [reflexivity|].
  change (String c (s +:+ "") = String c s). f_equal. exact IH.
Qed.

(** A string of digits matches the expression of a size. *)
Lemma sizeRegExp_digits s :
  allDigits s = true -> s <> "" -> regExpMatchOne sizeRegExp s = true.
Proof.
  intros Hdigits Hne. apply regExpMatchOne_spec.
  destruct s as [|c s]; [contradiction|]. simpl in Hdigits.
  apply andb_prop in Hdigits as [Hc Hs].
  assert (Hstar : reMatches (ReStar (ReRange "0" "9")) s).
  { clear Hne Hc. induction s as [|c' s IH]; [constructor|].
    simpl in Hs. apply andb_prop in Hs as [Hc' Hs].
    apply (reMatchesStarApp _ (String c' "") s); [constructor; exact Hc' | auto]. }
  unfold sizeRegExp, RePlus.
  replace (String c s) with ((String c "" +:+ s) +:+ "").
  - constructor; [|constructor]. constructor; [constructor; exact Hc | exact Hstar].
  - rewrite append_empty_r. reflexivity.
Qed.

Lemma get_allChars test s : forall i c,
  allChars test s = true -> String.get i s = Some c -> test c = true.
Proof.
  induction s as [|c' s IH]; intros i c Hall Hget; simpl in Hget; [discriminate|].
  simpl in Hall. apply andb_prop in Hall as [Hc' Hs].
  destruct i as [|i]; [congruence|]. eapply IH; eassumption.
Qed.

Lemma get_lt s : forall i, i < String.length s -> exists c, String.get i s = Some c.
Proof.
  induction s as [|c' s IH]; simpl; intros i Hi; [lia|].
  destruct i as [|i]; [eauto|]. apply IH. lia.
Qed.

Lemma isDigit_not_b c : isDigit c = true -> Ascii.eqb c "b" = false.
Proof.
  destruct c as [[] [] [] [] [] [] [] []]; try reflexivity; intros H; discriminate H.
Qed.

Lemma sizeChar_chrLeNine c : sizeChar c = true -> chrLeNine c = isDigit c.
Proof.
  destruct c as [[] [] [] [] [] [] [] []]; try reflexivity; intros H; discriminate H.
Qed.

Lemma sizeChar_qualifier c : sizeChar c = true -> isDigit c = false -> isQualifier c = true.
Proof. unfold sizeChar. intros H Hd. rewrite Hd in H. exact H. Qed.

Lemma chrLower_digit c : isDigit c = true -> chrLower c = c.
Proof.
  destruct c as [[] [] [] [] [] [] [] []]; try reflexivity; intros H; discriminate H.
Qed.

Lemma strLower_digits s : allDigits s = true -> strLower s = s.
Proof.
  induction s as [|c s IH]; simpl; [reflexivity|]. intros H.
  apply andb_prop in H as [Hc Hs]. rewrite (chrLower_digit _ Hc), IH; auto.
Qed.

(** The multiplier of [sizeQualifierToMultiplier] is the one of the
    specification; it throws for no qualifier. *)
Lemma sizeQualifierToMultiplier_spec qualifier :
  isQualifier qualifier = true ->
  exists multiplier,
    sizeMultiplier qualifier = Some multiplier
    /\ sizeQualifierToMultiplier qualifier = Ok (Z2double multiplier).
Proof.
  unfold isQualifier, sizeMultiplier, sizeQualifierToMultiplier. simpl. intros H.
  destruct (Ascii.eqb qualifier "b"); [eauto|].
  destruct (Ascii.eqb qualifier "k"); [eauto|].
  destruct (Ascii.eqb qualifier "m"); [eauto|].
  destruct (Ascii.eqb qualifier "g"); [eauto|].
  destruct (Ascii.eqb qualifier "t"); [eauto|].
  destruct (Ascii.eqb qualifier "p"); [eauto|]. discriminate.
Qed.

(** On a string that matches, the position that the code chooses is the one
    of the specification; the character there is a qualifier, and a digit is
    before it. *)
Lemma sizeQualifierPos_spec c0 s' :
  isDigit c0 = true -> allChars sizeChar s' = true ->
  sizeQualifierPos (String c0 s') = Ok (fst <$> specSizeQualifier (String c0 s'))
  /\ forall position unit,
       specSizeQualifier (String c0 s') = Some (position, unit) ->
       String.get position (String c0 s') = Some unit
       /\ isQualifier unit = true /\ 1 <= position.
Proof.
  intros Hc0 Hs'. set (s := String c0 s').
  assert (Hall : allChars sizeChar s = true).
  { simpl. unfold sizeChar at 1. rewrite Hc0. exact Hs'. }
  assert (Hsize : String.length s = S (String.length s')) by reflexivity.
  assert (Hfirst : String.get 0 s = Some c0) by reflexivity.
  destruct (get_lt s (String.length s - 1)) as [last Hlast]; [lia|].
  pose proof (get_allChars _ _ _ _ Hall Hlast) as Hlastc.
  assert (Hone : String.length s = 1 -> isDigit last = true).
  { intros H1. rewrite H1 in Hlast. simpl in Hlast. congruence. }
  unfold sizeQualifierPos, specSizeQualifier, strArrayBack.
  rewrite (proj2 (Nat.leb_le 1 (String.length s))) by lia.
  rewrite Hlast, Result_bind_Ok. cbn [from_option id].
  destruct (Ascii.eqb_spec last "b") as [->|Hnb].
  - assert (Htwo : 2 <= String.length s).
    { destruct (decide (String.length s = 1)) as [H1|]; [|lia].
      apply Hone in H1. discriminate. }
    destruct (get_lt s (String.length s - 2)) as [prev Hprev]; [lia|].
    pose proof (get_allChars _ _ _ _ Hall Hprev) as Hprevc.
    rewrite (proj2 (Nat.leb_le 2 (String.length s))) by lia.
    rewrite Hprev, Result_bind_Ok. cbn [from_option id].
    rewrite (sizeChar_chrLeNine _ Hprevc).
    destruct (isDigit prev) eqn:Hpd.
    + split; [reflexivity|]. intros position unit [= <- <-].
      split; [assumption|]. split; [reflexivity | lia].
    + split; [reflexivity|]. intros position unit [= <- <-].
      split; [assumption|]. split; [apply sizeChar_qualifier; assumption|].
      destruct (decide (String.length s = 2)) as [H2|]; [|lia].
      rewrite H2 in Hprev. simpl in Hprev. congruence.
  - rewrite (sizeChar_chrLeNine _ Hlastc).
    destruct (isDigit last) eqn:Hld.
    + split; [reflexivity|]. intros position unit [=].
    + split; [reflexivity|]. intros position unit [= <- <-].
      split; [assumption|]. split; [apply sizeChar_qualifier; assumption|].
      destruct (decide (String.length s = 1)) as [H1|]; [|lia].
      apply Hone in H1. congruence.
Qed.

(** The size parser does what the specification says, and commits the
    number as a string. *)
Lemma convertToByte_specSize cv value :
  convertToByte cv value = (valueDbl ← specSize cv value; Ok (varStrForce cv valueDbl, valueDbl)).
Proof.
  unfold convertToByte, specSize.
  destruct (regExpMatchOne sizeRegExp (strLower value)) eqn:Hmatch; [|reflexivity].
  destruct (sizeRegExp_chars _ Hmatch) as (c0 & s' & Hs & Hc0 & Hs').
  rewrite Hs. destruct (sizeQualifierPos_spec c0 s' Hc0 Hs') as [Hpos Hunit].
  rewrite Hpos, Result_bind_Ok.
  destruct (specSizeQualifier (String c0 s')) as [[position unit]|].
  - destruct (Hunit _ _ eq_refl) as (Hget & Hq & _).
    change (fst <$> Some (position, unit)) with (Some position). cbv beta iota.
    rewrite Hget. cbn [from_option id].
    destruct (sizeQualifierToMultiplier_spec _ Hq) as (multiplier & Hm & Hcode).
    rewrite Hm, Hcode, !Result_bind_Ok. cbv beta iota.
    destruct (varDblForce cv (strTrunc (String c0 s') position)); reflexivity.
  - change (fst <$> @None (nat * ascii)) with (@None nat). cbv beta iota.
    rewrite Result_bind_Ok.
    destruct (varDblForce cv (String c0 s')) as [d| | |]; try reflexivity.
    rewrite !Result_bind_Ok, double_mul_one. reflexivity.
Qed.

(** C5, amended: the size parser does what the specification of the size
    parser says.  A value that does not match the expression, in lower case,
    is a FormatError "value '<v>' is not valid".  For a value that matches,
    the numeric part before the qualifier is parsed as a double and multiplied
    by the multiplier of the qualifier, one of b=1, k=2^10, m=2^20, g=2^30,
    t=2^40 and p=2^50; so the values that match are exactly the accepted ones
    when the conversion to double accepts what begins with a digit.  A value
    with no qualifier that the conversion to a 64-bit integer accepts gives
    the double nearest to that integer, which is the integer itself when it
    is at most 2^53. *)
Theorem convertToByte_size (cv : Convert) (value : string) :
  convertToByte cv value
  = (valueDbl ← specSize cv value; Ok (varStrForce cv valueDbl, valueDbl))
  /\ (regExpMatchOne sizeRegExp (strLower value) = false ->
      convertToByte cv value
      = Throw FormatError ("value '" +:+ value +:+ "' is not valid"))
  /\ (regExpMatchOne sizeRegExp (strLower value) = true ->
      match specSizeQualifier (strLower value) with
      | Some (position, unit) =>
          exists multiplier,
            In (unit, multiplier)
              [("b"%char, 1%Z); ("k"%char, 2 ^ 10)%Z; ("m"%char, 2 ^ 20)%Z;
               ("g"%char, 2 ^ 30)%Z; ("t"%char, 2 ^ 40)%Z; ("p"%char, 2 ^ 50)%Z]
            /\ convertToByte cv value
               = (numeric ← varDblForce cv (strTrunc (strLower value) position);
                  Ok (varStrForce cv (numeric * Z2double multiplier)%float,
                      (numeric * Z2double multiplier)%float))
      | None =>
          convertToByte cv value
          = (numeric ← varDblForce cv (strLower value);
             Ok (varStrForce cv numeric, numeric))
      end)
  /\ ((forall c s, isDigit c = true -> exists d, varDblForce cv (String c s) = Ok d) ->
      (exists result, convertToByte cv value = Ok result) <->
      regExpMatchOne sizeRegExp (strLower value) = true)
  /\ (forall n,
        allDigits value = true -> value <> "" ->
        varInt64Force cv value = Ok n ->
        varDblForce cv value = Ok (Z2double n) ->
        convertToByte cv value = Ok (varStrForce cv (Z2double n), Z2double n)
        /\ ((0 <= n <= 2 ^ 53)%Z -> doubleInteger (Z2double n) = Some n)).
Proof.
  assert (Hmatch : regExpMatchOne sizeRegExp (strLower value) = true ->
            match specSizeQualifier (strLower value) with
            | Some (position, unit) =>
                1 <= position
                /\ exists multiplier,
                     In (unit, multiplier)
                       [("b"%char, 1%Z); ("k"%char, 2 ^ 10)%Z; ("m"%char, 2 ^ 20)%Z;
                        ("g"%char, 2 ^ 30)%Z; ("t"%char, 2 ^ 40)%Z; ("p"%char, 2 ^ 50)%Z]
                     /\ convertToByte cv value
                        = (numeric ← varDblForce cv (strTrunc (strLower value) position);
                           Ok (varStrForce cv (numeric * Z2double multiplier)%float,
                               (numeric * Z2double multiplier)%float))
            | None =>
                convertToByte cv value
                = (numeric ← varDblForce cv (strLower value);
                   Ok (varStrForce cv numeric, numeric))
            end).
  { intros Hm. rewrite convertToByte_specSize. unfold specSize. rewrite Hm.
    destruct (sizeRegExp_chars _ Hm) as (c0 & s' & Hs & Hc0 & Hs').
    destruct (sizeQualifierPos_spec c0 s' Hc0 Hs') as [_ Hunit]. rewrite <- Hs in Hunit.
    destruct (specSizeQualifier (strLower value)) as [[position unit]|]; [|reflexivity].
    destruct (Hunit _ _ eq_refl) as (_ & Hq & Hpos). split; [assumption|].
    unfold sizeMultiplier. unfold isQualifier in Hq. simpl in Hq.
    destruct (Ascii.eqb_spec unit "b") as [->|_].
    { exists 1%Z. split; [simpl; auto|].
      destruct (varDblForce cv _); reflexivity. }
    destruct (Ascii.eqb_spec unit "k") as [->|_].
    { exists (2 ^ 10)%Z. split; [simpl; auto|].
      destruct (varDblForce cv _); reflexivity. }
    destruct (Ascii.eqb_spec unit "m") as [->|_].
    { exists (2 ^ 20)%Z. split; [simpl; auto|].
      destruct (varDblForce cv _); reflexivity. }
    destruct (Ascii.eqb_spec unit "g") as [->|_].
    { exists (2 ^ 30)%Z. split; [simpl; auto 6|].
      destruct (varDblForce cv _); reflexivity. }
    destruct (Ascii.eqb_spec unit "t") as [->|_].
    { exists (2 ^ 40)%Z. split; [simpl; auto 7|].
      destruct (varDblForce cv _); reflexivity. }
    destruct (Ascii.eqb_spec unit "p") as [->|_].
    { exists (2 ^ 50)%Z. split; [simpl; auto 8|].
      destruct (varDblForce cv _); reflexivity. }
    discriminate. }
  split; [apply convertToByte_specSize|]. split; [|split; [|split]].
  - intros Hno. unfold convertToByte. rewrite Hno. reflexivity.
  - intros Hm. specialize (Hmatch Hm).
    destruct (specSizeQualifier (strLower value)) as [[position unit]|]; [|assumption].
    destruct Hmatch as (_ & multiplier & Hin & Heq). eauto.
  - intros Hdbl. split.
    + intros [result Hresult].
      destruct (regExpMatchOne sizeRegExp (strLower value)) eqn:Hm; [reflexivity|].
      unfold convertToByte in Hresult. rewrite Hm in Hresult. discriminate.
    + intros Hm. specialize (Hmatch Hm).
      destruct (sizeRegExp_chars _ Hm) as (c0 & s' & Hs & Hc0 & Hs').
      destruct (specSizeQualifier (strLower value)) as [[position unit]|].
      * destruct Hmatch as (Hpos & multiplier & _ & Heq). rewrite Heq, Hs.
        destruct position as [|position]; [lia|].
        destruct (Hdbl c0 (String.substring 0 position s') Hc0) as [d Hd].
        change (strTrunc (String c0 s') (S position))
          with (String c0 (String.substring 0 position s')).
        rewrite Hd. eauto.
      * rewrite Hmatch, Hs. destruct (Hdbl c0 s' Hc0) as [d Hd]. rewrite Hd. eauto.
  - intros n Hdigits Hne Hint Hd. split; [|apply Z2double_exact].
    pose proof (strLower_digits _ Hdigits) as Hlower.
    pose proof (sizeRegExp_digits _ Hdigits Hne) as Hm. rewrite <- Hlower in Hm.
    specialize (Hmatch Hm). rewrite Hlower in Hmatch.
    assert (Hnone : specSizeQualifier value = None).
    { unfold specSizeQualifier.
      destruct (String.get (String.length value - 1) value) as [last|] eqn:Hlast;
        [|reflexivity].
      rewrite allDigits_allChars in Hdigits.
      pose proof (get_allChars _ _ _ _ Hdigits Hlast) as Hld.
      rewrite (isDigit_not_b _ Hld), Hld. reflexivity. }
    rewrite Hnone in Hmatch. rewrite Hmatch, Hd. reflexivity.
Qed.

Lemma convertToByte_size_witness :
  convertToByte specConvert "4096" = Ok ("4096", Z2double 4096)
  /\ doubleInteger (Z2double 4096) = Some 4096%Z
  /\ varInt64Force specConvert "4096" = Ok 4096%Z.
Proof.
  destruct (convertToByte_size specConvert "4096") as (_ & _ & _ & _ & Hint).
  destruct (Hint 4096%Z) as [Hsize Hexact];
    [reflexivity | discriminate | reflexivity | reflexivity |].
  split; [exact Hsize|]. split; [|reflexivity].
  apply Hexact. lia.
Defined.

(** C5 as it was stated fails for a number with no qualifier that a double
    does not hold: the size parser returns the double next to 2^53 + 1, which
    is 2^53, and the conversion to a 64-bit integer returns 2^53 + 1.  It
    fails as well for 2^63, which the size parser accepts and the conversion
    to a 64-bit integer does not. *)
Lemma convertToByte_size_counterexample :
  allDigits "9007199254740993" = true
  /\ convertToByte specConvert "9007199254740993"
     = Ok ("9007199254740992", Z2double 9007199254740992)
  /\ doubleInteger (Z2double 9007199254740992) = Some 9007199254740992%Z
  /\ varInt64Force specConvert "9007199254740993" = Ok 9007199254740993%Z
  /\ allDigits "9223372036854775808" = true
  /\ convertToByte specConvert "9223372036854775808"
     = Ok ("9223372036854775808", Z2double (2 ^ 63))
  /\ varInt64Force specConvert "9223372036854775808"
     = Throw FormatError
         "unable to convert base 10 string '9223372036854775808' to int64".
Proof. repeat split; reflexivity. Qed.

(** ** Phase 5: the indexes of an option that are visited *)

Lemma forEachR_invariant {A St} (R : St -> St -> Prop) (body : St -> A -> Result St) :
  (forall s, R s s) ->
  (forall s1 s2 s3, R s1 s2 -> R s2 s3 -> R s1 s3) ->
  (forall s a s', body s a = Ok s' -> R s s') ->
  forall l s s', forEachR body s l = Ok s' -> R s s'.
Proof.
  intros Hrefl Htrans Hbody l.
  induction l as [|a l IH]; intros s s' Hrun; simpl in Hrun.
  - injection Hrun as <-. apply Hrefl.
  - unfold mbind, Result_bind in Hrun.
    destruct (body s a) as [s1| | |] eqn:Hstep; try discriminate.
    eapply Htrans; [eapply Hbody; eassumption | eapply IH; eassumption].
Qed.

Lemma seq_split (n k : nat) :
  k < n -> seq 0 n = seq 0 k ++ k :: seq (S k) (n - S k).
Proof.
  intros Hk. replace n with (k + S (n - S k)) at 1 by lia.
  rewrite seq_app. reflexivity.
Qed.

Lemma cfgOptionSet_fields def cfg optionId source value cfg' :
  cfgOptionSet def cfg optionId source value = Ok cfg' -> sameCommand cfg cfg'.
Proof.
  unfold cfgOptionSet, mbind, Result_bind. intros Hrun.
  repeat case_match; simplify_eq; repeat split.
Qed.

Lemma resolveIndex_fields def cv commandId table optionId cfg optionIdx cfg' :
  resolveIndex def cv commandId table optionId cfg optionIdx = Ok cfg' ->
  sameCommand cfg cfg'.
Proof.
  unfold resolveIndex, mbind, Result_bind. intros Hrun.
  destruct (arrayGet table optionId) as [parseOption| | |]; try discriminate.
  destruct (if cfgOptionGroup def optionId then _ else _) as [rawIdx| | |];
    try discriminate.
  destruct (parseOptionIdxValue parseOption rawIdx) as [value|]; [|discriminate].
  destruct (cfgOptionFlagsSet _ _ _ _ _) as [cfg1| | |] eqn:Hflags; try discriminate.
  apply cfgOptionFlagsSet_fields in Hflags as (Hc & Hh & Hg & _).
  assert (H1 : sameCommand cfg cfg1) by (repeat split; assumption).
  assert (Htrans : sameCommand cfg1 cfg' -> sameCommand cfg cfg').
  { intros (Hc' & Hh' & Hg'). repeat split; congruence. }
  destruct (dependCheck _ _ _ _ _ _) as [[|]| | |]; try discriminate;
    [|injection Hrun as <-; assumption].
  apply Htrans. clear Htrans H1 Hc Hh Hg.
  destruct (found value && _ && _).
  - unfold resolveSet, resolveScalar, mbind, Result_bind in Hrun.
    repeat case_match; simplify_eq; eapply cfgOptionSet_fields; eassumption.
  - unfold resolveUnset in Hrun.
    repeat case_match; simplify_eq;
      first [eapply cfgOptionSet_fields; eassumption | repeat split].
Qed.

Lemma resolveIndexes_fields def cv commandId table optionId optionIdxs cfg cfg' :
  forEachR (resolveIndex def cv commandId table optionId) cfg optionIdxs = Ok cfg' ->
  sameCommand cfg cfg'.
Proof.
  apply (forEachR_invariant sameCommand).
  - intros s. repeat split.
  - intros s1 s2 s3 (Hc & Hh & Hg) (Hc' & Hh' & Hg'). repeat split; congruence.
  - intros s a s'. apply resolveIndex_fields.
Qed.

(** C4, amended: Phase 5 at a valid option that it reaches in the resolve
    order.  It visits index 0 of an option outside a group and the indexes
    0 to indexTotal - 1 of a grouped option, so no index when Phase 4 found
    none for the group: then nothing is committed and nothing is thrown.
    At an index that is visited, not set, and whose dependency is resolved:
    if it was negated NULL is committed with the source Param; else the
    default, if there is one, is committed with the source Default; else, if
    the option is required and help was not requested, Phase 5 ends with
    OptionRequiredError with the command, the option and, for an option of
    the stanza section, the hint. *)
Theorem resolveOption_unset (def : Define) (cv : Convert) (table : ParseOptionList)
    (cfg0 cfg : Config) (optionOrderIdx optionId : nat) (configOption : ConfigOption) :
  let commandId := command cfg in
  let optionIndexTotal :=
    if cfgOptionGroup def optionId
    then from_option indexTotal 0 (optionGroup cfg !! cfgOptionGroupId def optionId)
    else 1 in
  let rest := fun cfg' =>
    forEachR (resolveOption def cv commandId table) cfg'
      (seq (S optionOrderIdx) (CFG_OPTION_TOTAL def - S optionOrderIdx)) in
  optionOrderIdx < CFG_OPTION_TOTAL def ->
  forEachR (resolveOption def cv commandId table) cfg0 (seq 0 optionOrderIdx) = Ok cfg ->
  optionResolveOrder def !! optionOrderIdx = Some optionId ->
  option_ cfg !! optionId = Some configOption ->
  valid configOption = true ->
  (cfgOptionGroup def optionId = true ->
   is_Some (optionGroup cfg !! cfgOptionGroupId def optionId)) ->
  resolveOptions def cv commandId table cfg0
  = (resolveOption def cv commandId table cfg optionOrderIdx ≫= rest)
  /\ resolveOption def cv commandId table cfg optionOrderIdx
     = forEachR (resolveIndex def cv commandId table optionId) cfg (seq 0 optionIndexTotal)
  /\ (optionIndexTotal = 0 ->
      resolveOption def cv commandId table cfg optionOrderIdx = Ok cfg)
  /\ (forall optionIdx rawIdx cfgI cfg1 value,
        optionIdx < optionIndexTotal ->
        forEachR (resolveIndex def cv commandId table optionId) cfg (seq 0 optionIdx)
        = Ok cfgI ->
        valueOk def optionId value = true ->
        optionRawIdx def cfgI optionId optionIdx = Ok rawIdx ->
        tableValue table optionId rawIdx = Some value ->
        optionIsSet def optionId value = false ->
        cfgOptionFlagsSet cfgI optionId optionIdx (negate value) (reset value) = Ok cfg1 ->
        dependCheck def commandId cfg1 optionId false value = Ok true ->
        let unset :=
          if negate value then cfgOptionSet def cfg1 optionId cfgSourceParam None
          else
            match cfgDefOptionDefault def commandId optionId with
            | Some defaultValue =>
                cfgOptionSet def cfg1 optionId cfgSourceDefault (Some (VarStr defaultValue))
            | None =>
                if cfgDefOptionRequired def commandId optionId && negb (help cfg) then
                  Throw OptionRequiredError
                    (cfgCommandName def commandId +:+ " command requires option: " +:+
                     cfgOptionName def optionId +:+
                     (if decide (cfgDefOptionSection def optionId = cfgDefSectionStanza)
                      then LF_STR +:+ "HINT: does this stanza exist?" else ""))
                else Ok cfg1
            end in
        let later := fun cfg' =>
          forEachR (resolveIndex def cv commandId table optionId) cfg'
            (seq (S optionIdx) (optionIndexTotal - S optionIdx)) in
        resolveIndex def cv commandId table optionId cfgI optionIdx = unset
        /\ resolveOption def cv commandId table cfg optionOrderIdx = (unset ≫= later)
        /\ resolveOptions def cv commandId table cfg0 = ((unset ≫= later) ≫= rest)
        /\ (forall cfg',
              unset = Ok cfg' -> negate value = true ->
              exists configOption',
                option_ cfg' !! optionId = Some configOption'
                /\ optionSource configOption' = cfgSourceParam
                /\ optionValue configOption' = None)
        /\ (forall cfg' defaultValue,
              unset = Ok cfg' -> negate value = false ->
              cfgDefOptionDefault def commandId optionId = Some defaultValue ->
              exists configOption' stored,
                option_ cfg' !! optionId = Some configOption'
                /\ optionSource configOption' = cfgSourceDefault
                /\ cfgOptionSetValue def optionId (VarStr defaultValue) = Ok stored
                /\ optionValue configOption' = Some stored)).
Proof.
  intros commandId optionIndexTotal rest Horder Hreach Hid Hoption Hvalid Hgroup.
  assert (Hall : resolveOptions def cv commandId table cfg0
                 = (resolveOption def cv commandId table cfg optionOrderIdx ≫= rest)).
  { unfold resolveOptions. rewrite (seq_split _ _ Horder), forEachR_app, Hreach.
    rewrite Result_bind_Ok, forEachR_cons. reflexivity. }
  assert (Hopt : resolveOption def cv commandId table cfg optionOrderIdx
                 = forEachR (resolveIndex def cv commandId table optionId) cfg
                     (seq 0 optionIndexTotal)).
  { unfold resolveOption, arrayGet. rewrite Hid, Result_bind_Ok, Hoption, Result_bind_Ok.
    rewrite Hvalid. simpl negb. cbv iota. unfold optionIndexTotal.
    destruct (cfgOptionGroup def optionId).
    - destruct (Hgroup eq_refl) as [group Hg]. rewrite Hg. reflexivity.
    - reflexivity. }
  split; [exact Hall|]. split; [exact Hopt|]. split.
  { intros Hzero. rewrite Hopt, Hzero. reflexivity. }
  intros optionIdx rawIdx cfgI cfg1 value Hidx HcfgI Hok Hraw Hvalue Hset Hflags Hdepend
    unset later.
  destruct (resolveIndexes_fields _ _ _ _ _ _ _ _ HcfgI) as (Hcmd & Hhelp & _).
  fold commandId in Hcmd.
  pose proof (resolveIndex_unset_index def cv table optionId optionIdx rawIdx cfgI cfg1
                value) as Hindex.
  cbv zeta in Hindex. rewrite Hcmd, Hhelp in Hindex.
  destruct (Hindex Hok Hraw Hvalue Hset Hflags Hdepend) as (Heq & Hnull & Hdefault).
  fold unset in Heq.
  assert (Hstep : resolveOption def cv commandId table cfg optionOrderIdx
                  = (unset ≫= later)).
  { rewrite Hopt, (seq_split _ _ Hidx), forEachR_app, HcfgI, Result_bind_Ok.
    rewrite forEachR_cons, Heq. reflexivity. }
  split; [exact Heq|]. split; [exact Hstep|]. split; [rewrite Hall, Hstep; reflexivity|].
  split.
  - intros cfg' Hrun Hn. apply (Hnull cfg'); [rewrite Heq|]; assumption.
  - intros cfg' defaultValue Hrun Hn Hd.
    apply (Hdefault cfg' defaultValue); [rewrite Heq| |]; assumption.
Qed.


Lemma resolveOption_unset_witness :
  (cfg ← resolveOption Sample.define Sample.convertNone Sample.cmdBackup
           (Sample.tableBackup true) (Sample.configReached (Sample.tableBackup true) 4) 4;
   Ok (option_ cfg !! Sample.optCompress))
  = Ok (Some (mkConfigOption true {[0 := mkConfigOptionValue false false]}
                cfgSourceDefault (Some (VarBool true))))
  /\ resolveOptions Sample.define Sample.convertNone Sample.cmdBackup
       (Sample.tableBackup false) Sample.configBackup
     = Throw OptionRequiredError "backup command requires option: stanza".
Proof.
  split.
  - destruct (resolveOption_unset Sample.define Sample.convertNone
                (Sample.tableBackup true) Sample.configBackup
                (Sample.configReached (Sample.tableBackup true) 4) 4 Sample.optCompress
                (mkConfigOption true ∅ cfgSourceDefault None))
      as (_ & _ & _ & Hindex);
      [vm_compute; lia | vm_compute; reflexivity | vm_compute; reflexivity
      | vm_compute; reflexivity | reflexivity | discriminate |].
    destruct (Hindex 0 0 (Sample.configReached (Sample.tableBackup true) 4)
                (Sample.configFlags (Sample.configReached (Sample.tableBackup true) 4)
                   Sample.optCompress 0 parseOptionValueZero)
                parseOptionValueZero) as (_ & Hstep & _);
      [vm_compute; lia | vm_compute; reflexivity..|].
    assert (Hcommand : command (Sample.configReached (Sample.tableBackup true) 4)
                       = Sample.cmdBackup) by (vm_compute; reflexivity).
    rewrite Hcommand in Hstep. rewrite Hstep. vm_compute. reflexivity.
  - destruct (resolveOption_unset Sample.define Sample.convertNone
                (Sample.tableBackup false) Sample.configBackup
                (Sample.configReached (Sample.tableBackup false) 3) 3 Sample.optStanza
                (mkConfigOption true ∅ cfgSourceDefault None))
      as (_ & _ & _ & Hindex);
      [vm_compute; lia | vm_compute; reflexivity | vm_compute; reflexivity
      | vm_compute; reflexivity | reflexivity | discriminate |].
    destruct (Hindex 0 0 (Sample.configReached (Sample.tableBackup false) 3)
                (Sample.configFlags (Sample.configReached (Sample.tableBackup false) 3)
                   Sample.optStanza 0 parseOptionValueZero)
                parseOptionValueZero) as (_ & _ & Hall & _);
      [vm_compute; lia | vm_compute; reflexivity..|].
    assert (Hcommand : command (Sample.configReached (Sample.tableBackup false) 3)
                       = Sample.cmdBackup) by (vm_compute; reflexivity).
    rewrite Hcommand in Hall. rewrite Hall. vm_compute. reflexivity.
Defined.

(** C4 as it was stated fails for a grouped option: pg-path is valid for
    backup, required, has no default and declares no depend, and help was
    not requested; when no index of its group was found Phase 4 gives the
    group the total 0 and Phase 5 ends without error, with no value and no
    source committed for the option. *)
Lemma resolveOption_unset_counterexample :
  cfgDefOptionValid Sample.define Sample.cmdBackup Sample.optPgPath = true
  /\ cfgDefOptionRequired Sample.define Sample.cmdBackup Sample.optPgPath = true
  /\ cfgDefOptionDefault Sample.define Sample.cmdBackup Sample.optPgPath = None
  /\ cfgDefOptionDepend Sample.define Sample.cmdBackup Sample.optPgPath = false
  /\ parseGroups Sample.define Sample.cmdBackup (Sample.tableBackup true)
       (Sample.configCommand Sample.cmdBackup)
     = Ok Sample.configBackup
  /\ help Sample.configBackup = false
  /\ (cfg ← resolveOptions Sample.define Sample.convertNone Sample.cmdBackup
             (Sample.tableBackup true) Sample.configBackup;
      Ok (option_ cfg !! Sample.optPgPath))
     = Ok (Some (mkConfigOption true ∅ cfgSourceDefault None)).
Proof. repeat split; vm_compute; reflexivity. Qed.

(** ** The legacy config file *)

Lemma M_bind_run {A B} (m : M A) (k : A -> M B) (log : list Event) :
  (m ≫= k) log
  = match m log with
    | (Ok a, log') => k a log'
    | (Throw e msg, log') => (Throw e msg, log')
    | (NullDeref, log') => (NullDeref, log')
    | (OutOfBounds, log') => (OutOfBounds, log')
    end.
Proof. reflexivity. Qed.

Lemma storageGetP_run sys file ignoreMissing log :
  storageGetP sys file ignoreMissing log
  = (match storageFile sys file with
     | Some content => Ok (Some content)
     | None =>
         if ignoreMissing then Ok None
         else Throw FileMissingError
                ("unable to open missing file '" +:+ file +:+ "' for read")
     end,
     log ++ [EvStorageGet file ignoreMissing]).
Proof.
  unfold storageGetP. unfold_M.
  destruct (storageFile sys file); [reflexivity|]. destruct ignoreMissing; reflexivity.
Qed.

Lemma cfgFileLoadPart_log sys config configPart log :
  (cfgFileLoadPart sys config configPart log).2 = log.
Proof.
  unfold cfgFileLoadPart. unfold_M.
  repeat case_match; simplify_eq; reflexivity.
Qed.

Lemma cfgFileLoadParts_log sys configIncludePath entries :
  forall result log,
    exists reads,
      (cfgFileLoadParts sys result configIncludePath entries log).2 = log ++ reads.
Proof.
  induction entries as [|entry entries IH]; intros result log; simpl.
  - exists []. unfold_M. simpl. rewrite app_nil_r. reflexivity.
  - rewrite M_bind_run, storageGetP_run.
    set (read := EvStorageGet (configIncludePath +:+ "/" +:+ entry) true).
    assert (Hpart : forall part,
              exists reads,
                ((cfgFileLoadPart sys result part
                  ≫= fun result' => cfgFileLoadParts sys result' configIncludePath entries)
                   (log ++ [read])).2 = log ++ reads).
    { intros part. rewrite M_bind_run.
      pose proof (cfgFileLoadPart_log sys result part (log ++ [read])) as Hlog.
      destruct (cfgFileLoadPart sys result part (log ++ [read]))
        as [[result'| | |] log1]; simpl in Hlog; subst log1;
        try (exists [read]; reflexivity).
      destruct (IH result' (log ++ [read])) as [reads Hreads].
      exists (read :: reads). rewrite Hreads, <- app_assoc. reflexivity. }
    destruct (storageFile sys (configIncludePath +:+ "/" +:+ entry)) as [content|];
      apply Hpart.
Qed.

(** The events of the include directory begin with its listing. *)
Lemma cfgFileLoadInclude_log def sys optionList plan result log :
  exists rest,
    (cfgFileLoadInclude def sys optionList plan result log).2 = log ++ rest
    /\ (rest = []
        \/ exists path errorOnMissing rest',
             rest = EvStorageList path errorOnMissing :: rest').
Proof.
  assert (Hnone : forall (r : Result (option string)),
            exists rest, (r, log).2 = log ++ rest
              /\ (rest = [] \/ exists path errorOnMissing rest',
                                 rest = EvStorageList path errorOnMissing :: rest')).
  { intros r. exists []. simpl. rewrite app_nil_r. auto. }
  unfold cfgFileLoadInclude.
  destruct (loadConfigInclude plan); [|apply Hnone].
  rewrite M_bind_run.
  assert (Hini : exists r : Result unit,
            (match result with
             | Some content => _ ← liftR (iniParse sys content); mret ()
             | None => mret ()
             end) log = (r, log)).
  { destruct result as [content|]; [|eexists; reflexivity].
    rewrite M_bind_run. unfold liftR.
    destruct (iniParse sys content); eexists; reflexivity. }
  destruct Hini as [r ->]. destruct r as [[]| | |]; try apply Hnone.
  rewrite M_bind_run.
  assert (Hpath : exists r : Result string,
            (if configIncludeRequired plan
             then liftR (indexList0Value optionList (cfgOptConfigIncludePath def))
             else mret (optConfigIncludePathDefaultNew plan)) log = (r, log)).
  { destruct (configIncludeRequired plan); eexists; reflexivity. }
  destruct Hpath as [r ->]. destruct r as [path| | |]; try apply Hnone.
  rewrite M_bind_run. unfold storageListP. rewrite M_bind_run. unfold tell.
  destruct (storagePath sys path) as [entries|].
  - unfold mret, M_ret. destruct (filter _ entries) as [|entry entries'].
    + eexists. split; [reflexivity|]. right. eauto.
    + destruct (cfgFileLoadParts_log sys path (strLstSort (entry :: entries')) result
                  (log ++ [EvStorageList path (configIncludeRequired plan)]))
        as [reads Hreads].
      exists (EvStorageList path (configIncludeRequired plan) :: reads).
      rewrite Hreads, <- app_assoc. split; [reflexivity|]. right. eauto.
  - destruct (configIncludeRequired plan);
      (eexists; split; [reflexivity|]; right; eauto).
Qed.

(** C6, amended: the reads of the main config file by [cfgFileLoad].  With
    --no-config no main file is read.  Else the file is read once, the one that
    --config names, required, or the default, rebased by --config-path and
    not required.  When it was not required, is not found, and its name
    equals as a string the default that was passed in, the file of the
    original default is read, once and with the same ignoreMissing; so the
    retry is made when neither --config nor --config-path was given, and
    also when --config-path rebases the default to the same name.  No other
    case reads it; what follows is the listing of the include path. *)
Theorem cfgFileLoad_legacy (def : Define) (sys : System) (optionList : ParseOptionList)
    (optConfigDefault optConfigIncludePathDefault origConfigDefault : string)
    (configFileName : string) (plan : FileLoadPlan) (log : list Event) :
  let configFound := indexList0Found optionList (cfgOptConfig def) in
  let noConfig := indexList0Negate optionList (cfgOptConfig def) in
  let configPathFound := indexList0Found optionList (cfgOptConfigPath def) in
  let required := configFound && negb noConfig in
  let missing := bool_decide (storageFile sys configFileName = None) in
  let retry :=
    negb noConfig && negb configFound && missing
    && String.eqb configFileName optConfigDefault in
  let mainReads :=
    if noConfig then []
    else EvStorageGet configFileName (negb required) ::
         (if retry then [EvStorageGet origConfigDefault (negb required)] else []) in
  let mainResult :=
    if noConfig then None
    else match storageFile sys configFileName with
         | Some content => Some content
         | None => if retry then storageFile sys origConfigDefault else None
         end in
  cfgFileLoadPlan def optionList optConfigDefault optConfigIncludePathDefault = Ok plan ->
  (if required then indexList0Value optionList (cfgOptConfig def)
   else Ok (optConfigDefaultNew plan)) = Ok configFileName ->
  (loadConfig plan = negb noConfig
   /\ configRequired plan = required
   /\ optConfigDefaultCurrent plan = optConfigDefault
   /\ (configPathFound = false -> optConfigDefaultNew plan = optConfigDefault)
   /\ (forall configPath,
         configPathFound = true ->
         indexList0Value optionList (cfgOptConfigPath def) = Ok configPath ->
         optConfigDefaultNew plan = configPath +:+ "/" +:+ strBaseZ optConfigDefault))
  /\ cfgFileLoad def sys optionList optConfigDefault optConfigIncludePathDefault
       origConfigDefault log
     = (if required && missing then
          (Throw FileMissingError
             ("unable to open missing file '" +:+ configFileName +:+ "' for read"),
           log ++ mainReads)
        else cfgFileLoadInclude def sys optionList plan mainResult (log ++ mainReads))
  /\ (exists rest,
        (cfgFileLoad def sys optionList optConfigDefault optConfigIncludePathDefault
           origConfigDefault log).2
        = log ++ mainReads ++ rest
        /\ (rest = []
            \/ exists path errorOnMissing rest',
                 rest = EvStorageList path errorOnMissing :: rest'))
  /\ (retry = true ->
      noConfig = false /\ configFound = false
      /\ storageFile sys configFileName = None
      /\ configFileName = optConfigDefault
      /\ optConfigDefaultNew plan = optConfigDefault
      /\ mainReads = [EvStorageGet optConfigDefault true;
                      EvStorageGet origConfigDefault true]).
Proof.
  intros configFound noConfig configPathFound required missing retry mainReads mainResult
    Hplan Hname.
  assert (Hfields : loadConfig plan = negb noConfig
                    /\ configRequired plan = required
                    /\ optConfigDefaultCurrent plan = optConfigDefault
                    /\ (configPathFound = false ->
                        optConfigDefaultNew plan = optConfigDefault)
                    /\ (forall configPath,
                          configPathFound = true ->
                          indexList0Value optionList (cfgOptConfigPath def)
                          = Ok configPath ->
                          optConfigDefaultNew plan
                          = configPath +:+ "/" +:+ strBaseZ optConfigDefault)).
  { pose proof Hplan as Hp. unfold cfgFileLoadPlan in Hp.
    fold configFound noConfig configPathFound in Hp.
    destruct configPathFound.
    - destruct (indexList0Value optionList (cfgOptConfigPath def)) as [configPath| | |];
        try discriminate.
      rewrite Result_bind_Ok in Hp. injection Hp as <-. simpl. unfold required.
      split; [reflexivity|]. split; [destruct noConfig, configFound; reflexivity|].
      split; [reflexivity|]. split; [discriminate|]. intros ? _ [= <-]. reflexivity.
    - rewrite Result_bind_Ok in Hp. injection Hp as <-. simpl. unfold required.
      split; [reflexivity|]. split; [destruct noConfig, configFound; reflexivity|].
      split; [reflexivity|]. split; [reflexivity|]. discriminate. }
  destruct Hfields as (Hload & Hreq & Hcurrent & Hnew & Hrebased).
  assert (Hrun : cfgFileLoad def sys optionList optConfigDefault
                   optConfigIncludePathDefault origConfigDefault log
                 = (if required && missing then
                      (Throw FileMissingError
                         ("unable to open missing file '" +:+ configFileName +:+
                          "' for read"),
                       log ++ mainReads)
                    else cfgFileLoadInclude def sys optionList plan mainResult
                           (log ++ mainReads))).
  { unfold cfgFileLoad. rewrite M_bind_run. unfold liftR at 1. rewrite Hplan.
    rewrite M_bind_run. unfold cfgFileLoadMain. rewrite Hload, Hreq, Hcurrent.
    assert (Hfile : (if required
                     then liftR (indexList0Value optionList (cfgOptConfig def))
                     else mret (optConfigDefaultNew plan)) log
                    = (Ok configFileName, log)).
    { destruct required; unfold liftR, mret, M_ret; rewrite Hname; reflexivity. }
    unfold mainReads, mainResult, retry, missing.
    destruct noConfig; cbn [negb andb].
    { unfold mret, M_ret. unfold required. rewrite andb_false_r, app_nil_r. reflexivity. }
    rewrite M_bind_run, Hfile, M_bind_run, storageGetP_run.
    destruct (storageFile sys configFileName) as [content|] eqn:Hcontent.
    - rewrite bool_decide_eq_false_2 by discriminate.
      rewrite !andb_false_r. unfold mret, M_ret. reflexivity.
    - rewrite bool_decide_eq_true_2 by reflexivity. rewrite !andb_true_r.
      unfold required. rewrite andb_true_r.
      destruct configFound; cbn [negb andb]; [reflexivity|].
      destruct (String.eqb configFileName optConfigDefault).
      + rewrite storageGetP_run, <- app_assoc. simpl.
        destruct (storageFile sys origConfigDefault); reflexivity.
      + unfold mret, M_ret. reflexivity. }
  split; [repeat split; assumption|]. split; [exact Hrun|]. split.
  - rewrite Hrun. destruct (required && missing).
    + exists []. simpl. rewrite app_nil_r. auto.
    + destruct (cfgFileLoadInclude_log def sys optionList plan mainResult
                  (log ++ mainReads)) as (rest & Hrest & Hshape).
      exists rest. rewrite Hrest, <- app_assoc. auto.
  - intros Hretry. unfold retry, missing in Hretry.
    apply andb_prop in Hretry as [Hretry Heq]. apply andb_prop in Hretry as [Hretry Hmiss].
    apply andb_prop in Hretry as [Hno Hfound].
    apply negb_true_iff in Hno, Hfound. apply bool_decide_eq_true_1 in Hmiss.
    apply String.eqb_eq in Heq.
    assert (Hrequired : required = false) by (unfold required; rewrite Hfound; reflexivity).
    rewrite Hrequired in Hname. injection Hname as Hname.
    split; [assumption|]. split; [assumption|]. split; [assumption|].
    split; [assumption|]. split; [congruence|].
    unfold mainReads, retry, missing. rewrite Hno, Hfound, Hrequired.
    rewrite bool_decide_eq_true_2 by assumption.
    rewrite Heq, String.eqb_refl. reflexivity.
Qed.

Lemma cfgFileLoad_legacy_witness :
  runM (cfgFileLoad Sample.define Sample.system (parseOptionListInit 15)
          "/etc/pgbackrest/pgbackrest.conf" "/etc/pgbackrest/conf.d"
          PGBACKREST_CONFIG_ORIG_PATH_FILE)
  = (Ok (Some Sample.configMain),
     [EvStorageGet "/etc/pgbackrest/pgbackrest.conf" true;
      EvStorageGet "/etc/pgbackrest.conf" true;
      EvStorageList "/etc/pgbackrest/conf.d" false])
  /\ runM (cfgFileLoad Sample.define Sample.system Sample.tableConfig
             "/etc/pgbackrest/pgbackrest.conf" "/etc/pgbackrest/conf.d"
             PGBACKREST_CONFIG_ORIG_PATH_FILE)
     = (Throw FileMissingError
          "unable to open missing file '/etc/pgbackrest/pgbackrest.conf' for read",
        [EvStorageGet "/etc/pgbackrest/pgbackrest.conf" false]).
Proof.
  split.
  - destruct (cfgFileLoad_legacy Sample.define Sample.system (parseOptionListInit 15)
                "/etc/pgbackrest/pgbackrest.conf" "/etc/pgbackrest/conf.d"
                PGBACKREST_CONFIG_ORIG_PATH_FILE "/etc/pgbackrest/pgbackrest.conf"
                Sample.planDefault []) as (_ & Hrun & _);
      [vm_compute; reflexivity | vm_compute; reflexivity |].
    unfold runM. rewrite Hrun. vm_compute. reflexivity.
  - destruct (cfgFileLoad_legacy Sample.define Sample.system Sample.tableConfig
                "/etc/pgbackrest/pgbackrest.conf" "/etc/pgbackrest/conf.d"
                PGBACKREST_CONFIG_ORIG_PATH_FILE "/etc/pgbackrest/pgbackrest.conf"
                (mkFileLoadPlan true false true false "/etc/pgbackrest/pgbackrest.conf"
                   "/etc/pgbackrest/pgbackrest.conf" "/etc/pgbackrest/conf.d") [])
      as (_ & Hrun & _); [vm_compute; reflexivity | vm_compute; reflexivity |].
    unfold runM. rewrite Hrun. vm_compute. reflexivity.
Defined.

(** C6 as it was stated fails when --config-path rebases the default to the
    name it had: with --config-path=/etc/pgbackrest the default
    /etc/pgbackrest/pgbackrest.conf is rebased to /etc/pgbackrest/pgbackrest.conf,
    and when that file is not found the legacy file is read. *)
Lemma cfgFileLoad_legacy_counterexample :
  indexList0Found Sample.tableConfigPath (cfgOptConfigPath Sample.define) = true
  /\ indexList0Value Sample.tableConfigPath (cfgOptConfigPath Sample.define)
     = Ok "/etc/pgbackrest"
  /\ indexList0Found Sample.tableConfigPath (cfgOptConfig Sample.define) = false
  /\ runM (cfgFileLoad Sample.define Sample.system Sample.tableConfigPath
             "/etc/pgbackrest/pgbackrest.conf" "/etc/pgbackrest/conf.d"
             PGBACKREST_CONFIG_ORIG_PATH_FILE)
     = (Ok (Some Sample.configMain),
        [EvStorageGet "/etc/pgbackrest/pgbackrest.conf" true;
         EvStorageGet "/etc/pgbackrest.conf" true;
         EvStorageList "/etc/pgbackrest/conf.d" false]).
Proof. repeat split; vm_compute; reflexivity. Qed.

(** * More of the parser *)

(** ** Find an option by name *)

Lemma optionFindFrom_spec (list : list struct_option) (option : string) (findIdx : nat) :
  let found := optionFindFrom list option findIdx in
  findIdx <= found <= findIdx + length list
  /\ (forall entry, list !! (found - findIdx) = Some entry -> name entry = option)
  /\ (forall i entry, i < found - findIdx -> list !! i = Some entry -> name entry <> option).
Proof.
  revert findIdx. induction list as [|first list IH]; intros findIdx; simpl.
  - split; [lia|]. split; [intros entry; rewrite lookup_nil; discriminate|].
    intros i entry Hi. lia.
  - destruct (String.eqb_spec option (name first)) as [Heq|Hne].
    + split; [lia|]. rewrite Nat.sub_diag. split.
      * intros entry [= <-]. auto.
      * intros i entry Hi. lia.
    + destruct (IH (S findIdx)) as (Hrange & Hhit & Hmiss).
      split; [lia|].
      replace (optionFindFrom list option (S findIdx) - findIdx)
        with (S (optionFindFrom list option (S findIdx) - S findIdx)) by lia.
      split; [exact Hhit|].
      intros [|i] entry Hi; simpl.
      * intros [= <-]. auto.
      * apply Hmiss. lia.
Qed.

(** X1: [optionFind] returns the index of the first entry of the option
    list that has the name.  When no entry has the name it returns the index
    of the entry that ends the list, where the name is NULL. *)
Theorem optionFind_first (def : Define) (option : string) :
  optionFind def option <= length (optionList def)
  /\ (forall entry,
        optionList def !! optionFind def option = Some entry -> name entry = option)
  /\ (forall findIdx entry,
        findIdx < optionFind def option ->
        optionList def !! findIdx = Some entry -> name entry <> option)
  /\ (optionList def !! optionFind def option = None <->
      forall entry, In entry (optionList def) -> name entry <> option).
Proof.
  unfold optionFind.
  destruct (optionFindFrom_spec (optionList def) option 0) as (Hrange & Hhit & Hmiss).
  cbv zeta in *. rewrite Nat.sub_0_r in Hhit, Hmiss.
  split; [lia|]. split; [exact Hhit|]. split; [exact Hmiss|]. split.
  - intros Hnone entry Hin.
    apply list_elem_of_In, list_elem_of_lookup in Hin as [i Hi].
    apply (Hmiss i); [|assumption].
    apply lookup_ge_None in Hnone. apply lookup_lt_Some in Hi. lia.
  - intros Hnot.
    destruct (optionList def !! optionFindFrom (optionList def) option 0)
      as [entry|] eqn:Hentry; [|reflexivity].
    exfalso. apply (Hnot entry); [|exact (Hhit _ eq_refl)].
    apply list_elem_of_In, list_elem_of_lookup. eauto.
Qed.
(** ** The option code *)

Lemma forallb_below (n : nat) (P : nat -> bool) :
  forallb P (seq 0 n) = true -> forall i, i < n -> P i = true.
Proof.
  intros Hall i Hi. rewrite forallb_forall in Hall. apply Hall, in_seq. lia.
Qed.

(** X2: the fields of an option code do not overlap.  A code that is built
    from the option flag, the negate, reset and deprecate flags, an index
    below 256 shifted by [PARSE_INDEX_SHIFT] and an id below 256 is decoded
    by [configParse] to the same id, index, negate and reset. *)
Theorem parseOptionCode_decode (optionId optionIdx : nat)
    (negateFlag resetFlag deprecateFlag : bool) :
  optionId < 256 -> optionIdx < 256 ->
  let code :=
    Z.lor PARSE_OPTION_FLAG
      (Z.lor (if negateFlag then PARSE_NEGATE_FLAG else 0%Z)
         (Z.lor (if resetFlag then PARSE_RESET_FLAG else 0%Z)
            (Z.lor (if deprecateFlag then PARSE_DEPRECATE_FLAG else 0%Z)
               (Z.lor (Z.shiftl (Z.of_nat optionIdx) PARSE_INDEX_SHIFT)
                  (Z.of_nat optionId))))) in
  parseOptionId code = optionId
  /\ parseOptionIdx code = optionIdx
  /\ flagSet code PARSE_NEGATE_FLAG = negateFlag
  /\ flagSet code PARSE_RESET_FLAG = resetFlag
  /\ flagSet code PARSE_DEPRECATE_FLAG = deprecateFlag.
Proof.
  intros Hid Hidx code.
  pose (low := Z.lor (Z.shiftl (Z.of_nat optionIdx) PARSE_INDEX_SHIFT) (Z.of_nat optionId)).
  pose (check := fun (id idx : nat) =>
    let low := Z.lor (Z.shiftl (Z.of_nat idx) PARSE_INDEX_SHIFT) (Z.of_nat id) in
    (Z.land low PARSE_OPTION_MASK =? Z.of_nat id)%Z
    && (Z.land (Z.shiftr low PARSE_INDEX_SHIFT) PARSE_INDEX_MASK =? Z.of_nat idx)%Z
    && (Z.land low PARSE_NEGATE_FLAG =? 0)%Z
    && (Z.land low PARSE_RESET_FLAG =? 0)%Z
    && (Z.land low PARSE_DEPRECATE_FLAG =? 0)%Z).
  assert (Hall : forallb (fun id => forallb (check id) (seq 0 256)) (seq 0 256) = true)
    by (vm_compute; reflexivity).
  pose proof (forallb_below _ _ (forallb_below _ _ Hall optionId Hid) optionIdx Hidx)
    as Hcheck.
  unfold check in Hcheck. cbv zeta in Hcheck. fold low in Hcheck.
  apply andb_prop in Hcheck as [Hcheck Hd]. apply andb_prop in Hcheck as [Hcheck Hr].
  apply andb_prop in Hcheck as [Hcheck Hn]. apply andb_prop in Hcheck as [Hi Hx].
  apply Z.eqb_eq in Hi, Hx, Hn, Hr, Hd.
  unfold parseOptionId, parseOptionIdx, flagSet. subst code. fold low.
  rewrite !Z.shiftr_lor, !Z.land_lor_distr_l, Hi, Hx, Hn, Hr, Hd.
  destruct negateFlag, resetFlag, deprecateFlag;
    (split; [apply Nat2Z.id|]; split; [apply Nat2Z.id|]; repeat split; reflexivity).
Qed.

Lemma parseOptionCode_decode_witness :
  parseOptionId 1073742597 = 5 /\ parseOptionIdx 1073742597 = 3.
Proof.
  destruct (parseOptionCode_decode 5 3 false false false) as (Hid & Hidx & _);
    [lia | lia |].
  split; [exact Hid | exact Hidx].
Defined.
(** ** Phase 1: the loop *)

Lemma parseLoop_app def st rs1 rs2 :
  parseLoop def st (rs1 ++ rs2) = (st1 ← parseLoop def st rs1; parseLoop def st1 rs2).
Proof.
  revert st. induction rs1 as [|r rs1 IH]; intros st; simpl; [reflexivity|].
  unfold mbind, Result_bind.
  destruct (parseStep def st r) as [st1| | |]; try reflexivity. apply IH.
Qed.

(** X3: a secure option on the command line stops Phase 1.  When the
    tokens before it are accepted, the parser throws OptionInvalidError with
    the two hints, whatever the state of the table and the flags of the
    name, and before the record of the option is looked up. *)
Theorem parseLoop_secure (def : Define) (st st1 : ParseState)
    (before after : list GetoptResult) (optionListIdx : nat) (optarg : string)
    (entry : struct_option) :
  optionList def !! optionListIdx = Some entry ->
  parseOptionId (val entry) < CFG_OPTION_TOTAL def ->
  cfgDefOptionSecure def (parseOptionId (val entry)) = true ->
  parseLoop def st before = Ok st1 ->
  parseLoop def st (before ++ GetoptOption optionListIdx optarg :: after)
  = Throw OptionInvalidError
      ("option '" +:+
       cfgOptionIdxName def (parseOptionId (val entry)) (parseOptionIdx (val entry)) +:+
       "' is not allowed on the command-line" +:+ LF_STR +:+
       "HINT: this option could expose secrets in the process list." +:+ LF_STR +:+
       "HINT: specify the option in a configuration file or an environment variable instead.").
Proof.
  intros Hentry Hid Hsecure Hbefore.
  rewrite parseLoop_app, Hbefore, Result_bind_Ok. simpl.
  unfold parseStep, parseOption. rewrite Hentry. cbv zeta.
  apply Nat.ltb_lt in Hid. rewrite Hid. simpl. rewrite Hsecure. reflexivity.
Qed.

Lemma parseLoop_secure_witness :
  parseLoop Sample.define (parseStateInit Sample.define "pgbackrest")
    [GetoptArg "backup"; GetoptOption 17 "secret"; GetoptOption 4 "db"]
  = Throw OptionInvalidError
      ("option 'repo-cipher-pass' is not allowed on the command-line" +:+ LF_STR +:+
       "HINT: this option could expose secrets in the process list." +:+ LF_STR +:+
       "HINT: specify the option in a configuration file or an environment variable instead.").
Proof.
  apply (parseLoop_secure Sample.define (parseStateInit Sample.define "pgbackrest")
           (mkParseState (Sample.configCommand Sample.cmdBackup)
              (parseOptionListInit 15) true None true)
           [GetoptArg "backup"] [GetoptOption 4 "db"] 17 "secret"
           (mkOption "repo-cipher-pass" required_argument
              (Sample.optVal Sample.optRepoCipherPass 0 false false))).
  - reflexivity.
  - vm_compute. lia.
  - reflexivity.
  - reflexivity.
Defined.

Lemma parseOption_frame def st optionListIdx optarg st' :
  parseOption def st optionListIdx optarg = Ok st' ->
  config st' = config st /\ commandSet st' = commandSet st
  /\ commandParamList st' = commandParamList st.
Proof.
  unfold parseOption, ASSERT, mbind, Result_bind. intros Hrun.
  repeat case_match; simplify_eq; simpl; auto.
Qed.

(** X4: once the command is set, every argument that is not an option is a
    parameter of the command.  When the loop of Phase 1 accepts the tokens,
    the command and its role are as before and the parameters are the ones
    found before followed by the arguments in the order of the command line;
    the options between them change neither. *)
Theorem parseLoop_params (def : Define) (rs : list GetoptResult) (st st' : ParseState) :
  let args :=
    omap (fun r => match r with GetoptArg arg => Some arg | _ => None end) rs in
  commandSet st = true ->
  parseLoop def st rs = Ok st' ->
  config st' = config st
  /\ commandSet st' = true
  /\ commandParamList st'
     = match args with
       | [] => commandParamList st
       | _ => Some (default [] (commandParamList st) ++ args)
       end.
Proof.
  cbv zeta.
  set (f := fun r => match r with GetoptArg arg => Some arg | _ => None end).
  revert st. induction rs as [|r rs IH]; intros st Hset Hrun; simpl in Hrun.
  - injection Hrun as <-. auto.
  - unfold mbind, Result_bind in Hrun.
    destruct (parseStep def st r) as [st1| | |] eqn:Hstep; try discriminate.
    unfold parseStep, mbind, Result_bind in Hstep.
    destruct r as [arg|arg|arg|optionListIdx optarg]; try discriminate.
    + unfold parseArg in Hstep. rewrite Hset in Hstep. simpl in Hstep.
      injection Hstep as <-.
      pose proof (fun H => IH _ H Hrun) as Hnext. simpl in Hnext.
      destruct (Hnext eq_refl) as (Hcfg & Hcmd & Hparams).
      split; [assumption|]. split; [assumption|]. rewrite Hparams.
      change (omap f (GetoptArg arg :: rs)) with (arg :: omap f rs).
      destruct (omap f rs) as [|arg' args]; [reflexivity|].
      rewrite <- app_assoc. reflexivity.
    + destruct (parseOption def st optionListIdx optarg) as [st2| | |] eqn:Hoption;
        try discriminate.
      injection Hstep as <-.
      destruct (parseOption_frame _ _ _ _ _ Hoption) as (Hcfg2 & Hcmd2 & Hparams2).
      pose proof (fun H => IH _ H Hrun) as Hnext. simpl in Hnext.
      destruct (Hnext (eq_trans Hcmd2 Hset)) as (Hcfg & Hcmd & Hparams).
      change (omap f (GetoptOption optionListIdx optarg :: rs)) with (omap f rs).
      rewrite Hcfg, Hcfg2, Hparams, Hparams2. auto.
Qed.

Lemma parseLoop_params_witness :
  parseLoop Sample.define (Sample.stateOf Sample.cmdArchivePush Sample.tableDbInclude)
    [GetoptArg "pg_wal/1"; GetoptOption 11 "db2"; GetoptArg "pg_wal/2"]
  = Ok (mkParseState (Sample.configCommand Sample.cmdArchivePush)
          (tableSet Sample.tableDbInclude Sample.optDbInclude 0
             (Sample.valueFound cfgSourceParam ["db1"; "db2"]))
          true (Some ["pg_wal/1"; "pg_wal/2"]) true)
  /\ commandParamList
       (mkParseState (Sample.configCommand Sample.cmdArchivePush)
          (tableSet Sample.tableDbInclude Sample.optDbInclude 0
             (Sample.valueFound cfgSourceParam ["db1"; "db2"]))
          true (Some ["pg_wal/1"; "pg_wal/2"]) true)
     = Some ["pg_wal/1"; "pg_wal/2"].
Proof.
  split; [reflexivity|].
  destruct (parseLoop_params Sample.define
              [GetoptArg "pg_wal/1"; GetoptOption 11 "db2"; GetoptArg "pg_wal/2"]
              (Sample.stateOf Sample.cmdArchivePush Sample.tableDbInclude)
              (mkParseState (Sample.configCommand Sample.cmdArchivePush)
                 (tableSet Sample.tableDbInclude Sample.optDbInclude 0
                    (Sample.valueFound cfgSourceParam ["db1"; "db2"]))
                 true (Some ["pg_wal/1"; "pg_wal/2"]) true))
    as (_ & _ & Hparams); [reflexivity | reflexivity |].
  exact Hparams.
Defined.
(** ** The index lists are never allocated *)

Lemma tableShape_tableSet table optionId optionIdx value :
  tableShape (tableSet table optionId optionIdx value) = tableShape table.
Proof.
  unfold tableSet, tableShape.
  destruct (table !! optionId) as [po|] eqn:Hpo; [|reflexivity].
  rewrite list_fmap_insert. simpl. rewrite length_insert.
  apply list_insert_id. rewrite list_lookup_fmap, Hpo. reflexivity.
Qed.

Lemma parseOption_shape def st optionListIdx optarg st' :
  parseOption def st optionListIdx optarg = Ok st' ->
  tableShape (parseOptionList st') = tableShape (parseOptionList st).
Proof.
  unfold parseOption, ASSERT, mbind, Result_bind. intros Hrun.
  repeat case_match; simplify_eq; simpl; apply tableShape_tableSet.
Qed.

Lemma parseStep_shape def st r st' :
  parseStep def st r = Ok st' ->
  tableShape (parseOptionList st') = tableShape (parseOptionList st).
Proof.
  unfold parseStep, mbind, Result_bind. intros Hrun.
  destruct r as [arg|arg|arg|optionListIdx optarg]; try discriminate.
  - unfold parseArg, mbind, Result_bind in Hrun.
    repeat case_match; simplify_eq; reflexivity.
  - destruct (parseOption def st optionListIdx optarg) as [st1| | |] eqn:Hoption;
      try discriminate.
    injection Hrun as <-. simpl. eapply parseOption_shape; eassumption.
Qed.

Lemma parseLoop_shape def rs :
  forall st st', parseLoop def st rs = Ok st' ->
    tableShape (parseOptionList st') = tableShape (parseOptionList st).
Proof.
  induction rs as [|r rs IH]; intros st st' Hrun; simpl in Hrun.
  - injection Hrun as <-. reflexivity.
  - unfold mbind, Result_bind in Hrun.
    destruct (parseStep def st r) as [st1| | |] eqn:Hstep; try discriminate.
    rewrite (IH _ _ Hrun). eapply parseStep_shape; eassumption.
Qed.

Lemma parseEnv_shape def commandId table keyValue log table' log' :
  parseEnv def commandId table keyValue log = (Ok table', log') ->
  tableShape table' = tableShape table.
Proof.
  unfold parseEnv. intros Hrun. unfold_M.
  repeat case_match; simplify_eq; first [reflexivity | apply tableShape_tableSet].
Qed.

Lemma parseEnvLoop_shape def commandId env :
  forall table environIdx log table' log',
    parseEnvLoop def commandId table environIdx env log = (Ok table', log') ->
    tableShape table' = tableShape table.
Proof.
  induction env as [|keyValue env IH]; intros table environIdx log table' log' Hrun;
    simpl in Hrun.
  - unfold_M. simplify_eq. reflexivity.
  - unfold mbind, M_bind, tell in Hrun.
    destruct (parseEnv def commandId table keyValue (log ++ [EvEnviron environIdx]))
      as [[table1| | |] log1] eqn:Hstep; try discriminate.
    rewrite (IH _ _ _ _ _ Hrun). eapply parseEnv_shape; eassumption.
Qed.

Lemma parseKey_shape def commandId config sectionIdx section st key log st' log' :
  parseKey def commandId config sectionIdx section st key log = (Ok st', log') ->
  tableShape st'.1 = tableShape st.1.
Proof.
  unfold parseKey. destruct st as [table optionFound]. intros Hrun. unfold_M.
  repeat case_match; simplify_eq; simpl; first [reflexivity | apply tableShape_tableSet].
Qed.

Lemma parseSection_shape def commandId config st section log st' log' :
  parseSection def commandId config st section log = (Ok st', log') ->
  tableShape st'.1 = tableShape st.1.
Proof.
  unfold parseSection. destruct st as [table sectionIdx]. intros Hrun.
  unfold mbind, M_bind in Hrun.
  destruct (forEach _ _ _ _) as [[[table1 found1]| | |] log1] eqn:Hkeys; try discriminate.
  unfold_M. simplify_eq. simpl.
  apply (forEach_invariant (fun s s' => tableShape s'.1 = tableShape s.1)) in Hkeys;
    [exact Hkeys | reflexivity | intros s1 s2 s3 H12 H23; congruence |].
  intros s a l s' l'. apply parseKey_shape.
Qed.

Lemma parseConfigString_shape def sys commandId table configString log table' log' :
  parseConfigString def sys commandId table configString log = (Ok table', log') ->
  tableShape table' = tableShape table.
Proof.
  unfold parseConfigString, parseSections. intros Hrun.
  destruct configString as [content|].
  - unfold mbind, M_bind, liftR in Hrun.
    destruct (iniParse sys content) as [config| | |]; try discriminate.
    destruct (sectionList def commandId table) as [sections| | |]; try discriminate.
    destruct (forEach (parseSection def commandId config) (table, 0) sections log)
      as [[[table1 idx1]| | |] log1] eqn:Hsections; try discriminate.
    unfold_M. simplify_eq.
    apply (forEach_invariant (fun s s' => tableShape s'.1 = tableShape s.1)) in Hsections;
      [exact Hsections | reflexivity | intros s1 s2 s3 H12 H23; congruence |].
    intros s a l s' l'. apply parseSection_shape.
  - unfold_M. simplify_eq. reflexivity.
Qed.

Lemma tableShape_init table total :
  tableShape table = tableShape (parseOptionListInit total) ->
  table = parseOptionListInit total.
Proof.
  unfold tableShape, parseOptionListInit. rewrite fmap_replicate. simpl.
  revert total. induction table as [|po table IH]; intros [|total]; simpl;
    try discriminate; [reflexivity|].
  intros [= Halloc Htotal Hlen Hrest].
  rewrite (IH _ Hrest). destruct po as [alloc tot l]; simpl in *. subst.
  apply nil_length_inv in Hlen. subst. reflexivity.
Qed.

(** X5: no phase allocates or grows an index list.  When Phases 1, 2 and 3
    succeed, every index list of the staging table has the allocation, the
    total and the length it had before Phase 1; so on the table that
    [configParse] starts with, where they are all zero, the phases succeed
    only when they leave the table as it was, with no record. *)
Theorem phases_keep_shape (def : Define) (sys : System) (st st' : ParseState)
    (rs : list GetoptResult) (commandId : ConfigCommand)
    (table2 table3 : ParseOptionList) (configString : option string)
    (log1 log2 log2' log3 : list Event) :
  parseLoop def st rs = Ok st' ->
  parseEnvLoop def commandId (parseOptionList st') 0 (environ sys) log1
  = (Ok table2, log2) ->
  parseConfigString def sys commandId table2 configString log2' = (Ok table3, log3) ->
  tableShape table3 = tableShape (parseOptionList st)
  /\ (forall total,
        parseOptionList st = parseOptionListInit total ->
        parseOptionList st' = parseOptionListInit total
        /\ table2 = parseOptionListInit total
        /\ table3 = parseOptionListInit total).
Proof.
  intros Hloop Henv Hfile.
  apply parseLoop_shape in Hloop. apply parseEnvLoop_shape in Henv.
  apply parseConfigString_shape in Hfile.
  split; [congruence|].
  intros total Hinit. rewrite Hinit in Hloop.
  split; [|split]; apply tableShape_init; congruence.
Qed.

Lemma phases_keep_shape_witness :
  tableShape Sample.tableFile = tableShape Sample.tableParam.
Proof.
  destruct (phases_keep_shape Sample.define Sample.system
              (Sample.stateOf Sample.cmdBackup Sample.tableParam)
              (Sample.stateOf Sample.cmdBackup Sample.tableParam) []
              Sample.cmdBackup Sample.tableEnv Sample.tableFile (Some Sample.configMain)
              [] Sample.envRun.2 Sample.envRun.2 Sample.fileRun.2) as [Hshape _];
    [reflexivity | reflexivity | reflexivity |].
  exact Hshape.
Defined.

(** ** What Phases 2 and 3 write *)

Lemma tableStages_refl def table : tableStages def table table.
Proof. intros optionId optionIdx value Hvalue. eauto. Qed.

Lemma tableStages_trans def table1 table2 table3 :
  tableStages def table1 table2 -> tableStages def table2 table3 ->
  tableStages def table1 table3.
Proof.
  intros H12 H23 optionId optionIdx value Hvalue.
  destruct (H12 _ _ _ Hvalue) as (value2 & Hvalue2 & Hrel2).
  destruct (H23 _ _ _ Hvalue2) as (value3 & Hvalue3 & Hrel3).
  exists value3. split; [assumption|].
  destruct Hrel3 as [->|[Hnot3 Hstaged3]]; [assumption|].
  destruct Hrel2 as [->|[Hnot2 (Hfound2 & _)]]; [auto|congruence].
Qed.

Lemma tableStages_tableSet def table optionId optionIdx old value :
  tableValue table optionId optionIdx = Some old ->
  found old = false ->
  staged def optionId old value ->
  tableStages def table (tableSet table optionId optionIdx value).
Proof.
  intros Hold Hnot Hstaged optionId' optionIdx' value' Hvalue'.
  destruct (decide ((optionId', optionIdx') = (optionId, optionIdx))) as [[= -> ->]|Hne].
  - exists value. rewrite (tableValue_tableSet_eq _ _ _ _ _ Hold).
    split; [reflexivity|]. right. simplify_eq. auto.
  - exists value'. rewrite tableValue_tableSet_ne by assumption. auto.
Qed.

Lemma parseEnv_stages def commandId table keyValue log table' log' :
  parseEnv def commandId table keyValue log = (Ok table', log') ->
  tableStages def table table'.
Proof.
  unfold parseEnv. intros Hrun. unfold_M.
  repeat case_match; simplify_eq; try apply tableStages_refl;
    (eapply tableStages_tableSet; [eassumption | assumption |]);
    unfold staged; simpl; auto 6.
Qed.

Lemma parseEnvLoop_stages def commandId env :
  forall table environIdx log table' log',
    parseEnvLoop def commandId table environIdx env log = (Ok table', log') ->
    tableStages def table table'.
Proof.
  induction env as [|keyValue env IH]; intros table environIdx log table' log' Hrun;
    simpl in Hrun.
  - unfold_M. injection Hrun as <- _. apply tableStages_refl.
  - unfold mbind, M_bind, tell in Hrun.
    destruct (parseEnv def commandId table keyValue (log ++ [EvEnviron environIdx]))
      as [[table1| | |] log1] eqn:Hstep; try discriminate.
    eapply tableStages_trans; [eapply parseEnv_stages; eassumption | eapply IH; eassumption].
Qed.

Lemma parseKey_stages def commandId config sectionIdx section st key log st' log' :
  parseKey def commandId config sectionIdx section st key log = (Ok st', log') ->
  tableStages def st.1 st'.1.
Proof.
  unfold parseKey. destruct st as [table optionFound]. intros Hrun. unfold_M.
  repeat case_match; simplify_eq; simpl; try apply tableStages_refl;
    (eapply tableStages_tableSet; [eassumption | assumption |]);
    unfold staged; simpl; auto 6.
Qed.

Lemma parseSection_stages def commandId config st section log st' log' :
  parseSection def commandId config st section log = (Ok st', log') ->
  tableStages def st.1 st'.1.
Proof.
  unfold parseSection. destruct st as [table sectionIdx]. intros Hrun.
  unfold mbind, M_bind in Hrun.
  destruct (forEach _ _ _ _) as [[[table1 found1]| | |] log1] eqn:Hkeys; try discriminate.
  unfold_M. simplify_eq. simpl.
  apply (forEach_invariant (fun s s' => tableStages def s.1 s'.1)) in Hkeys;
    [exact Hkeys|..].
  - intros s. apply tableStages_refl.
  - intros s1 s2 s3. apply tableStages_trans.
  - intros s a l s' l'. apply parseKey_stages.
Qed.

Lemma parseConfigString_stages def sys commandId table configString log table' log' :
  parseConfigString def sys commandId table configString log = (Ok table', log') ->
  tableStages def table table'.
Proof.
  unfold parseConfigString, parseSections. intros Hrun.
  destruct configString as [content|].
  - unfold mbind, M_bind, liftR in Hrun.
    destruct (iniParse sys content) as [config| | |]; try discriminate.
    destruct (sectionList def commandId table) as [sections| | |]; try discriminate.
    destruct (forEach (parseSection def commandId config) (table, 0) sections log)
      as [[[table1 idx1]| | |] log1] eqn:Hsections; try discriminate.
    unfold_M. simplify_eq.
    apply (forEach_invariant (fun s s' => tableStages def s.1 s'.1)) in Hsections;
      [exact Hsections|..].
    + intros s. apply tableStages_refl.
    + intros s1 s2 s3. apply tableStages_trans.
    + intros s a l s' l'. apply parseSection_stages.
  - unfold_M. simplify_eq. apply tableStages_refl.
Qed.

(** X6: what the environment and the config files can write.  A record
    that was not found when Phase 1 ended and is found after Phase 2 and
    Phase 3 has the source Config, for a variable of the environment as for a
    key of a file; its reset flag is as it was, and it is negated only for a
    Boolean option.  Every other record is as it was. *)
Theorem phases_stage_config (def : Define) (sys : System) (commandId : ConfigCommand)
    (table1 table2 table3 : ParseOptionList) (configString : option string)
    (log1 log2 log2' log3 : list Event) (optionId optionIdx : nat)
    (value : ParseOptionValue) :
  parseEnvLoop def commandId table1 0 (environ sys) log1 = (Ok table2, log2) ->
  parseConfigString def sys commandId table2 configString log2' = (Ok table3, log3) ->
  tableValue table1 optionId optionIdx = Some value ->
  exists value',
    tableValue table3 optionId optionIdx = Some value'
    /\ (value' = value
        \/ (found value = false
            /\ found value' = true
            /\ source value' = cfgSourceConfig
            /\ reset value' = reset value
            /\ (negate value' = negate value
                \/ (cfgDefOptionType def optionId = cfgDefOptTypeBoolean
                    /\ negate value' = true)))).
Proof.
  intros Henv Hfile Hvalue.
  apply parseEnvLoop_stages in Henv. apply parseConfigString_stages in Hfile.
  exact (tableStages_trans _ _ _ _ Henv Hfile _ _ _ Hvalue).
Qed.

Lemma phases_stage_config_witness :
  exists value',
    tableValue Sample.tableFile Sample.optCompress 0 = Some value'
    /\ (value' = parseOptionValueZero
        \/ (found parseOptionValueZero = false
            /\ found value' = true
            /\ source value' = cfgSourceConfig
            /\ reset value' = reset parseOptionValueZero
            /\ (negate value' = negate parseOptionValueZero
                \/ (cfgDefOptionType Sample.define Sample.optCompress
                    = cfgDefOptTypeBoolean
                    /\ negate value' = true)))).
Proof.
  apply (phases_stage_config Sample.define Sample.system Sample.cmdBackup
           Sample.tableParam Sample.tableEnv Sample.tableFile (Some Sample.configMain)
           [] Sample.envRun.2 Sample.envRun.2 Sample.fileRun.2); reflexivity.
Defined.

(** X7: the records after Phases 1, 2 and 3.  When the option list has no
    name that is both a negate and a reset name, the phases keep for every
    record that a modifier is only on a record that was found, that a record
    is not both negated and reset, and that an option that is not a Boolean
    is negated only on the command line. *)
Theorem phases_keep_records (def : Define) (sys : System) (st st' : ParseState)
    (rs : list GetoptResult) (commandId : ConfigCommand)
    (table2 table3 : ParseOptionList) (configString : option string)
    (log1 log2 log2' log3 : list Event) :
  optionListFlags def ->
  tableInv def (parseOptionList st) ->
  parseLoop def st rs = Ok st' ->
  parseEnvLoop def commandId (parseOptionList st') 0 (environ sys) log1
  = (Ok table2, log2) ->
  parseConfigString def sys commandId table2 configString log2' = (Ok table3, log3) ->
  forall optionId optionIdx value,
    tableValue table3 optionId optionIdx = Some value ->
    (negate value || reset value = true -> found value = true)
    /\ negate value && reset value = false
    /\ (negate value = true -> cfgDefOptionType def optionId <> cfgDefOptTypeBoolean ->
        source value = cfgSourceParam).
Proof.
  intros Hflags Hinv Hloop Henv Hfile optionId optionIdx value Hvalue.
  eapply parseLoop_inv in Hloop; [|assumption..].
  eapply parseEnvLoop_inv in Henv; [|assumption].
  eapply parseConfigString_inv in Hfile; [|assumption].
  exact (Hfile _ _ _ Hvalue).
Qed.

Lemma sample_optionListFlags : optionListFlags Sample.define.
Proof.
  intros optionListIdx entry Hentry. simpl in Hentry. unfold Sample.options in Hentry.
  repeat (destruct optionListIdx as [|optionListIdx];
          [injection Hentry as <-; reflexivity|]).
  discriminate.
Qed.

Lemma tableInv_check def table :
  (forall optionId parseOption,
     table !! optionId = Some parseOption ->
     forallb (valueOk def optionId) (indexList parseOption) = true) ->
  tableInv def table.
Proof.
  intros Hrows optionId optionIdx value Hvalue. unfold tableValue in Hvalue.
  destruct (table !! optionId) as [parseOption|] eqn:Hrow; [|discriminate].
  apply parseOptionIdxValue_Some in Hvalue as [_ Hvalue].
  apply valueOk_valueInv. specialize (Hrows _ _ Hrow).
  rewrite forallb_forall in Hrows. apply Hrows.
  apply list_elem_of_In, list_elem_of_lookup. eauto.
Qed.

Lemma sample_tableInv_tableParam : tableInv Sample.define Sample.tableParam.
Proof.
  apply tableInv_check. intros optionId parseOption Hrow.
  do 15 (destruct optionId as [|optionId];
         [injection Hrow as <-; vm_compute; reflexivity|]).
  discriminate.
Qed.

Lemma phases_keep_records_witness :
  let value := mkParseOptionValue true true false cfgSourceConfig None in
  tableValue Sample.tableFile Sample.optCompress 0 = Some value
  /\ (negate value || reset value = true -> found value = true)
  /\ negate value && reset value = false
  /\ (negate value = true ->
      cfgDefOptionType Sample.define Sample.optCompress <> cfgDefOptTypeBoolean ->
      source value = cfgSourceParam).
Proof.
  cbv zeta. split; [vm_compute; reflexivity|].
  refine (phases_keep_records Sample.define Sample.system
            (Sample.stateOf Sample.cmdBackup Sample.tableParam)
            (Sample.stateOf Sample.cmdBackup Sample.tableParam) []
            Sample.cmdBackup Sample.tableEnv Sample.tableFile (Some Sample.configMain)
            [] Sample.envRun.2 Sample.envRun.2 Sample.fileRun.2
            sample_optionListFlags sample_tableInv_tableParam _ _ _
            Sample.optCompress 0 (mkParseOptionValue true true false cfgSourceConfig None)
            _); vm_compute; reflexivity.
Defined.

(** ** The size parser: failures and letter case *)

Lemma prefix_substring (n : nat) (s : string) :
  String.prefix (String.substring 0 n s) s = true.
Proof.
  revert n. induction s as [|c s IH]; intros [|n]; simpl; try reflexivity.
  destruct (Ascii.ascii_dec c c); [apply IH|contradiction].
Qed.

(** X8: the size parser fails in two ways only.  A value that does not
    match is the FormatError; for a value that matches, the reads of the
    last two characters are inside the string and the character at the
    qualifier position is a qualifier, so the value fails only when the
    conversion to double fails, on a prefix of the value that is not empty,
    and it fails as the conversion does. *)
Theorem convertToByte_failures (cv : Convert) (value : string) :
  (exists result, convertToByte cv value = Ok result)
  \/ (regExpMatchOne sizeRegExp (strLower value) = false
      /\ convertToByte cv value
         = Throw FormatError ("value '" +:+ value +:+ "' is not valid"))
  \/ (regExpMatchOne sizeRegExp (strLower value) = true
      /\ exists numeric,
           String.prefix numeric (strLower value) = true
           /\ numeric <> ""
           /\ match varDblForce cv numeric with
              | Ok _ => False
              | Throw e msg => convertToByte cv value = Throw e msg
              | NullDeref => convertToByte cv value = NullDeref
              | OutOfBounds => convertToByte cv value = OutOfBounds
              end).
Proof.
  rewrite convertToByte_specSize. unfold specSize.
  destruct (regExpMatchOne sizeRegExp (strLower value)) eqn:Hmatch;
    [|right; left; split; reflexivity].
  destruct (sizeRegExp_chars _ Hmatch) as (c0 & s' & Hs & Hc0 & Hs').
  destruct (sizeQualifierPos_spec c0 s' Hc0 Hs') as [_ Hunit]. rewrite <- Hs in Hunit.
  assert (Hfail : forall numeric,
            String.prefix numeric (strLower value) = true -> numeric <> "" ->
            forall k : double -> double,
              (exists result,
                 (valueDbl ← (numeric' ← varDblForce cv numeric; Ok (k numeric'));
                  Ok (varStrForce cv valueDbl, valueDbl)) = Ok result)
              \/ exists numeric0,
                   String.prefix numeric0 (strLower value) = true
                   /\ numeric0 <> ""
                   /\ match varDblForce cv numeric0 with
                      | Ok _ => False
                      | Throw e msg =>
                          (valueDbl ← (numeric' ← varDblForce cv numeric; Ok (k numeric'));
                           Ok (varStrForce cv valueDbl, valueDbl)) = Throw e msg
                      | NullDeref =>
                          (valueDbl ← (numeric' ← varDblForce cv numeric; Ok (k numeric'));
                           Ok (varStrForce cv valueDbl, valueDbl)) = NullDeref
                      | OutOfBounds =>
                          (valueDbl ← (numeric' ← varDblForce cv numeric; Ok (k numeric'));
                           Ok (varStrForce cv valueDbl, valueDbl)) = OutOfBounds
                      end).
  { intros numeric Hprefix Hne k.
    destruct (varDblForce cv numeric) as [d| | |] eqn:Hd.
    - left. eexists. reflexivity.
    - right. exists numeric. rewrite Hd. auto.
    - right. exists numeric. rewrite Hd. auto.
    - right. exists numeric. rewrite Hd. auto. }
  destruct (specSizeQualifier (strLower value)) as [[position unit]|].
  - destruct (Hunit _ _ eq_refl) as (_ & Hq & Hpos).
    destruct (sizeQualifierToMultiplier_spec _ Hq) as (multiplier & Hm & _). rewrite Hm.
    destruct (Hfail (strTrunc (strLower value) position)
                (prefix_substring _ _)
                ltac:(rewrite Hs; destruct position; [lia|discriminate])
                (fun numeric => (numeric * Z2double multiplier)%float))
      as [Hok|Herr]; [left; exact Hok|].
    right. right. split; [reflexivity|]. exact Herr.
  - assert (Hself : String.prefix (strLower value) (strLower value) = true).
    { rewrite <- (prefix_substring (String.length (strLower value))) at 1.
      f_equal. clear. induction (strLower value) as [|c s IH]; simpl; congruence. }
    destruct (Hfail (strLower value) Hself ltac:(rewrite Hs; discriminate) (fun d => d))
      as [Hok|Herr].
    + left. destruct Hok as [result Hok]. exists result. rewrite <- Hok.
      destruct (varDblForce cv (strLower value)); reflexivity.
    + right. right. split; [reflexivity|].
      destruct Herr as (numeric0 & Hp & Hn & Herr). exists numeric0.
      split; [assumption|]. split; [assumption|].
      destruct (varDblForce cv numeric0); try assumption;
        rewrite <- Herr; destruct (varDblForce cv (strLower value)); reflexivity.
Qed.

Lemma chrLower_idemp (c : ascii) : chrLower (chrLower c) = chrLower c.
Proof. destruct c as [[] [] [] [] [] [] [] []]; reflexivity. Qed.

Lemma strLower_idemp (s : string) : strLower (strLower s) = strLower s.
Proof.
  induction s as [|c s IH]; simpl; [reflexivity|]. rewrite chrLower_idemp, IH.
  reflexivity.
Qed.

(** X9: the size parser does not see the case of the letters.  A value
    and its lower case are accepted together and give the same string and
    the same number. *)
Theorem convertToByte_lower (cv : Convert) (value : string) (result : string * double) :
  convertToByte cv value = Ok result <-> convertToByte cv (strLower value) = Ok result.
Proof.
  unfold convertToByte. rewrite strLower_idemp.
  destruct (regExpMatchOne sizeRegExp (strLower value)); [reflexivity|].
  split; discriminate.
Qed.

(** ** Phase 5: the check of a path *)

Lemma string_snoc (s : string) :
  s <> "" ->
  exists c,
    s = String.substring 0 (String.length s - 1) s +:+ String c ""
    /\ String.substring (String.length s - 1) 1 s = String c "".
Proof.
  induction s as [|a s IH]; [congruence|]. intros _.
  destruct s as [|b s'].
  - exists a. split; reflexivity.
  - destruct IH as (c & Heq & Hlast); [discriminate|]. exists c.
    replace (String.length (String a (String b s')) - 1)
      with (S (String.length (String b s') - 1)) by (simpl; lia).
    split.
    + change (String.substring 0 (S ?n) (String a ?t))
        with (String a (String.substring 0 n t)).
      change (String a ?x +:+ ?y) with (String a (x +:+ y)).
      f_equal. exact Heq.
    + exact Hlast.
Qed.

Lemma prefix_app (f p q : string) :
  String.prefix f p = true -> String.prefix f (p +:+ q) = true.
Proof.
  revert p. induction f as [|c f IH]; intros p H; [destruct (p +:+ q); reflexivity|].
  destruct p as [|d p]; [discriminate|]. simpl in *.
  destruct (Ascii.ascii_dec c d); [apply IH; assumption|discriminate].
Qed.

Lemma strContainsZ_cons (c : ascii) (s f : string) :
  strContainsZ (String c s) f = String.prefix f (String c s) || strContainsZ s f.
Proof. reflexivity. Qed.

Lemma strContainsZ_app_l (p q f : string) :
  strContainsZ p f = true -> strContainsZ (p +:+ q) f = true.
Proof.
  induction p as [|c p IH]; intros H.
  - simpl in H. rewrite orb_false_r in H. destruct f; [|discriminate].
    change ("" +:+ q) with q. destruct q; reflexivity.
  - change (String c p +:+ q) with (String c (p +:+ q)).
    rewrite strContainsZ_cons in *.
    apply orb_prop in H as [H|H].
    + pose proof (prefix_app _ (String c p) q H) as Hp.
      change (String c p +:+ q) with (String c (p +:+ q)) in Hp.
      rewrite Hp. reflexivity.
    + rewrite (IH H). apply orb_true_r.
Qed.

Lemma strContainsZ_app_r (p q f : string) :
  String.prefix f q = true -> strContainsZ (p +:+ q) f = true.
Proof.
  intros H. induction p as [|c p IH].
  - change ("" +:+ q) with q. destruct q as [|d q].
    + destruct f; [reflexivity|discriminate].
    + rewrite strContainsZ_cons, H. reflexivity.
  - change (String c p +:+ q) with (String c (p +:+ q)).
    rewrite strContainsZ_cons, IH. apply orb_true_r.
Qed.

Lemma length_snoc (p : string) (c : ascii) :
  String.length (p +:+ String c "") = S (String.length p).
Proof. induction p as [|a p IH]; simpl; [reflexivity|]. f_equal. exact IH. Qed.

Lemma substring_last (p : string) (c : ascii) :
  String.substring (String.length p) 1 (p +:+ String c "") = String c "".
Proof. induction p as [|a p IH]; [reflexivity|]. exact IH. Qed.

Lemma strAppend_assoc (a b c : string) : (a +:+ b) +:+ c = a +:+ (b +:+ c).
Proof.
  induction a as [|x a IH]; [reflexivity|].
  change (String x ((a +:+ b) +:+ c) = String x (a +:+ (b +:+ c))). f_equal. exact IH.
Qed.

Lemma strEndsWithZ_snoc (p : string) (c : ascii) :
  strEndsWithZ (p +:+ String c "") "/" = Ascii.eqb c "/".
Proof.
  unfold strEndsWithZ. rewrite length_snoc. simpl. rewrite Nat.sub_0_r, substring_last.
  simpl. destruct (Ascii.eqb c "/"); reflexivity.
Qed.

Lemma substring_snoc (p : string) (c : ascii) :
  String.substring 0 (String.length p) (p +:+ String c "") = p.
Proof.
  induction p as [|a p IH]; [reflexivity|]. simpl. f_equal. exact IH.
Qed.

(** X10: the path that Phase 5 accepts.  The value that is committed for
    a path begins with /, holds no //, and does not end with / unless it is
    the root; it is the value given, or the value given without its one
    final /; and it passes the check unchanged. *)
Theorem checkPath_result (def : Define) (optionId : nat) (value path : string) :
  checkPath def optionId value = Ok path ->
  strBeginsWithZ path "/" = true
  /\ strContainsZ path "//" = false
  /\ (strEndsWithZ path "/" = true -> path = "/")
  /\ (value = path \/ value = path +:+ "/")
  /\ checkPath def optionId path = Ok path.
Proof.
  unfold checkPath.
  destruct (String.length value =? 0) eqn:Hlen; [discriminate|].
  destruct (strBeginsWithZ value "/") eqn:Hbegin; simpl negb; cbv iota;
    [|intros Hrun; discriminate Hrun].
  destruct (strContainsZ value "//") eqn:Hcontains; cbv iota;
    [intros Hrun; discriminate Hrun|].
  assert (Hfirst : exists rest, value = String "/" rest).
  { unfold strBeginsWithZ in Hbegin. apply String.prefix_correct in Hbegin.
    destruct value as [|c rest]; [discriminate|]. simpl in Hbegin.
    injection Hbegin as -> _. eauto. }
  destruct Hfirst as [rest Hvalue].
  assert (Hgoal : forall p,
            strBeginsWithZ p "/" = true -> strContainsZ p "//" = false ->
            (strEndsWithZ p "/" = true -> p = "/") ->
            (if String.length p =? 0 then
               Throw OptionInvalidValueError
                 ("'" +:+ p +:+ "' must be >= 1 character for '" +:+
                  cfgOptionName def optionId +:+ "' option")
             else if negb (strBeginsWithZ p "/") then
               Throw OptionInvalidValueError
                 ("'" +:+ p +:+ "' must begin with / for '" +:+
                  cfgOptionName def optionId +:+ "' option")
             else if strContainsZ p "//" then
               Throw OptionInvalidValueError
                 ("'" +:+ p +:+ "' cannot contain // for '" +:+
                  cfgOptionName def optionId +:+ "' option")
             else if strEndsWithZ p "/" && negb (String.length p =? 1) then
               Ok (strTrunc p (String.length p - 1))
             else Ok p) = Ok p).
  { intros p Hb Hc He. rewrite Hb, Hc. simpl negb. cbv iota.
    destruct (strEndsWithZ p "/") eqn:Hend.
    - rewrite (He eq_refl). reflexivity.
    - destruct p as [|c p']; [discriminate Hb|]. reflexivity. }
  destruct (strEndsWithZ value "/") eqn:Hend.
  - destruct (String.length value =? 1) eqn:Hone; simpl negb; cbv iota; simpl andb;
      cbv iota.
    + intros [= <-].
      assert (Hroot : value = "/").
      { rewrite Hvalue in Hone |- *. destruct rest; [reflexivity|discriminate]. }
      split; [assumption|]. split; [assumption|]. split; [auto|]. split; [auto|].
      apply Hgoal; auto.
    + intros [= <-].
      destruct (string_snoc value) as (c & Hsnoc & _); [rewrite Hvalue; discriminate|].
      set (p := String.substring 0 (String.length value - 1) value) in *.
      assert (Hc : c = "/"%char).
      { rewrite Hsnoc, strEndsWithZ_snoc in Hend. apply Ascii.eqb_eq. exact Hend. }
      subst c.
      assert (Hp : exists rest', p = String "/" rest').
      { unfold p. rewrite Hvalue. simpl String.length.
        rewrite Hvalue in Hone. simpl in Hone.
        destruct rest as [|b rest']; [discriminate|].
        simpl. eauto. }
      destruct Hp as [rest' Hp].
      assert (Hpb : strBeginsWithZ p "/" = true).
      { rewrite Hp. apply String.prefix_correct. simpl. destruct rest'; reflexivity. }
      assert (Hpc : strContainsZ p "//" = false).
      { destruct (strContainsZ p "//") eqn:Hpc; [|reflexivity].
        rewrite Hsnoc, (strContainsZ_app_l _ _ _ Hpc) in Hcontains. discriminate. }
      assert (Hpe : strEndsWithZ p "/" = true -> p = "/").
      { intros Hpe. exfalso.
        destruct (string_snoc p) as (c & Hsnocp & _); [rewrite Hp; discriminate|].
        rewrite Hsnocp, strEndsWithZ_snoc in Hpe. apply Ascii.eqb_eq in Hpe. subst c.
        rewrite Hsnoc, Hsnocp in Hcontains.
        rewrite strAppend_assoc in Hcontains.
        rewrite strContainsZ_app_r in Hcontains by reflexivity. discriminate. }
      unfold strTrunc. fold p.
      split; [assumption|]. split; [assumption|]. split; [assumption|].
      split; [right; exact Hsnoc|]. apply Hgoal; assumption.
  - simpl andb. cbv iota. intros [= <-].
    split; [assumption|]. split; [assumption|].
    split; [intros; congruence|]. split; [auto|].
    apply Hgoal; [assumption..|]. intros; congruence.
Qed.

Lemma checkPath_result_witness :
  checkPath Sample.define Sample.optSpoolPath "/var/spool/" = Ok "/var/spool"
  /\ checkPath Sample.define Sample.optSpoolPath "/var/spool" = Ok "/var/spool".
Proof.
  split; [reflexivity|].
  apply (checkPath_result Sample.define Sample.optSpoolPath "/var/spool/" "/var/spool").
  reflexivity.
Defined.

(** ** Phase 5: the pairs of a hash option *)

Lemma index_equal_cons (b : ascii) (s : string) :
  String.index 0 "=" (String b s)
  = if Ascii.ascii_dec "=" b then Some 0
    else match String.index 0 "=" s with Some n => Some (S n) | None => None end.
Proof.
  cbn [String.index String.prefix].
  destruct (Ascii.ascii_dec "=" b); [|reflexivity].
  destruct s; reflexivity.
Qed.

Lemma index_equal_append (key value : string) :
  String.index 0 "=" key = None ->
  String.index 0 "=" (key +:+ "=" +:+ value) = Some (String.length key).
Proof.
  induction key as [|b key IH]; intros Hnone.
  - change ("" +:+ "=" +:+ value) with (String "=" value).
    rewrite index_equal_cons. reflexivity.
  - change (String b key +:+ "=" +:+ value) with (String b (key +:+ "=" +:+ value)).
    rewrite index_equal_cons in Hnone |- *.
    destruct (Ascii.ascii_dec "=" b) as [Heq|Hne]; [congruence|].
    destruct (String.index 0 "=" key); [congruence|].
    rewrite IH by reflexivity. reflexivity.
Qed.

Lemma length_append (a b : string) :
  String.length (a +:+ b) = String.length a + String.length b.
Proof. induction a as [|c a IH]; simpl; [reflexivity|]. f_equal. exact IH. Qed.

Lemma substring_all (s : string) : String.substring 0 (String.length s) s = s.
Proof. induction s as [|c s IH]; simpl; [reflexivity|]. f_equal. exact IH. Qed.

Lemma substring_append_l (a b : string) :
  String.substring 0 (String.length a) (a +:+ b) = a.
Proof.
  induction a as [|c a IH]; simpl; [destruct b; reflexivity|]. f_equal. exact IH.
Qed.

Lemma substring_append_r (a b : string) (m : nat) :
  String.substring (String.length a) m (a +:+ b) = String.substring 0 m b.
Proof. induction a as [|c a IH]; [reflexivity|]. exact IH. Qed.

Lemma hashPair_pair def optionId kv key value :
  String.index 0 "=" key = None ->
  hashPair def optionId kv (key +:+ "=" +:+ value) = Ok (kvPut kv key value).
Proof.
  intros Hkey. unfold hashPair. rewrite (index_equal_append _ _ Hkey).
  rewrite substring_append_l. f_equal. f_equal.
  rewrite length_append.
  change ("=" +:+ value) with (String "=" value). cbn [String.length].
  replace (String.length key + S (String.length value) - S (String.length key))
    with (String.length value) by lia.
  replace (S (String.length key)) with (String.length (key +:+ "="))
    by (rewrite length_append; cbn [String.length]; lia).
  change (String "=" value) with ("=" +:+ value).
  rewrite <- (strAppend_assoc key "=" value).
  rewrite substring_append_r. apply substring_all.
Qed.

(** X11: the pairs of a hash option are split at the first =.  A pair
    that is a key with no = in it, a = and a value, which may hold more =, is
    put under the key with the value, and a list of such pairs is put in
    order, a later pair replacing the value of an earlier one with the same
    key.  A pair with no = is an OptionInvalidError that names the pair. *)
Theorem hashPair_split (def : Define) (optionId : nat) (kv : list (string * string))
    (pairs : list (string * string)) :
  Forall (fun pair => String.index 0 "=" pair.1 = None) pairs ->
  forEachR (hashPair def optionId) kv
    (map (fun pair => pair.1 +:+ "=" +:+ pair.2) pairs)
  = Ok (foldl (fun kv' pair => kvPut kv' pair.1 pair.2) kv pairs)
  /\ (forall pair,
        String.index 0 "=" pair = None ->
        forEachR (hashPair def optionId) kv
          (map (fun pair => pair.1 +:+ "=" +:+ pair.2) pairs ++ [pair])
        = Throw OptionInvalidError
            ("key/value '" +:+ pair +:+ "' not valid for '" +:+
             cfgOptionName def optionId +:+ "' option")).
Proof.
  intros Hkeys.
  assert (Hrun : forall kv0,
            forEachR (hashPair def optionId) kv0
              (map (fun pair => pair.1 +:+ "=" +:+ pair.2) pairs)
            = Ok (foldl (fun kv' pair => kvPut kv' pair.1 pair.2) kv0 pairs)).
  { induction Hkeys as [|pair pairs Hkey Hkeys IH]; intros kv0; [reflexivity|].
    simpl map. rewrite forEachR_cons, (hashPair_pair _ _ _ _ _ Hkey), Result_bind_Ok.
    apply IH. }
  split; [apply Hrun|].
  intros pair Hnone. rewrite forEachR_app, Hrun, Result_bind_Ok. simpl.
  unfold hashPair. rewrite Hnone. reflexivity.
Qed.

Lemma hashPair_split_witness :
  forEachR (hashPair Sample.define Sample.optRecoveryOption) []
    ["primary_conninfo=host=db1 port=5432"; "standby_mode=on"; "standby_mode=off"]
  = Ok [("primary_conninfo", "host=db1 port=5432"); ("standby_mode", "off")].
Proof.
  apply (hashPair_split Sample.define Sample.optRecoveryOption []
           [("primary_conninfo", "host=db1 port=5432"); ("standby_mode", "on");
            ("standby_mode", "off")]).
  repeat constructor.
Defined.

(** ** Phase 3: an option that appears twice in a section *)

Lemma forEach_app_Ok {A S} (body : S -> A -> M S) (l1 l2 : list A) :
  forall s log s1 log1,
    forEach body s l1 log = (Ok s1, log1) ->
    forEach body s (l1 ++ l2) log = forEach body s1 l2 log1.
Proof.
  induction l1 as [|a l1 IH]; intros s log s1 log1 Hrun; simpl in Hrun |- *.
  - unfold_M. injection Hrun as <- <-. reflexivity.
  - unfold mbind, M_bind in Hrun |- *.
    destruct (body s a log) as [[s'| | |] log'] eqn:Hstep; try discriminate.
    eapply IH; eassumption.
Qed.

Lemma forEach_app_inv {A S} (body : S -> A -> M S) (l1 l2 : list A) :
  forall s log s2 log2,
    forEach body s (l1 ++ l2) log = (Ok s2, log2) ->
    exists s1 log1,
      forEach body s l1 log = (Ok s1, log1) /\ forEach body s1 l2 log1 = (Ok s2, log2).
Proof.
  induction l1 as [|a l1 IH]; intros s log s2 log2 Hrun; simpl in Hrun |- *.
  - exists s, log. split; [reflexivity | exact Hrun].
  - unfold mbind, M_bind in Hrun |- *.
    destruct (body s a log) as [[s'| | |] log'] eqn:Hstep; try discriminate.
    eapply IH; eassumption.
Qed.

Lemma parseKey_found_mono def commandId config sectionIdx section st key log st' log' :
  parseKey def commandId config sectionIdx section st key log = (Ok st', log') ->
  forall optionId name, st.2 !! optionId = Some name -> st'.2 !! optionId = Some name.
Proof.
  unfold parseKey. destruct st as [table optionFound]. intros Hrun optionId name Hname.
  simpl in Hname. unfold_M.
  repeat case_match; simplify_eq; simpl; try exact Hname;
    (rewrite lookup_insert_ne; [exact Hname | congruence]).
Qed.

Lemma parseKey_marks def commandId config sectionIdx section st key entry log st' log' :
  optionList def !! optionFind def key = Some entry ->
  flagSet (val entry) PARSE_NEGATE_FLAG = false ->
  flagSet (val entry) PARSE_RESET_FLAG = false ->
  cfgDefOptionSection def (parseOptionId (val entry)) <> cfgDefSectionCommandLine ->
  parseKey def commandId config sectionIdx section st key log = (Ok st', log') ->
  st'.2 !! parseOptionId (val entry) = Some key.
Proof.
  unfold parseKey. destruct st as [table optionFound].
  intros Hentry Hnegate Hreset Hsection Hrun.
  rewrite Hentry, Hnegate, Hreset in Hrun.
  destruct (decide _) as [Heq|_] in Hrun; [contradiction|].
  unfold_M.
  repeat case_match; simplify_eq; simpl; apply lookup_insert_eq.
Qed.

Lemma parseKey_found_throws def commandId config sectionIdx section st key entry name log :
  optionList def !! optionFind def key = Some entry ->
  flagSet (val entry) PARSE_NEGATE_FLAG = false ->
  flagSet (val entry) PARSE_RESET_FLAG = false ->
  cfgDefOptionSection def (parseOptionId (val entry)) <> cfgDefSectionCommandLine ->
  st.2 !! parseOptionId (val entry) = Some name ->
  parseKey def commandId config sectionIdx section st key log
  = (Throw OptionInvalidError
       ("configuration file contains duplicate options ('" +:+ key +:+ "', '" +:+ name +:+
        "') in section '[" +:+ section +:+ "]'"), log).
Proof.
  unfold parseKey. destruct st as [table optionFound].
  intros Hentry Hnegate Hreset Hsection Hname. simpl in Hname.
  rewrite Hentry, Hnegate, Hreset.
  destruct (decide _) as [Heq|_]; [contradiction|].
  rewrite Hname. reflexivity.
Qed.

(** X12: an option is read once from a section, whatever its index.  The
    keys that a section is checked for are those of the option list that are
    no negate and no reset name and whose option is not command-line only.
    When two such keys of a section have the same option id, as pg1-path and
    pg2-path have, and the keys up to the second one are read with no error,
    the second key is an OptionInvalidError that names the second key, the
    first key and the section; the keys after it are not read, and nothing is
    logged for the second key. *)
Theorem parseKey_duplicate (def : Define) (commandId : ConfigCommand) (config : Ini)
    (sectionIdx : nat) (section : string) (table : ParseOptionList)
    (before between after : list string) (key1 key2 : string)
    (entry1 entry2 : struct_option) (log log1 : list Event)
    (st1 : ParseOptionList * gmap nat string) :
  optionList def !! optionFind def key1 = Some entry1 ->
  optionList def !! optionFind def key2 = Some entry2 ->
  flagSet (val entry1) PARSE_NEGATE_FLAG = false ->
  flagSet (val entry1) PARSE_RESET_FLAG = false ->
  flagSet (val entry2) PARSE_NEGATE_FLAG = false ->
  flagSet (val entry2) PARSE_RESET_FLAG = false ->
  parseOptionId (val entry1) = parseOptionId (val entry2) ->
  cfgDefOptionSection def (parseOptionId (val entry1)) <> cfgDefSectionCommandLine ->
  forEach (parseKey def commandId config sectionIdx section) (table, ∅)
    (before ++ key1 :: between) log = (Ok st1, log1) ->
  forEach (parseKey def commandId config sectionIdx section) (table, ∅)
    (before ++ key1 :: between ++ key2 :: after) log
  = (Throw OptionInvalidError
       ("configuration file contains duplicate options ('" +:+ key2 +:+ "', '" +:+ key1 +:+
        "') in section '[" +:+ section +:+ "]'"), log1).
Proof.
  intros Hentry1 Hentry2 Hnegate1 Hreset1 Hnegate2 Hreset2 Hid Hsection Hrun.
  assert (Hfound : st1.2 !! parseOptionId (val entry1) = Some key1).
  { apply forEach_app_inv in Hrun as (st0 & log0 & _ & Hrun).
    simpl in Hrun. unfold mbind, M_bind in Hrun.
    destruct (parseKey def commandId config sectionIdx section st0 key1 log0)
      as [[sta| | |] loga] eqn:Hstep; try discriminate.
    pose proof (parseKey_marks _ _ _ _ _ _ _ _ _ _ _
                  Hentry1 Hnegate1 Hreset1 Hsection Hstep) as Hmark.
    revert Hmark.
    eapply (forEach_invariant
              (fun s s' : ParseOptionList * gmap nat string =>
                 s.2 !! parseOptionId (val entry1) = Some key1 ->
                 s'.2 !! parseOptionId (val entry1) = Some key1)); [| | |exact Hrun].
    - auto.
    - auto.
    - intros s a l s' l' Hbody Hs. eapply parseKey_found_mono; eassumption. }
  replace (before ++ key1 :: between ++ key2 :: after)
    with ((before ++ key1 :: between) ++ key2 :: after)
    by (rewrite <- app_assoc; reflexivity).
  rewrite (forEach_app_Ok _ _ _ _ _ _ _ Hrun). simpl.
  unfold mbind, M_bind.
  rewrite Hid in Hsection, Hfound.
  rewrite (parseKey_found_throws _ _ _ _ _ _ _ _ _ _
             Hentry2 Hnegate2 Hreset2 Hsection Hfound).
  reflexivity.
Qed.

Lemma parseKey_duplicate_witness :
  forEach
    (parseKey Sample.define Sample.cmdBackup
       (Sample.iniOf [("demo", [("pg1-path", ["/a"]); ("process-max", ["2"]);
                                ("pg2-path", ["/b"]); ("compress", ["y"])])])
       1 "demo")
    (Sample.tableParam, ∅) ["pg1-path"; "process-max"; "pg2-path"; "compress"] []
  = (Throw OptionInvalidError
       "configuration file contains duplicate options ('pg2-path', 'pg1-path') in section '[demo]'",
     []).
Proof.
  refine (parseKey_duplicate Sample.define Sample.cmdBackup _ 1 "demo" Sample.tableParam
            [] ["process-max"] ["compress"] "pg1-path" "pg2-path"
            (mkOption "pg1-path" required_argument (Sample.optVal Sample.optPgPath 1 false false))
            (mkOption "pg2-path" required_argument (Sample.optVal Sample.optPgPath 2 false false))
            [] []
            (tableSet Sample.tableParam Sample.optProcessMax 0
               (Sample.valueFound cfgSourceConfig ["2"]),
             {[Sample.optPgPath := "pg1-path"; Sample.optProcessMax := "process-max"]})
            _ _ _ _ _ _ _ _ _);
    try (vm_compute; reflexivity).
  vm_compute. discriminate.
Defined.

(** ** The include path when the main file is switched off *)

(** X13: --no-config alone still loads the include path.  When --no-config
    is on the command line and neither --config-path nor
    --config-include-path is, [cfgFileLoad] reads no main file: the first
    thing it does is to list the default include path, which need not
    exist, and the .conf files found there are read in sorted order.  So with
    one non-empty .conf file in the default include path that parses, the
    text of that file is the configuration that is returned. *)
Theorem cfgFileLoad_no_config (def : Define) (sys : System) (optionList : ParseOptionList)
    (optConfigDefault optConfigIncludePathDefault origConfigDefault : string)
    (log : list Event) :
  indexList0Negate optionList (cfgOptConfig def) = true ->
  indexList0Found optionList (cfgOptConfigPath def) = false ->
  indexList0Found optionList (cfgOptConfigIncludePath def) = false ->
  cfgFileLoad def sys optionList optConfigDefault optConfigIncludePathDefault
    origConfigDefault log
  = match storagePath sys optConfigIncludePathDefault with
    | None => (Ok None, log ++ [EvStorageList optConfigIncludePathDefault false])
    | Some entries =>
        match filter (fun e => Is_true (confExpression e)) entries with
        | [] => (Ok None, log ++ [EvStorageList optConfigIncludePathDefault false])
        | entry :: entries' =>
            cfgFileLoadParts sys None optConfigIncludePathDefault
              (strLstSort (entry :: entries'))
              (log ++ [EvStorageList optConfigIncludePathDefault false])
        end
    end
  /\ (forall entry content ini,
        storagePath sys optConfigIncludePathDefault = Some [entry] ->
        confExpression entry = true ->
        storageFile sys (optConfigIncludePathDefault +:+ "/" +:+ entry) = Some content ->
        0 < String.length content ->
        iniParse sys content = Ok ini ->
        cfgFileLoad def sys optionList optConfigDefault optConfigIncludePathDefault
          origConfigDefault log
        = (Ok (Some content),
           log ++ [EvStorageList optConfigIncludePathDefault false;
                   EvStorageGet (optConfigIncludePathDefault +:+ "/" +:+ entry) true])).
Proof.
  intros Hnegate HconfigPath Hinclude.
  assert (Hrun :
    cfgFileLoad def sys optionList optConfigDefault optConfigIncludePathDefault
      origConfigDefault log
    = match storagePath sys optConfigIncludePathDefault with
      | None => (Ok None, log ++ [EvStorageList optConfigIncludePathDefault false])
      | Some entries =>
          match filter (fun e => Is_true (confExpression e)) entries with
          | [] => (Ok None, log ++ [EvStorageList optConfigIncludePathDefault false])
          | entry :: entries' =>
              cfgFileLoadParts sys None optConfigIncludePathDefault
                (strLstSort (entry :: entries'))
                (log ++ [EvStorageList optConfigIncludePathDefault false])
          end
      end).
  { unfold cfgFileLoad, cfgFileLoadPlan.
    rewrite Hnegate, HconfigPath, Hinclude. simpl.
    unfold cfgFileLoadMain, cfgFileLoadInclude, storageListP. simpl.
    unfold_M. simpl.
    destruct (storagePath sys optConfigIncludePathDefault) as [entries|]; [|reflexivity].
    destruct (filter _ entries); reflexivity. }
  split; [exact Hrun|].
  intros entry content ini Hpath Hconf Hfile Hlength Hparse.
  rewrite Hrun, Hpath.
  rewrite filter_cons_True by (rewrite Hconf; exact I).
  rewrite filter_nil.
  change (strLstSort [entry]) with [entry].
  simpl. rewrite M_bind_run, storageGetP_run, Hfile.
  unfold cfgFileLoadPart.
  apply Nat.ltb_lt in Hlength. rewrite Hlength.
  unfold_M. rewrite Hparse.
  rewrite <- app_assoc. reflexivity.
Qed.

Lemma cfgFileLoad_no_config_witness :
  cfgFileLoad Sample.define
    {| environ := [];
       storageFile := fun file =>
         if String.eqb file "/etc/pgbackrest/conf.d/stanza.conf"
         then Some Sample.configMain else None;
       storagePath := fun path =>
         if String.eqb path "/etc/pgbackrest/conf.d" then Some ["stanza.conf"] else None;
       iniParse := iniParse Sample.system |}
    (Sample.tableOf
       [(Sample.optConfig, [mkParseOptionValue true true false cfgSourceParam None])])
    "/etc/pgbackrest/pgbackrest.conf" "/etc/pgbackrest/conf.d" "/etc/pgbackrest.conf" []
  = (Ok (Some Sample.configMain),
     [EvStorageList "/etc/pgbackrest/conf.d" false;
      EvStorageGet "/etc/pgbackrest/conf.d/stanza.conf" true]).
Proof.
  refine (proj2 (cfgFileLoad_no_config Sample.define _ _ _ _ _ [] _ _ _)
            "stanza.conf" Sample.configMain Sample.configMainIni _ _ _ _ _);
    try (vm_compute; reflexivity).
  vm_compute. lia.
Defined.

(** ** Phase 2: one variable of the environment *)

Lemma index_equal_none_append (a b : string) :
  String.index 0 "=" a = None -> String.index 0 "=" b = None ->
  String.index 0 "=" (a +:+ b) = None.
Proof.
  intros Ha Hb. induction a as [|c a IH]; [exact Hb|].
  change (String c a +:+ b) with (String c (a +:+ b)).
  rewrite index_equal_cons in Ha |- *.
  destruct (Ascii.ascii_dec "=" c); [congruence|].
  destruct (String.index 0 "=" a); [congruence|].
  rewrite IH by reflexivity. reflexivity.
Qed.

Lemma substring_after_equal (key value : string) :
  String.substring (S (String.length key))
    (String.length (key +:+ "=" +:+ value) - S (String.length key))
    (key +:+ "=" +:+ value) = value.
Proof.
  rewrite length_append.
  change ("=" +:+ value) with (String "=" value). cbn [String.length].
  replace (String.length key + S (String.length value) - S (String.length key))
    with (String.length value) by lia.
  replace (S (String.length key)) with (String.length (key +:+ "="))
    by (rewrite length_append; cbn [String.length]; lia).
  change (String "=" value) with ("=" +:+ value).
  rewrite <- (strAppend_assoc key "=" value).
  rewrite substring_append_r. apply substring_all.
Qed.

Lemma parseEnv_decode (envName value : string) :
  String.index 0 "=" envName = None ->
  let keyValue := PGBACKREST_ENV +:+ envName +:+ "=" +:+ value in
  let equalPos := PGBACKREST_ENV_SIZE + String.length envName in
  String.prefix PGBACKREST_ENV keyValue = true
  /\ String.index 0 "=" keyValue = Some equalPos
  /\ String.substring PGBACKREST_ENV_SIZE (equalPos - PGBACKREST_ENV_SIZE) keyValue = envName
  /\ String.substring (S equalPos) (String.length keyValue - S equalPos) keyValue = value.
Proof.
  intros Hname keyValue equalPos.
  assert (Hsplit : keyValue = (PGBACKREST_ENV +:+ envName) +:+ "=" +:+ value)
    by (symmetry; apply strAppend_assoc).
  assert (Hpos : equalPos = String.length (PGBACKREST_ENV +:+ envName))
    by (rewrite length_append; reflexivity).
  repeat split.
  - apply prefix_app. reflexivity.
  - rewrite Hsplit, Hpos. apply index_equal_append.
    apply index_equal_none_append; [reflexivity | exact Hname].
  - unfold equalPos, PGBACKREST_ENV_SIZE.
    replace (String.length PGBACKREST_ENV + String.length envName
             - String.length PGBACKREST_ENV) with (String.length envName) by lia.
    unfold keyValue. rewrite substring_append_r. apply substring_append_l.
  - rewrite Hpos, Hsplit. apply substring_after_equal.
Qed.

(** X14: what one PGBACKREST_ variable does.  The variable
    PGBACKREST_<NAME>=<value>, whose name in lower case with _ replaced by -
    is an option name that is no negate and no reset name and whose option
    is valid for the command: with an empty value it is an
    OptionInvalidValueError, also when the option was found on the command
    line; with a value and a record that was found it changes nothing; with
    a value and a record that was not found the record is marked found with
    the source of a config file, a Boolean takes n as negated and y as set
    and nothing else, a multi option takes the parts between the colons and
    any other option the one value. *)
Theorem parseEnv_variable (def : Define) (commandId : ConfigCommand)
    (table : ParseOptionList) (envName value : string) (entry : struct_option)
    (log : list Event) :
  let key := strReplaceChr (strLower envName) "_" "-" in
  let optionId := parseOptionId (val entry) in
  let optionIdx := parseOptionIdx (val entry) in
  let run :=
    parseEnv def commandId table (PGBACKREST_ENV +:+ envName +:+ "=" +:+ value) log in
  String.index 0 "=" envName = None ->
  optionList def !! optionFind def key = Some entry ->
  flagSet (val entry) PARSE_NEGATE_FLAG = false ->
  flagSet (val entry) PARSE_RESET_FLAG = false ->
  cfgDefOptionValid def commandId optionId = true ->
  (value = "" ->
   run = (Throw OptionInvalidValueError
            ("environment variable '" +:+ key +:+ "' must have a value"), log))
  /\ (value <> "" ->
      forall optionValue,
        tableValue table optionId optionIdx = Some optionValue ->
        (found optionValue = true -> run = (Ok table, log))
        /\ (found optionValue = false ->
            let record := setSource (setFound optionValue true) cfgSourceConfig in
            run
            = (if decide (cfgDefOptionType def optionId = cfgDefOptTypeBoolean) then
                 if String.eqb value "n" then
                   Ok (tableSet table optionId optionIdx (setNegate record true))
                 else if String.eqb value "y" then
                   Ok (tableSet table optionId optionIdx record)
                 else
                   Throw OptionInvalidValueError
                     ("environment boolean option '" +:+ key +:+ "' must be 'y' or 'n'")
               else
                 Ok (tableSet table optionId optionIdx
                       (setValueList record
                          (if cfgDefOptionMulti def optionId
                           then strLstNewSplitChr value ":" else [value]))),
               log))).
Proof.
  intros key optionId optionIdx run Hname Hentry Hnegate Hreset Hvalid.
  destruct (parseEnv_decode envName value Hname) as (Hprefix & Hindex & Hkey & Hvalue).
  assert (Hrun : run
    = (if String.length value =? 0 then
         liftR (Throw OptionInvalidValueError
                  ("environment variable '" +:+ key +:+ "' must have a value"))
       else
         match tableValue table optionId optionIdx with
         | None => liftR NullDeref
         | Some optionValue =>
             if found optionValue then mret table
             else
               let optionValue := setSource (setFound optionValue true) cfgSourceConfig in
               optionValue ←
                 (if decide (cfgDefOptionType def optionId = cfgDefOptTypeBoolean) then
                    if String.eqb value "n" then mret (setNegate optionValue true)
                    else if negb (String.eqb value "y") then
                      liftR (Throw OptionInvalidValueError
                               ("environment boolean option '" +:+ key +:+
                                "' must be 'y' or 'n'"))
                    else mret optionValue
                  else if cfgDefOptionMulti def optionId then
                    mret (setValueList optionValue (strLstNewSplitChr value ":"))
                  else mret (setValueList optionValue [value]));
               mret (tableSet table optionId optionIdx optionValue)
         end) log).
  { unfold run, parseEnv. rewrite Hprefix, Hindex, Hkey, Hvalue.
    fold key. rewrite Hentry, Hnegate, Hreset.
    fold optionId optionIdx. rewrite Hvalid. reflexivity. }
  split.
  - intros ->. rewrite Hrun. reflexivity.
  - intros Hvalue0 optionValue Hrecord.
    assert (Hlength : (String.length value =? 0) = false)
      by (destruct value; [contradiction | reflexivity]).
    rewrite Hrun, Hlength, Hrecord. split.
    + intros ->. reflexivity.
    + intros ->. unfold_M.
      destruct (decide _); [|destruct (cfgDefOptionMulti def optionId); reflexivity].
      destruct (String.eqb value "n"); [reflexivity|].
      destruct (String.eqb value "y"); reflexivity.
Qed.

Lemma parseEnv_variable_witness :
  tableValue Sample.tableParam Sample.optPgPath 1
  = Some (Sample.valueFound cfgSourceParam ["/p1"])
  /\ parseEnv Sample.define Sample.cmdBackup Sample.tableParam "PGBACKREST_PG1_PATH=" []
     = (Throw OptionInvalidValueError "environment variable 'pg1-path' must have a value",
        []).
Proof.
  split; [vm_compute; reflexivity|].
  refine (proj1 (parseEnv_variable Sample.define Sample.cmdBackup Sample.tableParam
                   "PG1_PATH" ""
                   (mkOption "pg1-path" required_argument
                      (Sample.optVal Sample.optPgPath 1 false false)) [] _ _ _ _ _) _);
    vm_compute; reflexivity.
Defined.
